(** * SocketChat: end-to-end encryption, key exchange and room fan-out

    A shallow embedding of the parts of the SocketChat sources that carry
    the protocol:

    - [EncryptionService] (ECDH P-256 key agreement, AES-GCM envelopes,
      base64 transport encoding),
    - [SocketService] (the Socket.IO relay that fans room events out),
    - the [Chat] component's event handlers (message list, reactions,
      typing indicators, key exchange) and its input line
      ([handleSendMessage]),
    - the [SocketProvider] of the socket context (its [connect] listener
      and [joinRoom]),
    - [MediaEncryptionService] (media envelopes and hashes),
    - the two request limiters ([lib/rate-limit] and [rateLimit] of
      [lib/api-utils]), [sanitizeInput], and [verifyWalletSignature].

    Browser and Socket.IO primitives that the sources call but do not
    define are modelled from their standards (WHATWG Encoding, WHATWG
    forgiving-base64, Socket.IO rooms); the cryptographic primitives of
    [window.crypto.subtle] are an interface whose algebraic laws are
    stated separately. *)

From Stdlib Require Import NArith ZArith Lia ZifyNat.
From Stdlib Require Strings.Byte.
From stdpp Require Import base numbers option list gmap sets strings.

Ltac Zify.zify_post_hook ::= Z.to_euclidean_division_equations.

(* ===================================================================== *)
(** * Part I. Definitions                                                 *)
(* ===================================================================== *)

(** ** JavaScript values shared by client and server *)

Module Js.

(** The content of a [Uint8Array] / [ArrayBuffer]. *)
Abbreviation byte := Byte.byte.
Abbreviation bytes := (list Byte.byte).

(** The value stored by [u8[i] = n]: the number modulo 256. *)
Definition byte_of_N (n : N) : byte :=
  default Byte.x00 (Byte.of_N (n mod 256)%N).

(** A JavaScript string is a sequence of UTF-16 code units. *)
Abbreviation jsstring := (list N).

Definition is_code_unit (c : N) : Prop := (c < 65536)%N.
Definition is_jsstring (s : jsstring) : Prop := Forall is_code_unit s.

(** Exceptions that the modelled code can raise. *)
Inductive JsError : Type :=
| Error (message : string)     (* [throw new Error(message)] *)
| TypeError                    (* property read on [null] *)
| InvalidCharacterError        (* DOMException of [atob] / [btoa] *)
| DataError                    (* DOMException of [subtle.importKey] *)
| OperationError.              (* DOMException of [subtle.decrypt] *)

(** The outcome of an (awaited) call: a value or a thrown exception. *)
Inductive Completion (A : Type) : Type :=
| Return (a : A)
| Throw (e : JsError).
Arguments Return {A} a.
Arguments Throw {A} e.

#[export] Instance completion_ret : MRet Completion := fun A a => Return a.
#[export] Instance completion_bind : MBind Completion := fun A B k c =>
  match c with
  | Return a => k a
  | Throw e => Throw e
  end.

(** Reading a property of a value that may be [null]. *)
Definition nonnull {A} (v : option A) : Completion A :=
  match v with
  | Some a => Return a
  | None => Throw TypeError
  end.

(** Computations over a mutable state [S] that may throw; what was
    written to the state before an exception stays written. *)
Definition Eff (S A : Type) : Type := S -> Completion A * S.

#[export] Instance eff_ret {S} : MRet (Eff S) := fun A a s => (Return a, s).
#[export] Instance eff_bind {S} : MBind (Eff S) := fun A B k c s =>
  match c s with
  | (Return a, s') => k a s'
  | (Throw e, s') => (Throw e, s')
  end.

Definition gets {S A} (f : S -> A) : Eff S A := fun s => (Return (f s), s).
Definition modify {S} (f : S -> S) : Eff S unit := fun s => (Return (), f s).
Definition throw {S A} (e : JsError) : Eff S A := fun s => (Throw e, s).
Definition lift {S A} (c : Completion A) : Eff S A := fun s => (c, s).

(** [try { body } catch (e) { handler }]. *)
Definition try_catch {S A} (body : Eff S A) (handler : JsError -> Eff S A) : Eff S A :=
  fun s =>
    match body s with
    | (Return a, s') => (Return a, s')
    | (Throw e, s') => handler e s'
    end.

(** A computation on a component [S] of a larger state [T]. *)
Definition zoom {S T A} (project : T -> S) (update : S -> T -> T) (c : Eff S A)
    : Eff T A :=
  fun t => let '(r, s') := c (project t) in (r, update s' t).

(** JavaScript truthiness of a string, and of a nullable string. *)
Definition truthy (s : string) : bool := negb (String.eqb s "").
Definition truthy_opt (s : option string) : bool :=
  match s with
  | Some s => truthy s
  | None => false
  end.

(** [a || b] on a nullable string with a string fallback. *)
Definition or_else (a : option string) (b : string) : string :=
  match a with
  | Some s => if truthy s then s else b
  | None => b
  end.

End Js.

(** ** Base64: [btoa] and [atob] *)

Module Base64.
Import Js.
Local Open Scope N_scope.

(** The base64 alphabet of RFC 4648, as code units. *)
Definition alphabet (i : N) : N :=
  if i <? 26 then 65 + i
  else if i <? 52 then 97 + (i - 26)
  else if i <? 62 then 48 + (i - 52)
  else if i =? 62 then 43
  else 47.

Definition index (c : N) : option N :=
  if (65 <=? c) && (c <=? 90) then Some (c - 65)
  else if (97 <=? c) && (c <=? 122) then Some (c - 97 + 26)
  else if (48 <=? c) && (c <=? 57) then Some (c - 48 + 52)
  else if c =? 43 then Some 62
  else if c =? 47 then Some 63
  else None.

Definition pad : N := 61.

(** RFC 4648 encoding of a sequence of octets: each 24-bit group is cut
    into four 6-bit indices; a final group of 8 or 16 bits is extended
    with zero bits and padded with [=]. *)
Fixpoint encode (l : list N) : jsstring :=
  match l with
  | [] => []
  | [a] =>
      let g := a * 16 in
      [alphabet (g / 64); alphabet (g mod 64); pad; pad]
  | [a; b] =>
      let g := (a * 256 + b) * 4 in
      [alphabet (g / 4096); alphabet ((g / 64) mod 64); alphabet (g mod 64); pad]
  | a :: b :: c :: rest =>
      let g := a * 65536 + b * 256 + c in
      alphabet (g / 262144) :: alphabet ((g / 4096) mod 64)
        :: alphabet ((g / 64) mod 64) :: alphabet (g mod 64) :: encode rest
  end.

(** [btoa(data)]: throws when a code unit exceeds 0xFF. *)
Definition btoa (data : jsstring) : Completion jsstring :=
  if forallb (fun c => c <=? 255) data then Return (encode data)
  else Throw InvalidCharacterError.

Definition is_ascii_whitespace (c : N) : bool :=
  (c =? 9) || (c =? 10) || (c =? 12) || (c =? 13) || (c =? 32).

Definition is_padding_suffix (l : jsstring) : bool :=
  match l with
  | [x] => x =? pad
  | [x; y] => (x =? pad) && (y =? pad)
  | _ => false
  end.

(** Remove one or two [=] from the end of the data, when it ends so. *)
Fixpoint remove_trailing_padding (l : jsstring) : jsstring :=
  match l with
  | [] => []
  | x :: r => if is_padding_suffix l then [] else x :: remove_trailing_padding r
  end.

(** The bit buffer of the forgiving decoder: 24 bits give three octets,
    18 bits two (the last 2 bits dropped), 12 bits one (4 bits dropped). *)
Fixpoint decode_indices (l : list N) : list N :=
  match l with
  | i1 :: i2 :: i3 :: i4 :: rest =>
      let g := ((i1 * 64 + i2) * 64 + i3) * 64 + i4 in
      g / 65536 :: (g / 256) mod 256 :: g mod 256 :: decode_indices rest
  | [i1; i2; i3] =>
      let g := ((i1 * 64 + i2) * 64 + i3) / 4 in
      [g / 256; g mod 256]
  | [i1; i2] =>
      let g := (i1 * 64 + i2) / 16 in
      [g]
  | _ => []
  end.

(** WHATWG forgiving-base64 decode. *)
Definition forgiving_decode (data : jsstring) : option (list N) :=
  let data := filter (fun c => is_ascii_whitespace c = false) data in
  let data :=
    if (length data mod 4 =? 0)%nat then remove_trailing_padding data else data in
  if (length data mod 4 =? 1)%nat then None
  else indices ← mapM index data; Some (decode_indices indices).

(** [atob(data)]. *)
Definition atob (data : jsstring) : Completion jsstring :=
  match forgiving_decode data with
  | Some octets => Return octets
  | None => Throw InvalidCharacterError
  end.

End Base64.

(** ** [TextEncoder] and [TextDecoder] (WHATWG Encoding, UTF-8) *)

Module Encoding.
Import Js.
Local Open Scope N_scope.

Definition is_lead_surrogate (c : N) : bool := (0xD800 <=? c) && (c <=? 0xDBFF).
Definition is_trail_surrogate (c : N) : bool := (0xDC00 <=? c) && (c <=? 0xDFFF).

Definition replacement : N := 0xFFFD.
Definition byte_order_mark : N := 0xFEFF.

(** Conversion of a string to a sequence of scalar values ([USVString]):
    a surrogate pair is one code point, an unpaired surrogate becomes
    U+FFFD. *)
Fixpoint to_scalar_values (s : jsstring) : list N :=
  match s with
  | [] => []
  | c :: r =>
      if is_lead_surrogate c then
        match r with
        | d :: r' =>
            if is_trail_surrogate d
            then N.shiftl (c - 0xD800) 10 + (d - 0xDC00) + 0x10000 :: to_scalar_values r'
            else replacement :: to_scalar_values r
        | [] => [replacement]
        end
      else if is_trail_surrogate c then replacement :: to_scalar_values r
      else c :: to_scalar_values r
  end.

(** [String.prototype.isWellFormed]: no unpaired surrogate. *)
Fixpoint isWellFormed (s : jsstring) : bool :=
  match s with
  | [] => true
  | c :: r =>
      if is_lead_surrogate c then
        match r with
        | d :: r' => is_trail_surrogate d && isWellFormed r'
        | [] => false
        end
      else negb (is_trail_surrogate c) && isWellFormed r
  end.

(** The continuation bytes of the UTF-8 encoder, [count] of them. *)
Fixpoint continuation_bytes (cp : N) (count : nat) : list N :=
  match count with
  | O => []
  | S count' =>
      N.lor 0x80 (N.land (N.shiftr cp (6 * N.of_nat count')) 0x3F)
        :: continuation_bytes cp count'
  end.

(** The UTF-8 encoder's handler for one scalar value. *)
Definition utf8_encode_scalar (cp : N) : list N :=
  if cp <=? 0x7F then [cp]
  else
    let '(count, offset) :=
      if cp <=? 0x7FF then (1%nat, 0xC0)
      else if cp <=? 0xFFFF then (2%nat, 0xE0)
      else (3%nat, 0xF0) in
    N.shiftr cp (6 * N.of_nat count) + offset :: continuation_bytes cp count.

(** [new TextEncoder().encode(s)]. *)
Definition TextEncoder_encode (s : jsstring) : bytes :=
  byte_of_N <$> (to_scalar_values s ≫= utf8_encode_scalar).

(** The state of the UTF-8 decoder. *)
Record Utf8Decoder : Type := {
  code_point : N;
  bytes_seen : N;
  bytes_needed : N;
  lower_boundary : N;
  upper_boundary : N;
}.

Definition utf8_initial : Utf8Decoder :=
  {| code_point := 0; bytes_seen := 0; bytes_needed := 0;
     lower_boundary := 0x80; upper_boundary := 0xBF |}.

(** The handler on a byte when no byte is pending: the next state and the
    code points emitted (an error emits U+FFFD). *)
Definition utf8_lead (b : N) : Utf8Decoder * list N :=
  if b <=? 0x7F then (utf8_initial, [b])
  else if (0xC2 <=? b) && (b <=? 0xDF) then
    ({| code_point := N.land b 0x1F; bytes_seen := 0; bytes_needed := 1;
        lower_boundary := 0x80; upper_boundary := 0xBF |}, [])
  else if (0xE0 <=? b) && (b <=? 0xEF) then
    ({| code_point := N.land b 0xF; bytes_seen := 0; bytes_needed := 2;
        lower_boundary := if b =? 0xE0 then 0xA0 else 0x80;
        upper_boundary := if b =? 0xED then 0x9F else 0xBF |}, [])
  else if (0xF0 <=? b) && (b <=? 0xF4) then
    ({| code_point := N.land b 0x7; bytes_seen := 0; bytes_needed := 3;
        lower_boundary := if b =? 0xF0 then 0x90 else 0x80;
        upper_boundary := if b =? 0xF4 then 0x8F else 0xBF |}, [])
  else (utf8_initial, [replacement]).

(** The handler on a byte.  A byte outside the expected range resets the
    decoder, emits U+FFFD and is then read again as a first byte. *)
Definition utf8_handler (st : Utf8Decoder) (b : N) : Utf8Decoder * list N :=
  if bytes_needed st =? 0 then utf8_lead b
  else if negb ((lower_boundary st <=? b) && (b <=? upper_boundary st)) then
    let '(st', out) := utf8_lead b in (st', replacement :: out)
  else
    let cp := N.lor (N.shiftl (code_point st) 6) (N.land b 0x3F) in
    let seen := bytes_seen st + 1 in
    if seen =? bytes_needed st then (utf8_initial, [cp])
    else ({| code_point := cp; bytes_seen := seen; bytes_needed := bytes_needed st;
             lower_boundary := 0x80; upper_boundary := 0xBF |}, []).

(** Running the decoder to the end of the queue; pending bytes at the end
    are an error. *)
Fixpoint utf8_run (st : Utf8Decoder) (queue : list N) : list N :=
  match queue with
  | [] => if bytes_needed st =? 0 then [] else [replacement]
  | b :: rest =>
      let '(st', out) := utf8_handler st b in out ++ utf8_run st' rest
  end.

Definition utf8_decode (input : bytes) : list N :=
  utf8_run utf8_initial (Byte.to_N <$> input).

(** A decoder with [ignoreBOM = false] drops a first U+FEFF. *)
Definition strip_bom (cps : list N) : list N :=
  match cps with
  | c :: r => if c =? byte_order_mark then r else cps
  | [] => []
  end.

(** The UTF-16 code units of a code point. *)
Definition code_units (cp : N) : list N :=
  if cp <? 0x10000 then [cp]
  else [0xD800 + N.shiftr (cp - 0x10000) 10; 0xDC00 + N.land (cp - 0x10000) 0x3FF].

(** [new TextDecoder().decode(buffer)]. *)
Definition TextDecoder_decode (input : bytes) : jsstring :=
  strip_bom (utf8_decode input) ≫= code_units.

End Encoding.

(** ** [window.crypto]: the primitives used by the encryption service *)

Module Crypto.
Import Js.

(** [CryptoKeyPair]. *)
Record CryptoKeyPair (Pub Priv : Type) : Type := {
  publicKey : Pub;
  privateKey : Priv;
}.
Arguments publicKey {Pub Priv} _.
Arguments privateKey {Pub Priv} _.

(** The bytes that the random generator of the browser will deliver. *)
Definition Entropy : Type := nat -> byte.

(** The operations of [crypto.subtle] that the sources call, each for the
    algorithm and the parameters they are called with. *)
Class SubtleCrypto : Type := {
  (** ECDH P-256 keys ([CryptoKey] of type "public" and "private"). *)
  PublicKey : Type;
  PrivateKey : Type;
  (** [generateKey({name: "ECDH", namedCurve: "P-256"}, true, ...)],
      as a function of the entropy it consumes. *)
  generateKey : Entropy -> CryptoKeyPair PublicKey PrivateKey * Entropy;
  (** [exportKey("raw", publicKey)]. *)
  exportKey : PublicKey -> bytes;
  (** [importKey("raw", buffer, {name: "ECDH", namedCurve: "P-256"}, true, [])];
      [None] stands for the rejection of a buffer that is no curve point. *)
  importKey_ECDH : bytes -> option PublicKey;
  (** [deriveBits({name: "ECDH", public}, privateKey, length)]. *)
  deriveBits : PublicKey -> PrivateKey -> N -> bytes;
  (** [encrypt({name: "AES-GCM", iv}, key, data)]: ciphertext and tag. *)
  AES_GCM_encrypt : bytes -> bytes -> bytes -> bytes;
  (** [decrypt({name: "AES-GCM", iv}, key, data)]; [None] stands for the
      rejection of data that fails authentication. *)
  AES_GCM_decrypt : bytes -> bytes -> bytes -> option bytes;
  (** [digest("SHA-256", data)]. *)
  digest_SHA256 : bytes -> bytes;
}.

(** The laws of the primitives that the protocol relies on. *)
Class SubtleCryptoLaws (sc : SubtleCrypto) : Prop := {
  (** Diffie-Hellman: both sides of a key agreement derive the same bits. *)
  ecdh_agreement : forall (a b : Entropy) (len : N),
    deriveBits (publicKey (generateKey a).1) (privateKey (generateKey b).1) len
    = deriveBits (publicKey (generateKey b).1) (privateKey (generateKey a).1) len;
  (** [deriveBits] delivers the number of bits asked for. *)
  deriveBits_length : forall pub priv,
    length (deriveBits pub priv 256) = 32%nat;
  (** An exported public key can be imported again. *)
  importKey_exportKey : forall pub, importKey_ECDH (exportKey pub) = Some pub;
  (** AES-GCM decryption inverts encryption under the same key and IV. *)
  AES_GCM_decrypt_encrypt : forall key iv data,
    AES_GCM_decrypt key iv (AES_GCM_encrypt key iv data) = Some data;
}.

(** [importKey("raw", raw, {name: "AES-GCM"}, false, usages)]: the key is
    its raw bytes; a length other than 128, 192 or 256 bits is rejected. *)
Definition importKey_AES (raw : bytes) : Completion bytes :=
  if bool_decide (length raw = 16 \/ length raw = 24 \/ length raw = 32)%nat
  then Return raw else Throw DataError.

End Crypto.

(** ** utils/encryption: [EncryptionService] *)

Module Encryption.
Import Js Base64 Encoding Crypto.

Section Service.
Context {sc : SubtleCrypto}.

Record EncryptionService : Type := {
  keyPair : option (CryptoKeyPair PublicKey PrivateKey);
  peerPublicKeys : gmap string PublicKey;
}.

(** A browser tab: the one [EncryptionService.instance] and the
    entropy that its random generator has yet to deliver. *)
Record Tab : Type := {
  instance : EncryptionService;
  entropy : Entropy;
}.

(** The instance that [getInstance] creates on first use. *)
Definition new : EncryptionService :=
  {| keyPair := None; peerPublicKeys := ∅ |}.

Definition set_keyPair (kp : CryptoKeyPair PublicKey PrivateKey) (t : Tab) : Tab :=
  {| instance := {| keyPair := Some kp;
                    peerPublicKeys := peerPublicKeys (instance t) |};
     entropy := entropy t |}.

Definition set_peerPublicKey (userId : string) (publicKey : PublicKey) (t : Tab) : Tab :=
  {| instance := {| keyPair := keyPair (instance t);
                    peerPublicKeys := <[userId := publicKey]> (peerPublicKeys (instance t)) |};
     entropy := entropy t |}.

(** [crypto.subtle.generateKey] and [crypto.getRandomValues] consume
    entropy of the tab. *)
Definition subtle_generateKey : Eff Tab (CryptoKeyPair PublicKey PrivateKey) :=
  fun t =>
    let '(kp, e) := generateKey (entropy t) in
    (Return kp, {| instance := instance t; entropy := e |}).

Definition getRandomValues (n : nat) : Eff Tab bytes :=
  fun t =>
    (Return (entropy t <$> seq 0 n),
     {| instance := instance t; entropy := fun i => entropy t (n + i)%nat |}).

Definition arrayBufferToBase64 (buffer : bytes) : Completion jsstring :=
  let binary := Byte.to_N <$> buffer in
  btoa binary.

Definition base64ToArrayBuffer (base64 : jsstring) : Completion bytes :=
  atob base64 ≫= fun binaryString : jsstring =>
  mret (byte_of_N <$> binaryString).

Definition generateKeyPair : Eff Tab unit :=
  kp ← subtle_generateKey;
  modify (set_keyPair kp).

Definition getPublicKeyAsString : Eff Tab jsstring :=
  kp ← gets (fun t => keyPair (instance t));
  (match kp with
   | None => generateKeyPair
   | Some _ => mret ()
   end);;
  kp ← gets (fun t => keyPair (instance t));
  kp ← lift (nonnull kp);
  let publicKeyBuffer := exportKey (publicKey kp) in
  lift (arrayBufferToBase64 publicKeyBuffer).

Definition addPeerPublicKey (userId : string) (publicKeyString : jsstring)
    : Eff Tab unit :=
  publicKeyBuffer ← lift (base64ToArrayBuffer publicKeyString);
  match importKey_ECDH publicKeyBuffer with
  | None => throw DataError
  | Some publicKey => modify (set_peerPublicKey userId publicKey)
  end.

Definition no_public_key (userId : string) : JsError :=
  Error ("No public key found for user " +:+ userId).

Definition encryptMessage (message : jsstring) (recipientId : string)
    : Eff Tab jsstring :=
  recipientPublicKey ← gets (fun t => peerPublicKeys (instance t) !! recipientId);
  match recipientPublicKey with
  | None => throw (no_public_key recipientId)
  | Some recipientPublicKey =>
      kp ← gets (fun t => keyPair (instance t));
      kp ← lift (nonnull kp);
      let sharedSecret := deriveBits recipientPublicKey (privateKey kp) 256 in
      encryptionKey ← lift (importKey_AES sharedSecret);
      iv ← getRandomValues 12;
      let messageBuffer := TextEncoder_encode message in
      let encryptedBuffer := AES_GCM_encrypt encryptionKey iv messageBuffer in
      let result := iv ++ encryptedBuffer in
      lift (arrayBufferToBase64 result)
  end.

Definition decryptMessage (encryptedMessage : jsstring) (senderId : string)
    : Eff Tab jsstring :=
  senderPublicKey ← gets (fun t => peerPublicKeys (instance t) !! senderId);
  match senderPublicKey with
  | None => throw (no_public_key senderId)
  | Some senderPublicKey =>
      kp ← gets (fun t => keyPair (instance t));
      kp ← lift (nonnull kp);
      let sharedSecret := deriveBits senderPublicKey (privateKey kp) 256 in
      decryptionKey ← lift (importKey_AES sharedSecret);
      encryptedBuffer ← lift (base64ToArrayBuffer encryptedMessage);
      let iv := take 12 encryptedBuffer in
      let data := drop 12 encryptedBuffer in
      match AES_GCM_decrypt decryptionKey iv data with
      | None => throw OperationError
      | Some decryptedBuffer => mret (TextDecoder_decode decryptedBuffer)
      end
  end.

End Service.

End Encryption.

(** ** The wire vocabulary: event names and payloads *)

Module Wire.
Import Js.

Module MediaData.
Record t : Type := { encryptedData : jsstring; type : string; hash : jsstring }.
End MediaData.

(** Payloads that a client emits to the server. *)
Module SendMessage.
Record t : Type := {
  id : string; roomId : string; encryptedMessage : jsstring; sender : string;
  timestamp : string; replyTo : option string; media : option MediaData.t;
}.
End SendMessage.

Module EditMessage.
Record t : Type := {
  id : string; roomId : string; encryptedMessage : jsstring; editedAt : string;
}.
End EditMessage.

Module DeleteMessage.
(** The client sends its [selectedRoom], which may be [null]. *)
Record t : Type := { id : string; roomId : option string }.
End DeleteMessage.

Module SendReaction.
(** [userId] is no declared property of this payload; it stands for
    the identity that the object sent by a client may carry all the
    same, which the server is free to read or to ignore. *)
Record t : Type := {
  messageId : string; roomId : string; emoji : string; remove : option bool;
  userId : option string;
}.
End SendReaction.

Module Read.
Record t : Type := { messageId : string; userId : string; roomId : string }.
End Read.

Module Typing.
Record t : Type := { userId : string; roomId : string }.
End Typing.

Module SendKeys.
Record t : Type := { userId : string; publicKey : jsstring; recipientId : string }.
End SendKeys.

Module ClientEvent.
Inductive t : Type :=
| join_room (roomId userId : string)
| send_message (data : SendMessage.t)
| edit_message (data : EditMessage.t)
| delete_message (data : DeleteMessage.t)
| message_reaction (data : SendReaction.t)
| message_read (data : Read.t)
| user_typing (data : Typing.t)
| exchange_keys (data : SendKeys.t).
End ClientEvent.

(** Payloads that the server emits to clients. *)
Module ReceiveMessage.
Record t : Type := {
  id : string; encryptedMessage : jsstring; sender : string; timestamp : string;
  replyTo : option string; media : option MediaData.t;
}.
End ReceiveMessage.

Module MessageEdit.
Record t : Type := {
  id : string; encryptedMessage : jsstring; sender : string; editedAt : string;
}.
End MessageEdit.

Module MessageDelete.
Record t : Type := { id : string; sender : string }.
End MessageDelete.

Module MessageReaction.
Record t : Type := {
  messageId : string; userId : string; emoji : string; remove : option bool;
}.
End MessageReaction.

Module MessageRead.
Record t : Type := { messageId : string; userId : string }.
End MessageRead.

Module Keys.
Record t : Type := { userId : string; publicKey : jsstring }.
End Keys.

Module ServerEvent.
Inductive t : Type :=
| user_connected (userId : string)
| receive_message (data : ReceiveMessage.t)
| message_edit (data : MessageEdit.t)
| message_delete (data : MessageDelete.t)
| message_reaction (data : MessageReaction.t)
| message_read (data : MessageRead.t)
| user_typing (data : Typing.t)
| exchange_keys (data : Keys.t).
End ServerEvent.

End Wire.

(** ** lib/socket-server: [SocketService] over Socket.IO rooms *)

Module SocketService.
Import Wire.

(** The rooms of the Socket.IO adapter: for each room, the ids of the
    sockets that joined it. *)
Abbreviation Rooms := (gmap string (gset string)).

Definition members (rooms : Rooms) (room : string) : gset string :=
  default ∅ (rooms !! room).

(** [socket.join(room)]. *)
Definition join (socket_id room : string) (rooms : Rooms) : Rooms :=
  <[room := {[socket_id]} ∪ members rooms room]> rooms.

(** An event on its way to one socket. *)
Abbreviation Delivery := (string * ServerEvent.t)%type.

(** [socket.to(room).emit(event)]: every socket of the room but the
    emitting one receives the event. *)
Definition to_emit (socket_id room : string) (event : ServerEvent.t)
    (rooms : Rooms) : list Delivery :=
  (fun recipient => (recipient, event)) <$> elements (members rooms room ∖ {[socket_id]}).

(** [socket.to(null)]: no socket is in such a room. *)
Definition to_emit_opt (socket_id : string) (room : option string)
    (event : ServerEvent.t) (rooms : Rooms) : list Delivery :=
  match room with
  | Some room => to_emit socket_id room event rooms
  | None => []
  end.

(** A new connection: Socket.IO puts the socket in the room of its id. *)
Definition connection (socket_id : string) (rooms : Rooms) : Rooms :=
  join socket_id socket_id rooms.

(** A disconnected socket has left every room. *)
Definition disconnect (socket_id : string) (rooms : Rooms) : Rooms :=
  (fun sockets => sockets ∖ {[socket_id]}) <$> rooms.

(** The handlers that [initIO] registers on a connected socket. *)
Definition on (socket_id : string) (event : ClientEvent.t) (rooms : Rooms)
    : Rooms * list Delivery :=
  match event with
  | ClientEvent.join_room roomId userId =>
      let rooms := join socket_id roomId rooms in
      (rooms, to_emit socket_id roomId (ServerEvent.user_connected userId) rooms)
  | ClientEvent.send_message data =>
      (rooms,
       to_emit socket_id (SendMessage.roomId data)
         (ServerEvent.receive_message
            {| ReceiveMessage.id := SendMessage.id data;
               ReceiveMessage.encryptedMessage := SendMessage.encryptedMessage data;
               ReceiveMessage.sender := SendMessage.sender data;
               ReceiveMessage.timestamp := SendMessage.timestamp data;
               ReceiveMessage.replyTo := SendMessage.replyTo data;
               ReceiveMessage.media := SendMessage.media data |})
         rooms)
  | ClientEvent.edit_message data =>
      (rooms,
       to_emit socket_id (EditMessage.roomId data)
         (ServerEvent.message_edit
            {| MessageEdit.id := EditMessage.id data;
               MessageEdit.encryptedMessage := EditMessage.encryptedMessage data;
               MessageEdit.sender := socket_id;
               MessageEdit.editedAt := EditMessage.editedAt data |})
         rooms)
  | ClientEvent.delete_message data =>
      (rooms,
       to_emit_opt socket_id (DeleteMessage.roomId data)
         (ServerEvent.message_delete
            {| MessageDelete.id := DeleteMessage.id data;
               MessageDelete.sender := socket_id |})
         rooms)
  | ClientEvent.message_reaction data =>
      (rooms,
       to_emit socket_id (SendReaction.roomId data)
         (ServerEvent.message_reaction
            {| MessageReaction.messageId := SendReaction.messageId data;
               MessageReaction.userId := socket_id;
               MessageReaction.emoji := SendReaction.emoji data;
               MessageReaction.remove := SendReaction.remove data |})
         rooms)
  | ClientEvent.message_read data =>
      (rooms,
       to_emit socket_id (Read.roomId data)
         (ServerEvent.message_read
            {| MessageRead.messageId := Read.messageId data;
               MessageRead.userId := Read.userId data |})
         rooms)
  | ClientEvent.user_typing data =>
      (rooms, to_emit socket_id (Typing.roomId data) (ServerEvent.user_typing data) rooms)
  | ClientEvent.exchange_keys data =>
      (rooms,
       to_emit socket_id (SendKeys.recipientId data)
         (ServerEvent.exchange_keys
            {| Keys.userId := SendKeys.userId data;
               Keys.publicKey := SendKeys.publicKey data |})
         rooms)
  end.

End SocketService.

(** ** utils/media-encryption: [MediaEncryptionService] *)

Module MediaEncryption.
Import Js Base64 Encoding Crypto.
Local Open Scope N_scope.

(** The code units of a string of ASCII characters. *)
Fixpoint js (s : string) : jsstring :=
  match s with
  | EmptyString => []
  | String c rest => Ascii.N_of_ascii c :: js rest
  end.

Definition encryptMedia (mediaDataUrl : jsstring) (recipientId : string)
    : Completion jsstring :=
  btoa (mediaDataUrl ++ js recipientId).

Definition decryptMedia (encryptedMedia : jsstring) (senderId : string)
    : Completion jsstring :=
  match atob encryptedMedia with
  | Return decodedData =>
      Return (take (length decodedData - length (js senderId)) decodedData)
  | Throw _ => Throw (Error "Failed to decrypt media")
  end.

(** [n.toString(16)] for a digit. *)
Definition hex_digit (n : N) : N := if n <? 10 then 48 + n else 87 + n.

(** [b.toString(16).padStart(2, "0")]. *)
Definition hex_byte (b : byte) : jsstring :=
  [hex_digit (Byte.to_N b / 16); hex_digit (Byte.to_N b mod 16)].

Definition calculateHash `{SubtleCrypto} (data : jsstring) : jsstring :=
  let dataBuffer := TextEncoder_encode data in
  let hashBuffer := digest_SHA256 dataBuffer in
  hashBuffer ≫= hex_byte.


End MediaEncryption.

(** ** components/chat and contexts/socket-context: the client *)

Module Chat.
Import Js Wire Crypto Encryption MediaEncryption.

Module Reaction.
Record t : Type := { emoji : string; userId : string }.
#[global] Instance eq_dec : EqDecision t.
Proof. solve_decision. Defined.
End Reaction.

Module Media.
Record t : Type := { type : string; data : jsstring; hash : jsstring; verified : bool }.
End Media.

Module Message.
Record t : Type := {
  id : string;
  text : jsstring;
  sender : string;
  timestamp : string;
  isDecrypted : bool;
  editedAt : option string;
  reactions : option (list Reaction.t);
  media : option Media.t;
  replyTo : option string;
  isDeleted : option bool;
  readBy : option (list string);
}.

(** [{ ...msg, text, editedAt }] *)
Definition with_text (text : jsstring) (editedAt : string) (msg : t) : t :=
  {| id := id msg; text := text; sender := sender msg; timestamp := timestamp msg;
     isDecrypted := isDecrypted msg; editedAt := Some editedAt;
     reactions := reactions msg; media := media msg; replyTo := replyTo msg;
     isDeleted := isDeleted msg; readBy := readBy msg |}.

(** [{ ...msg, isDeleted: true }] *)
Definition with_isDeleted (msg : t) : t :=
  {| id := id msg; text := text msg; sender := sender msg; timestamp := timestamp msg;
     isDecrypted := isDecrypted msg; editedAt := editedAt msg;
     reactions := reactions msg; media := media msg; replyTo := replyTo msg;
     isDeleted := Some true; readBy := readBy msg |}.

(** [{ ...msg, reactions }] *)
Definition with_reactions (reactions : list Reaction.t) (msg : t) : t :=
  {| id := id msg; text := text msg; sender := sender msg; timestamp := timestamp msg;
     isDecrypted := isDecrypted msg; editedAt := editedAt msg;
     reactions := Some reactions; media := media msg; replyTo := replyTo msg;
     isDeleted := isDeleted msg; readBy := readBy msg |}.

(** [{ ...msg, readBy }] *)
Definition with_readBy (readBy : list string) (msg : t) : t :=
  {| id := id msg; text := text msg; sender := sender msg; timestamp := timestamp msg;
     isDecrypted := isDecrypted msg; editedAt := editedAt msg;
     reactions := reactions msg; media := media msg; replyTo := replyTo msg;
     isDeleted := isDeleted msg; readBy := Some readBy |}.
End Message.

Module TypingUser.
Record t : Type := { userId : string; timestamp : Z }.
End TypingUser.

(** [s.trim()] is empty: every code unit is white space or a line
    terminator. *)
Definition is_white_space (c : N) : bool :=
  bool_decide (c ∈ [0x9; 0xA; 0xB; 0xC; 0xD; 0x20; 0xA0; 0x1680; 0x2028; 0x2029;
                    0x202F; 0x205F; 0x3000; 0xFEFF]%N)
  || ((0x2000 <=? c)%N && (c <=? 0x200A)%N).

Definition trim_is_empty (s : jsstring) : bool := forallb is_white_space s.

Section Component.
Context {sc : SubtleCrypto}.

(** The state of the component: what [useSocket] provides, the React
    state that the handlers read or set, the tab with the encryption
    service, and the events emitted on the socket so far. *)
Record Chat : Type := {
  tab : Tab;
  socket : bool;
  userId : option string;
  selectedRoom : option string;
  recipientId : string;
  messages : list Message.t;
  typingUsers : list TypingUser.t;
  editingMessageId : option string;
  editText : jsstring;
  emitted : list ClientEvent.t;
}.

Definition set_tab (t : Tab) (c : Chat) : Chat :=
  {| tab := t; socket := socket c; userId := userId c;
     selectedRoom := selectedRoom c; recipientId := recipientId c;
     messages := messages c; typingUsers := typingUsers c;
     editingMessageId := editingMessageId c; editText := editText c;
     emitted := emitted c |}.

Definition setMessages (f : list Message.t -> list Message.t) : Eff Chat unit :=
  modify (fun c =>
    {| tab := tab c; socket := socket c; userId := userId c;
       selectedRoom := selectedRoom c; recipientId := recipientId c;
       messages := f (messages c); typingUsers := typingUsers c;
       editingMessageId := editingMessageId c; editText := editText c;
       emitted := emitted c |}).

Definition setTypingUsers (f : list TypingUser.t -> list TypingUser.t) : Eff Chat unit :=
  modify (fun c =>
    {| tab := tab c; socket := socket c; userId := userId c;
       selectedRoom := selectedRoom c; recipientId := recipientId c;
       messages := messages c; typingUsers := f (typingUsers c);
       editingMessageId := editingMessageId c; editText := editText c;
       emitted := emitted c |}).

Definition setEditing (messageId : option string) (text : jsstring) : Eff Chat unit :=
  modify (fun c =>
    {| tab := tab c; socket := socket c; userId := userId c;
       selectedRoom := selectedRoom c; recipientId := recipientId c;
       messages := messages c; typingUsers := typingUsers c;
       editingMessageId := messageId; editText := text;
       emitted := emitted c |}).

(** [socket.emit(event)] *)
Definition emit (event : ClientEvent.t) : Eff Chat unit :=
  modify (fun c =>
    {| tab := tab c; socket := socket c; userId := userId c;
       selectedRoom := selectedRoom c; recipientId := recipientId c;
       messages := messages c; typingUsers := typingUsers c;
       editingMessageId := editingMessageId c; editText := editText c;
       emitted := emitted c ++ [event] |}).

(** [socket?.emit(event)] *)
Definition emit_if_socket (event : ClientEvent.t) : Eff Chat unit :=
  socket ← gets socket;
  if socket : bool then emit event else mret ().

(** A call of the encryption service of the tab. *)
Definition encryptionService {A} (call : Eff Tab A) : Eff Chat A :=
  zoom tab set_tab call.

(** *** Handlers of the events that the server relays *)

Definition undecryptable (data : ReceiveMessage.t) : Message.t :=
  {| Message.id := ReceiveMessage.id data;
     Message.text := js "[Encrypted message - unable to decrypt]";
     Message.sender := ReceiveMessage.sender data;
     Message.timestamp := ReceiveMessage.timestamp data;
     Message.isDecrypted := false;
     Message.editedAt := None;
     Message.reactions := Some [];
     Message.media := None;
     Message.replyTo := None;
     Message.isDeleted := None;
     Message.readBy := Some [] |}.

Definition handleReceiveMessage (data : ReceiveMessage.t) : Eff Chat unit :=
  try_catch
    (decryptedMessage ← encryptionService
       (decryptMessage (ReceiveMessage.encryptedMessage data) (ReceiveMessage.sender data));
     mediaData ← match ReceiveMessage.media data with
       | None => mret None
       | Some media =>
           decryptedMedia ← lift (decryptMedia (MediaData.encryptedData media)
                                    (ReceiveMessage.sender data));
           let calculatedHash := calculateHash decryptedMedia in
           let mediaVerified := bool_decide (calculatedHash = MediaData.hash media) in
           mret (Some {| Media.type := MediaData.type media;
                         Media.data := decryptedMedia;
                         Media.hash := MediaData.hash media;
                         Media.verified := mediaVerified |})
       end;
     let newMessage :=
       {| Message.id := ReceiveMessage.id data;
          Message.text := decryptedMessage;
          Message.sender := ReceiveMessage.sender data;
          Message.timestamp := ReceiveMessage.timestamp data;
          Message.isDecrypted := true;
          Message.editedAt := None;
          Message.reactions := Some [];
          Message.media := mediaData;
          Message.replyTo := ReceiveMessage.replyTo data;
          Message.isDeleted := None;
          Message.readBy := Some [] |} in
     setMessages (fun prev => prev ++ [newMessage]);;
     socket ← gets socket;
     userId ← gets userId;
     selectedRoom ← gets selectedRoom;
     match userId, selectedRoom with
     | Some userId, Some selectedRoom =>
         if socket && truthy userId && truthy selectedRoom then
           emit (ClientEvent.message_read
                   {| Read.messageId := ReceiveMessage.id data;
                      Read.userId := userId;
                      Read.roomId := selectedRoom |})
         else mret ()
     | _, _ => mret ()
     end)
    (fun error => setMessages (fun prev => prev ++ [undecryptable data])).

Definition handleMessageEdit (data : MessageEdit.t) : Eff Chat unit :=
  try_catch
    (decryptedMessage ← encryptionService
       (decryptMessage (MessageEdit.encryptedMessage data) (MessageEdit.sender data));
     setMessages (fun prev =>
       (fun msg =>
          if String.eqb (Message.id msg) (MessageEdit.id data)
          then Message.with_text decryptedMessage (MessageEdit.editedAt data) msg
          else msg) <$> prev))
    (fun error => mret ()).

Definition handleMessageDelete (data : MessageDelete.t) : Eff Chat unit :=
  setMessages (fun prev =>
    (fun msg =>
       if String.eqb (Message.id msg) (MessageDelete.id data)
       then Message.with_isDeleted msg else msg) <$> prev).

(** [r.userId === userId && r.emoji === emoji] *)
Definition same_reaction (userId emoji : string) (r : Reaction.t) : bool :=
  String.eqb (Reaction.userId r) userId && String.eqb (Reaction.emoji r) emoji.

Definition handleMessageReaction (data : MessageReaction.t) : Eff Chat unit :=
  setMessages (fun prev =>
    (fun msg =>
       if String.eqb (Message.id msg) (MessageReaction.messageId data) then
         let updatedReactions := default [] (Message.reactions msg) in
         let updatedReactions :=
           if default false (MessageReaction.remove data) then
             List.filter
               (fun r => negb (same_reaction (MessageReaction.userId data)
                                 (MessageReaction.emoji data) r))
               updatedReactions
           else
             let exists_ :=
               existsb (same_reaction (MessageReaction.userId data)
                          (MessageReaction.emoji data)) updatedReactions in
             if negb exists_ then
               updatedReactions ++
                 [{| Reaction.userId := MessageReaction.userId data;
                     Reaction.emoji := MessageReaction.emoji data |}]
             else updatedReactions in
         Message.with_reactions updatedReactions msg
       else msg) <$> prev).

Definition handleMessageRead (data : MessageRead.t) : Eff Chat unit :=
  userId ← gets userId;
  if bool_decide (Some (MessageRead.userId data) = userId) then mret ()
  else
    setMessages (fun prev =>
      (fun msg =>
         if String.eqb (Message.id msg) (MessageRead.messageId data) then
           let readBy := default [] (Message.readBy msg) in
           if negb (bool_decide (MessageRead.userId data ∈ readBy))
           then Message.with_readBy (readBy ++ [MessageRead.userId data]) msg
           else msg
         else msg) <$> prev).

(** [now] is the value of [Date.now()] when the handler runs. *)
Definition handleUserTyping (data : Typing.t) (now : Z) : Eff Chat unit :=
  userId ← gets userId;
  selectedRoom ← gets selectedRoom;
  if bool_decide (Some (Typing.userId data) = userId)
     || negb (bool_decide (Some (Typing.roomId data) = selectedRoom))
  then mret ()
  else
    setTypingUsers (fun prev =>
      let filtered :=
        List.filter
          (fun u => negb (String.eqb (TypingUser.userId u) (Typing.userId data))) prev in
      filtered ++ [{| TypingUser.userId := Typing.userId data;
                      TypingUser.timestamp := now |}]).

Definition handleUserConnected (connectedUserId : string) : Eff Chat unit :=
  userId ← gets userId;
  match userId with
  | Some userId =>
      if truthy userId then
        myPublicKey ← encryptionService getPublicKeyAsString;
        emit (ClientEvent.exchange_keys
                {| SendKeys.userId := userId;
                   SendKeys.publicKey := myPublicKey;
                   SendKeys.recipientId := connectedUserId |})
      else mret ()
  | None => mret ()
  end.

Definition handleKeyExchange (data : Keys.t) : Eff Chat unit :=
  encryptionService (addPeerPublicKey (Keys.userId data) (Keys.publicKey data));;
  userId ← gets userId;
  match userId with
  | Some userId =>
      if truthy userId && negb (String.eqb (Keys.userId data) userId) then
        myPublicKey ← encryptionService getPublicKeyAsString;
        emit (ClientEvent.exchange_keys
                {| SendKeys.userId := userId;
                   SendKeys.publicKey := myPublicKey;
                   SendKeys.recipientId := Keys.userId data |})
      else mret ()
  | None => mret ()
  end.

(** The callback of the one-second interval; [now] is [Date.now()]. *)
Definition sweep (now : Z) : Eff Chat unit :=
  setTypingUsers (fun prev =>
    List.filter (fun user => (now - TypingUser.timestamp user <? 3000)%Z) prev).

(** The listeners that the component registers on its socket. *)
Definition on (event : ServerEvent.t) (now : Z) : Eff Chat unit :=
  match event with
  | ServerEvent.receive_message data => handleReceiveMessage data
  | ServerEvent.message_edit data => handleMessageEdit data
  | ServerEvent.message_delete data => handleMessageDelete data
  | ServerEvent.message_reaction data => handleMessageReaction data
  | ServerEvent.message_read data => handleMessageRead data
  | ServerEvent.user_typing data => handleUserTyping data now
  | ServerEvent.user_connected connectedUserId => handleUserConnected connectedUserId
  | ServerEvent.exchange_keys data => handleKeyExchange data
  end.

(** *** Actions of the local user *)

Definition handleEditMessage (messageId : string) (text : jsstring) : Eff Chat unit :=
  setEditing (Some messageId) text.

Definition cancelEdit : Eff Chat unit := setEditing None [].

(** [editedAt] is the value of [new Date().toISOString()]. *)
Definition saveEditedMessage (editedAt : string) : Eff Chat unit :=
  editingMessageId ← gets editingMessageId;
  editText ← gets editText;
  selectedRoom ← gets selectedRoom;
  recipientId ← gets recipientId;
  match editingMessageId, selectedRoom with
  | Some editingMessageId, Some selectedRoom =>
      if negb (truthy editingMessageId) || trim_is_empty editText
         || negb (truthy selectedRoom) || negb (truthy recipientId)
      then cancelEdit
      else
        try_catch
          (encryptedMessage ← encryptionService (encryptMessage editText recipientId);
           setMessages (fun prev =>
             (fun msg =>
                if String.eqb (Message.id msg) editingMessageId
                then Message.with_text editText editedAt msg else msg) <$> prev);;
           emit_if_socket
             (ClientEvent.edit_message
                {| EditMessage.id := editingMessageId;
                   EditMessage.roomId := selectedRoom;
                   EditMessage.encryptedMessage := encryptedMessage;
                   EditMessage.editedAt := editedAt |});;
           cancelEdit)
          (fun error => mret ())
  | _, _ => cancelEdit
  end.

Definition handleDeleteMessage (messageId : string) : Eff Chat unit :=
  setMessages (fun prev =>
    (fun msg =>
       if String.eqb (Message.id msg) messageId
       then Message.with_isDeleted msg else msg) <$> prev);;
  selectedRoom ← gets selectedRoom;
  emit_if_socket
    (ClientEvent.delete_message
       {| DeleteMessage.id := messageId; DeleteMessage.roomId := selectedRoom |}).

(** [r.userId === userId && r.emoji === emoji] for the nullable
    [userId] of the local user. *)
Definition own_reaction (userId : option string) (emoji : string) (r : Reaction.t) : bool :=
  bool_decide (Some (Reaction.userId r) = userId) && String.eqb (Reaction.emoji r) emoji.

Definition handleReaction (messageId emoji : string) (remove : option bool)
    : Eff Chat unit :=
  selectedRoom ← gets selectedRoom;
  userId ← gets userId;
  match selectedRoom with
  | None => mret ()
  | Some selectedRoom =>
      if negb (truthy selectedRoom) then mret ()
      else
        setMessages (fun prev =>
          (fun msg =>
             if String.eqb (Message.id msg) messageId then
               let updatedReactions := default [] (Message.reactions msg) in
               let updatedReactions :=
                 if default false remove then
                   List.filter (fun r => negb (own_reaction userId emoji r))
                     updatedReactions
                 else
                   let existingReaction :=
                     List.find (own_reaction userId emoji) updatedReactions in
                   if negb (bool_decide (is_Some existingReaction)) then
                     updatedReactions ++
                       [{| Reaction.userId := or_else userId "unknown";
                           Reaction.emoji := emoji |}]
                   else updatedReactions in
               Message.with_reactions updatedReactions msg
             else msg) <$> prev);;
        emit_if_socket
          (ClientEvent.message_reaction
             {| SendReaction.messageId := messageId;
                SendReaction.roomId := selectedRoom;
                SendReaction.emoji := emoji;
                SendReaction.remove := remove;
                SendReaction.userId := None |})
  end.

(** [sendMessage] of the socket context; [messageId] and [timestamp]
    are the values drawn from the clock and [Math.random]. *)
Definition sendMessage (roomId : string) (message : jsstring) (recipientId : string)
    (media : option MediaData.t) (replyTo : option string)
    (messageId timestamp : string) : Eff Chat unit :=
  socket ← gets socket;
  userId ← gets userId;
  match userId with
  | Some userId =>
      if socket && truthy userId then
        try_catch
          (encryptedMessage ← encryptionService (encryptMessage message recipientId);
           emit (ClientEvent.send_message
                   {| SendMessage.id := messageId;
                      SendMessage.roomId := roomId;
                      SendMessage.encryptedMessage := encryptedMessage;
                      SendMessage.sender := userId;
                      SendMessage.timestamp := timestamp;
                      SendMessage.replyTo :=
                        if truthy_opt replyTo then replyTo else None;
                      SendMessage.media := media |}))
          (fun error => mret ())
      else mret ()
  | None => mret ()
  end.

(** [joinRoom] of the socket context. *)
Definition joinRoom (roomId : string) : Eff Chat unit :=
  socket ← gets socket;
  userId ← gets userId;
  match userId with
  | Some userId =>
      if socket && truthy userId
      then emit (ClientEvent.join_room roomId userId)
      else mret ()
  | None => mret ()
  end.

(** *** The typing indicator over time

    Time is counted in milliseconds.  The component mounted at time
    [mounted]; its interval fires every 1000 ms after that.
    [arrivals t] are the [user-typing] events that reach the socket at
    time [t], in their order. *)

Definition interval_fires (mounted t : Z) : bool :=
  ((mounted <? t) && ((t - mounted) mod 1000 =? 0))%Z.

(** The state left by a computation, whatever its completion. *)
Definition after {A} (computation : Eff Chat A) (c : Chat) : Chat :=
  (computation c).2.

(** Everything that happens at millisecond [t]. *)
Definition millisecond (arrivals : Z -> list Typing.t) (mounted t : Z) (c : Chat) : Chat :=
  let c := foldl (fun c data => after (handleUserTyping data t) c) c (arrivals t) in
  if interval_fires mounted t then after (sweep t) c else c.

(** The [n] milliseconds that follow time [t]. *)
Fixpoint elapse (arrivals : Z -> list Typing.t) (mounted t : Z) (n : nat) (c : Chat)
    : Chat :=
  match n with
  | O => c
  | S n => elapse arrivals mounted (t + 1) n (millisecond arrivals mounted (t + 1) c)
  end.

(** The state at time [t] of a component that mounted in state [c]. *)
Definition at_time (arrivals : Z -> list Typing.t) (mounted : Z) (c : Chat) (t : Z)
    : Chat :=
  elapse arrivals mounted mounted (Z.to_nat (t - mounted)) c.

End Component.

End Chat.

(** ** Clients and server together *)

Module Network.
Import Js Wire Crypto Encryption.

Section Network.
Context {sc : SubtleCrypto}.

(** The rooms of the server, the connected clients by socket id, the
    events on their way to a client (first in, first out), and the
    events that the server has received, with the socket they came
    from. *)
Record Network : Type := {
  rooms : SocketService.Rooms;
  clients : gmap string Chat.Chat;
  inflight : list SocketService.Delivery;
  received : list (string * ClientEvent.t);
}.

(** The server handles the events of one socket in their order. *)
Definition serve (socket_id : string) (events : list ClientEvent.t)
    (rooms : SocketService.Rooms) : SocketService.Rooms * list SocketService.Delivery :=
  foldl (fun '(rooms, deliveries) event =>
           let '(rooms, more) := SocketService.on socket_id event rooms in
           (rooms, deliveries ++ more))
        (rooms, []) events.

(** The events that a client has emitted leave it. *)
Definition flushed (c : Chat.Chat) : Chat.Chat :=
  {| Chat.tab := Chat.tab c; Chat.socket := Chat.socket c; Chat.userId := Chat.userId c;
     Chat.selectedRoom := Chat.selectedRoom c; Chat.recipientId := Chat.recipientId c;
     Chat.messages := Chat.messages c; Chat.typingUsers := Chat.typingUsers c;
     Chat.editingMessageId := Chat.editingMessageId c; Chat.editText := Chat.editText c;
     Chat.emitted := [] |}.

(** One delivery: the first event in flight reaches its client, the
    listener of the client runs, and the server relays what the
    listener emitted. *)
Definition deliver (now : Z) (net : Network) : Network :=
  match inflight net with
  | [] => net
  | (recipient, event) :: rest =>
      match clients net !! recipient with
      | None =>
          {| rooms := rooms net; clients := clients net; inflight := rest;
             received := received net |}
      | Some c =>
          let c := Chat.after (Chat.on event now) c in
          let '(rooms', deliveries) := serve recipient (Chat.emitted c) (rooms net) in
          {| rooms := rooms';
             clients := <[recipient := flushed c]> (clients net);
             inflight := rest ++ deliveries;
             received := received net ++ ((fun e => (recipient, e)) <$> Chat.emitted c) |}
      end
  end.

(** [n] deliveries, one per millisecond from [now] on. *)
Fixpoint run (n : nat) (now : Z) (net : Network) : Network :=
  match n with
  | O => net
  | S n => run n (now + 1) (deliver now net)
  end.

End Network.

End Network.

(** ** lib/rate-limit: the fixed-window limiter *)

Module RateLimit.
Import Js.
Local Open Scope Z_scope.

(** The headers of a request that the limiter reads; an absent header
    reads as [null]. *)
Record NextRequest : Type := {
  x_forwarded_for : option string;
  x_real_ip : option string;
}.

(** What the module-level map [requests] holds for an address. *)
Module Entry.
Record t : Type := { count : Z; reset : Z }.
End Entry.

Module RateLimitResult.
Record t : Type := { success : bool; limit : Z; remaining : Z; reset : Z }.
End RateLimitResult.

Abbreviation Requests := (gmap string Entry.t).

(** [headers.get('x-forwarded-for') || headers.get('x-real-ip') || 'anonymous'] *)
Definition ip_of (request : NextRequest) : string :=
  or_else (x_forwarded_for request) (or_else (x_real_ip request) "anonymous").

(** The numbers of this module are integers: the value of [Date.now()],
    the counts, and [windowMs] and [maxRequests] as a number of
    milliseconds and a number of requests.  JavaScript holds them as
    binary64 values: a significand of 53 bits and an exponent.  A sum or
    a difference is the nearest such value, and of two nearest ones the
    one with the even significand.  None of the sums below leaves the
    range of binary64: a time value and a count are below [2 ^ 53]. *)
Definition to_binary64 (z : Z) : Z :=
  let magnitude := Z.abs z in
  let exponent := Z.log2 magnitude - 52 in
  if exponent <=? 0 then z
  else
    let quantum := 2 ^ exponent in
    let significand := magnitude / quantum in
    let rest := magnitude mod quantum in
    let up := (quantum <? 2 * rest) || ((quantum =? 2 * rest) && Z.odd significand) in
    Z.sgn z * ((if up then significand + 1 else significand) * quantum).

(** [a + b] and [a - b] *)
Definition plus (a b : Z) : Z := to_binary64 (a + b).
Definition minus (a b : Z) : Z := to_binary64 (a - b).

(** The function that [createRateLimitMiddleware windowMs maxRequests]
    returns; [now] is the value of [Date.now()].  [rateLimit] runs the
    same statements on the two numbers that it parses from the
    environment. *)
Definition createRateLimitMiddleware (windowMs maxRequests : Z)
    (request : NextRequest) (now : Z) (requests : Requests)
    : RateLimitResult.t * Requests :=
  let ip := ip_of request in
  let windowStart := minus now windowMs in
  let requests := filter (fun entry => ~ (Entry.reset entry.2 < windowStart)) requests in
  let current := requests !! ip in
  match current with
  | None =>
      ({| RateLimitResult.success := true;
          RateLimitResult.limit := maxRequests;
          RateLimitResult.remaining := minus maxRequests 1;
          RateLimitResult.reset := plus now windowMs |},
       <[ip := {| Entry.count := 1; Entry.reset := plus now windowMs |}]> requests)
  | Some current =>
      if Entry.reset current <? now then
        ({| RateLimitResult.success := true;
            RateLimitResult.limit := maxRequests;
            RateLimitResult.remaining := minus maxRequests 1;
            RateLimitResult.reset := plus now windowMs |},
         <[ip := {| Entry.count := 1; Entry.reset := plus now windowMs |}]> requests)
      else if maxRequests <=? Entry.count current then
        ({| RateLimitResult.success := false;
            RateLimitResult.limit := maxRequests;
            RateLimitResult.remaining := 0;
            RateLimitResult.reset := Entry.reset current |},
         requests)
      else
        let current :=
          {| Entry.count := plus (Entry.count current) 1;
             Entry.reset := Entry.reset current |} in
        ({| RateLimitResult.success := true;
            RateLimitResult.limit := maxRequests;
            RateLimitResult.remaining := minus maxRequests (Entry.count current);
            RateLimitResult.reset := Entry.reset current |},
         <[ip := current]> requests)
  end.

(** The requests of a list, each with the time at which it arrives, in
    their order; the results come in the same order. *)
Fixpoint serve (windowMs maxRequests : Z) (arrivals : list (NextRequest * Z))
    (requests : Requests) : list RateLimitResult.t * Requests :=
  match arrivals with
  | [] => ([], requests)
  | (request, now) :: rest =>
      let '(result, requests) :=
        createRateLimitMiddleware windowMs maxRequests request now requests in
      let '(results, requests) := serve windowMs maxRequests rest requests in
      (result :: results, requests)
  end.

End RateLimit.

(** ** lib/api-utils: [rateLimit], the sliding-window limiter *)

Module ApiUtils.
Import Js.
Local Open Scope Z_scope.

(** What [rateLimit] reads of a request: the header [x-forwarded-for]
    (a single value) and [req.connection.remoteAddress]. *)
Record NextApiRequest : Type := {
  x_forwarded_for : option string;
  remoteAddress : option string;
}.

(** What [res.status(code).json({ error })] sends. *)
Record Response : Type := { status : Z; error : string }.

(** The module-level [rateLimitMap]: the times of the requests let
    through, by address. *)
Abbreviation RateLimitMap := (gmap string (list Z)).

(** [req.headers['x-forwarded-for'] || req.connection.remoteAddress || 'unknown'] *)
Definition ip_of (req : NextApiRequest) : string :=
  or_else (x_forwarded_for req) (or_else (remoteAddress req) "unknown").

(** [maxRequests] and [windowMs] are [None] where the caller leaves
    the argument out; [now] is the value of [Date.now()].  The result
    is the boolean returned, the response sent if any, and the map. *)
Definition rateLimit (req : NextApiRequest) (maxRequests windowMs : option Z) (now : Z)
    (rateLimitMap : RateLimitMap) : bool * option Response * RateLimitMap :=
  let maxRequests := default 100 maxRequests in
  let windowMs := default 900000 windowMs in
  let ip := ip_of req in
  let windowStart := now - windowMs in
  let requestTimes := default [] (rateLimitMap !! ip) in
  let recentRequests := filter (fun time => windowStart < time) requestTimes in
  if maxRequests <=? Z.of_nat (length recentRequests) then
    (false, Some {| status := 429; error := "Rate limit exceeded" |}, rateLimitMap)
  else
    let recentRequests := recentRequests ++ [now] in
    (true, None, <[ip := recentRequests]> rateLimitMap).

(** The requests of a list, each with the time at which it arrives, in
    their order, all with the same two arguments; the booleans
    returned come in the same order. *)
Fixpoint serve (maxRequests windowMs : option Z) (arrivals : list (NextApiRequest * Z))
    (rateLimitMap : RateLimitMap) : list bool * RateLimitMap :=
  match arrivals with
  | [] => ([], rateLimitMap)
  | (req, now) :: rest =>
      let '(allowed, _, rateLimitMap) := rateLimit req maxRequests windowMs now rateLimitMap in
      let '(results, rateLimitMap) := serve maxRequests windowMs rest rateLimitMap in
      (allowed :: results, rateLimitMap)
  end.

End ApiUtils.

(** ** components/chat: composing and sending a message *)

Module Composer.
Import Js Wire Crypto Encryption MediaEncryption Chat.

(** A file that the user chose: its MIME type, its size in bytes, and
    the data URL that [FileReader.readAsDataURL] makes of it. *)
Module File.
Record t : Type := { type : string; size : Z; dataUrl : jsstring }.
End File.

Section Composer.
Context {sc : SubtleCrypto}.

(** The component with the state of its input line. *)
Record Composer : Type := {
  chat : Chat;
  inputMessage : jsstring;
  mediaFile : option File.t;
  mediaPreview : option jsstring;
  mediaType : string;
  isUploading : bool;
  replyToMessageId : option string;
}.

Definition set_chat (c : Chat) (s : Composer) : Composer :=
  {| chat := c; inputMessage := inputMessage s; mediaFile := mediaFile s;
     mediaPreview := mediaPreview s; mediaType := mediaType s;
     isUploading := isUploading s; replyToMessageId := replyToMessageId s |}.

(** A statement on the part of the state that [Chat] holds. *)
Definition component {A} (call : Eff Chat A) : Eff Composer A :=
  zoom chat set_chat call.

Definition setIsUploading (value : bool) : Eff Composer unit :=
  modify (fun s =>
    {| chat := chat s; inputMessage := inputMessage s; mediaFile := mediaFile s;
       mediaPreview := mediaPreview s; mediaType := mediaType s;
       isUploading := value; replyToMessageId := replyToMessageId s |}).

Definition setMediaFile (value : option File.t) : Eff Composer unit :=
  modify (fun s =>
    {| chat := chat s; inputMessage := inputMessage s; mediaFile := value;
       mediaPreview := mediaPreview s; mediaType := mediaType s;
       isUploading := isUploading s; replyToMessageId := replyToMessageId s |}).

Definition setMediaPreview (value : option jsstring) : Eff Composer unit :=
  modify (fun s =>
    {| chat := chat s; inputMessage := inputMessage s; mediaFile := mediaFile s;
       mediaPreview := value; mediaType := mediaType s;
       isUploading := isUploading s; replyToMessageId := replyToMessageId s |}).

Definition setMediaType (value : string) : Eff Composer unit :=
  modify (fun s =>
    {| chat := chat s; inputMessage := inputMessage s; mediaFile := mediaFile s;
       mediaPreview := mediaPreview s; mediaType := value;
       isUploading := isUploading s; replyToMessageId := replyToMessageId s |}).

Definition setInputMessage (value : jsstring) : Eff Composer unit :=
  modify (fun s =>
    {| chat := chat s; inputMessage := value; mediaFile := mediaFile s;
       mediaPreview := mediaPreview s; mediaType := mediaType s;
       isUploading := isUploading s; replyToMessageId := replyToMessageId s |}).

Definition setReplyToMessageId (value : option string) : Eff Composer unit :=
  modify (fun s =>
    {| chat := chat s; inputMessage := inputMessage s; mediaFile := mediaFile s;
       mediaPreview := mediaPreview s; mediaType := mediaType s;
       isUploading := isUploading s; replyToMessageId := value |}).

(** The values that one call draws from the clock and from
    [Math.random]: the id and the time stamp of the local copy, and the
    id and the time stamp that [sendMessage] of the socket context makes
    for the wire. *)
Record Drawn : Type := {
  messageId : string;
  timestamp : string;
  wireMessageId : string;
  wireTimestamp : string;
}.

(** The copy of the message that the sender adds to its own list. *)
Definition localMessage (drawn : Drawn) (text : jsstring) (userId : option string)
    (media : option Media.t) (replyTo : option string) : Message.t :=
  {| Message.id := messageId drawn;
     Message.text := text;
     Message.sender := or_else userId "unknown";
     Message.timestamp := timestamp drawn;
     Message.isDecrypted := true;
     Message.editedAt := None;
     Message.reactions := Some [];
     Message.media := media;
     Message.replyTo := replyTo;
     Message.isDeleted := None;
     Message.readBy := Some [or_else userId "unknown"] |}.

Definition handleSendMessage (drawn : Drawn) : Eff Composer unit :=
  inputMessage ← gets inputMessage;
  mediaFile ← gets mediaFile;
  selectedRoom ← gets (fun s => selectedRoom (chat s));
  recipientId ← gets (fun s => recipientId (chat s));
  userId ← gets (fun s => userId (chat s));
  replyToMessageId ← gets replyToMessageId;
  if (trim_is_empty inputMessage && negb (bool_decide (is_Some mediaFile)))
     || negb (truthy_opt selectedRoom) || negb (truthy recipientId)
  then mret ()
  else
    match selectedRoom with
    | None => mret ()
    | Some selectedRoom =>
        (match mediaFile with
         | Some file =>
             setIsUploading true;;
             try_catch
               (let mediaDataUrl := File.dataUrl file in
                let hash := calculateHash mediaDataUrl in
                encryptedMedia ← lift (encryptMedia mediaDataUrl recipientId);
                component (setMessages (fun prev =>
                  prev ++ [localMessage drawn inputMessage userId
                             (Some {| Media.type := File.type file;
                                      Media.data := mediaDataUrl;
                                      Media.hash := hash;
                                      Media.verified := true |})
                             replyToMessageId]));;
                component (sendMessage selectedRoom inputMessage recipientId
                             (Some {| MediaData.encryptedData := encryptedMedia;
                                      MediaData.type := File.type file;
                                      MediaData.hash := hash |})
                             replyToMessageId
                             (wireMessageId drawn) (wireTimestamp drawn)))
               (fun error => mret ());;
             setIsUploading false;;
             setMediaFile None;;
             setMediaPreview None;;
             setMediaType ""
         | None =>
             component (setMessages (fun prev =>
               prev ++ [localMessage drawn inputMessage userId None replyToMessageId]));;
             component (sendMessage selectedRoom inputMessage recipientId None
                          replyToMessageId (wireMessageId drawn) (wireTimestamp drawn))
         end);;
        setInputMessage [];;
        setReplyToMessageId None
    end.

End Composer.

End Composer.

(** ** app/api/auth/wallet: [verifyWalletSignature] *)

Module WalletAuth.
Import Js.

(** [s.startsWith(searchString)] *)
Fixpoint startsWith (s searchString : jsstring) : bool :=
  match searchString, s with
  | [], _ => true
  | _ :: _, [] => false
  | x :: searchString, c :: s => (c =? x)%N && startsWith s searchString
  end.

(** [s.includes(searchString)] *)
Fixpoint includes (s searchString : jsstring) : bool :=
  startsWith s searchString
  || match s with
     | [] => false
     | _ :: rest => includes rest searchString
     end.

(** No statement of the [try] block can throw on strings, so the
    [catch] branch is not taken. *)
Definition verifyWalletSignature (walletAddress message signature : jsstring) : bool :=
  (0 <? length signature)%nat && includes message walletAddress.

End WalletAuth.

(** ** lib/api-utils: [sanitizeInput] *)

Module Sanitize.
Import Js.
Local Open Scope N_scope.

(** A character of a pattern with the flag [i] matches the letter in
    either case; the canonicalization of a pattern without the flag [u]
    maps no code unit above 0x7F to an ASCII letter. *)
Definition matches_ignoring_case (letter c : N) : bool :=
  (c =? letter) || ((97 <=? letter) && (letter <=? 122) && (c =? letter - 32)).

(** [\w]: a letter, a digit or the underscore. *)
Definition is_word_character (c : N) : bool :=
  ((65 <=? c) && (c <=? 90)) || ((97 <=? c) && (c <=? 122))
  || ((48 <=? c) && (c <=? 57)) || (c =? 95).

(** Whether the characters of a literal pattern match at the start of
    the string, letters in either case. *)
Fixpoint matches_literal (pattern s : jsstring) : bool :=
  match pattern, s with
  | [], _ => true
  | _ :: _, [] => false
  | letter :: pattern, c :: s => matches_ignoring_case letter c && matches_literal pattern s
  end.

(** The length of the longest run of word characters at the start. *)
Fixpoint word_run (s : jsstring) : nat :=
  match s with
  | c :: rest => if is_word_character c then S (word_run rest) else O
  | [] => O
  end.

(** [/javascript:/i] at the start of the string: the length of the match. *)
Definition match_javascript (s : jsstring) : option nat :=
  let pattern := [106; 97; 118; 97; 115; 99; 114; 105; 112; 116; 58] in
  if matches_literal pattern s then Some (length pattern) else None.

(** [/on\w+=/i] at the start of the string.  The greedy [\w+] takes the
    whole run of word characters; a shorter run is followed by a word
    character and so never by [=]. *)
Definition match_event_handler (s : jsstring) : option nat :=
  if matches_literal [111; 110] s then
    let run := word_run (drop 2 s) in
    if (0 <? run)%nat && bool_decide (drop 2 s !! run = Some 61)
    then Some (2 + run + 1)%nat else None
  else None.

(** [s.replace(pattern, '')] for a pattern with the flag [g] whose
    matches are not empty: the matches are looked for from left to
    right, each search starting where the match before ended.  [skip]
    counts the characters of the current match that are still to go. *)
Fixpoint remove_matches (match_at : jsstring -> option nat) (skip : nat) (s : jsstring)
    : jsstring :=
  match s with
  | [] => []
  | c :: rest =>
      match skip with
      | S skip => remove_matches match_at skip rest
      | O =>
          match match_at s with
          | Some (S skip) => remove_matches match_at skip rest
          | _ => c :: remove_matches match_at O rest
          end
      end
  end.

Fixpoint trimStart (s : jsstring) : jsstring :=
  match s with
  | c :: rest => if Chat.is_white_space c then trimStart rest else s
  | [] => []
  end.

(** [s.trim()] *)
Definition trim (s : jsstring) : jsstring :=
  reverse (trimStart (reverse (trimStart s))).

Definition sanitizeInput (input : jsstring) : jsstring :=
  let input := filter (fun c => c ≠ 60 /\ c ≠ 62) input in
  let input := remove_matches match_javascript O input in
  let input := remove_matches match_event_handler O input in
  trim input.

End Sanitize.

(** ** contexts/socket-context: the provider of the socket *)

Module SocketProvider.
Import Js Wire Crypto Encryption.

Section SocketProvider.
Context {sc : SubtleCrypto}.

(** The state of [SocketProvider]: what the chat component reads of it
    ([socket], [userId] and the encryption service, in [chat]), and
    [isConnected] and [currentRoom]. *)
Record Provider : Type := {
  chat : Chat.Chat;
  isConnected : bool;
  currentRoom : option string;
}.

Definition set_chat (c : Chat.Chat) (p : Provider) : Provider :=
  {| chat := c; isConnected := isConnected p; currentRoom := currentRoom p |}.

Definition component {A} (call : Eff Chat.Chat A) : Eff Provider A :=
  zoom chat set_chat call.

Definition setIsConnected (value : bool) : Eff Provider unit :=
  modify (fun p => {| chat := chat p; isConnected := value; currentRoom := currentRoom p |}).

Definition setCurrentRoom (room : option string) : Eff Provider unit :=
  modify (fun p => {| chat := chat p; isConnected := isConnected p; currentRoom := room |}).

Definition setUserId (id : option string) : Eff Provider unit :=
  component (modify (fun c =>
    {| Chat.tab := Chat.tab c; Chat.socket := Chat.socket c; Chat.userId := id;
       Chat.selectedRoom := Chat.selectedRoom c; Chat.recipientId := Chat.recipientId c;
       Chat.messages := Chat.messages c; Chat.typingUsers := Chat.typingUsers c;
       Chat.editingMessageId := Chat.editingMessageId c; Chat.editText := Chat.editText c;
       Chat.emitted := Chat.emitted c |})).

(** The listener of [connect]; [socket_id] is [socketInstance.id]. *)
Definition handleConnect (socket_id : string) : Eff Provider unit :=
  setIsConnected true;;
  setUserId (Some socket_id);;
  component (Chat.encryptionService generateKeyPair).

(** The listener of [disconnect]. *)
Definition handleDisconnect : Eff Provider unit :=
  setIsConnected false.

(** [joinRoom] of the provider. *)
Definition joinRoom (roomId : string) : Eff Provider unit :=
  socket ← gets (fun p => Chat.socket (chat p));
  userId ← gets (fun p => Chat.userId (chat p));
  match userId with
  | Some userId =>
      if socket && truthy userId
      then
        component (Chat.emit (ClientEvent.join_room roomId userId));;
        setCurrentRoom (Some roomId)
      else mret ()
  | None => mret ()
  end.

End SocketProvider.

End SocketProvider.

(** ** A small instance of the interface

    Diffie-Hellman in the multiplicative group modulo 251 and a cipher
    that reverses its input and appends a tag: enough to run the model on
    concrete inputs and to show that the laws of the interface can be met. *)

Module Toy.
Import Js Crypto.

#[export] Instance byte_eq_dec : EqDecision byte := Byte.byte_eq_dec.

Definition power (base exponent : byte) : byte :=
  byte_of_N (Z.to_N ((Z.of_N (Byte.to_N base) ^ Z.of_N (Byte.to_N exponent)) mod 251)).

Definition generator : byte := Byte.x06.

Definition tag (key iv : bytes) : bytes :=
  take 16 (key ++ iv ++ replicate 16 Byte.x00).

#[export] Instance toy : SubtleCrypto := {|
  PublicKey := byte;
  PrivateKey := byte;
  generateKey e :=
    ({| publicKey := power generator (e 0%nat); privateKey := e 0%nat |},
     fun i => e (S i));
  exportKey pub := [pub];
  importKey_ECDH buffer :=
    match buffer with
    | [pub] => Some pub
    | _ => None
    end;
  deriveBits pub priv len := replicate (N.to_nat (len / 8)) (power pub priv);
  AES_GCM_encrypt key iv data := reverse data ++ tag key iv;
  AES_GCM_decrypt key iv data :=
    let n := (length data - 16)%nat in
    if bool_decide (16 <= length data /\ drop n data = tag key iv)%nat
    then Some (reverse (take n data)) else None;
  digest_SHA256 data := take 32 (data ++ replicate 32 Byte.x00);
|}.

End Toy.

(* ===================================================================== *)
(** * Part II. Notions used in the statements and in the proofs           *)
(* ===================================================================== *)

(** ** Lists *)

(** How often an element occurs in a list. *)
Definition occurrences {A} `{!EqDecision A} (x : A) (l : list A) : nat :=
  length (filter (fun y => y = x) l).

(** ** Base64 and UTF-8 *)

Section EncodingNotions.
Import Js Base64 Encoding.
Local Open Scope N_scope.

Definition octet (a : N) : Prop := a < 256.

(** The 6-bit groups of a sequence of octets. *)
Fixpoint sextets (l : list N) : list N :=
  match l with
  | [] => []
  | [a] => let g := a * 16 in [g / 64; g mod 64]
  | [a; b] => let g := (a * 256 + b) * 4 in [g / 4096; (g / 64) mod 64; g mod 64]
  | a :: b :: c :: rest =>
      let g := a * 65536 + b * 256 + c in
      g / 262144 :: (g / 4096) mod 64 :: (g / 64) mod 64 :: g mod 64 :: sextets rest
  end.

(** The base64 encoding without its padding. *)
Definition encode_unpadded (l : list N) : jsstring := alphabet <$> sextets l.

(** A Unicode scalar value: a code point that is no surrogate. *)
Definition is_scalar_value (cp : N) : Prop :=
  cp < 0x110000 /\ (cp < 0xD800 \/ 0xDFFF < cp).

(** The code point of a surrogate pair, in arithmetic. *)
Definition surrogate_pair (c d : N) : N := (c - 0xD800) * 1024 + (d - 0xDC00) + 0x10000.

(** A decoder that waits for continuation bytes. *)
Definition pending (cp seen needed lo hi : N) : Utf8Decoder :=
  {| code_point := cp; bytes_seen := seen; bytes_needed := needed;
     lower_boundary := lo; upper_boundary := hi |}.

End EncodingNotions.

(** ** The encryption service *)

Section EncryptionNotions.
Import Js Base64 Encoding Crypto Encryption.
Context {sc : SubtleCrypto}.

(** Each side holds a generated key pair and the public key of the other
    side, stored under the identity of that side. *)
Definition mutual_key_exchange (A B : Tab) (idA idB : string) : Prop :=
  exists a b : Entropy,
    keyPair (instance A) = Some (generateKey a).1 /\
    keyPair (instance B) = Some (generateKey b).1 /\
    peerPublicKeys (instance A) !! idB = Some (publicKey (generateKey b).1) /\
    peerPublicKeys (instance B) !! idA = Some (publicKey (generateKey a).1).

(** A tab after [n] bytes of its entropy were drawn. *)
Definition drawn (n : nat) (t : Tab) : Tab :=
  {| instance := instance t; entropy := fun i => entropy t (n + i)%nat |}.

(** The envelope of a message under a key and an IV. *)
Definition envelope (key iv : bytes) (message : jsstring) : jsstring :=
  encode (Byte.to_N <$> iv ++ AES_GCM_encrypt key iv (TextEncoder_encode message)).

(** Two successive calls of [encryptMessage]. *)
Definition encrypt_twice (message : jsstring) (recipientId : string)
    : Eff Tab (jsstring * jsstring) :=
  first ← encryptMessage message recipientId;
  second ← encryptMessage message recipientId;
  mret (first, second).

(** The string that [getPublicKeyAsString] returns for a key pair. *)
Definition key_string (kp : CryptoKeyPair PublicKey PrivateKey) : jsstring :=
  encode (Byte.to_N <$> exportKey (publicKey kp)).

End EncryptionNotions.

(** ** The relay *)

Section SocketServiceNotions.
Import Wire SocketService.

(** The room that an event of a client is published to. *)
Definition scope (event : ClientEvent.t) : option string :=
  match event with
  | ClientEvent.join_room roomId _ => Some roomId
  | ClientEvent.send_message data => Some (SendMessage.roomId data)
  | ClientEvent.edit_message data => Some (EditMessage.roomId data)
  | ClientEvent.delete_message data => DeleteMessage.roomId data
  | ClientEvent.message_reaction data => Some (SendReaction.roomId data)
  | ClientEvent.message_read data => Some (Read.roomId data)
  | ClientEvent.user_typing data => Some (Typing.roomId data)
  | ClientEvent.exchange_keys data => Some (SendKeys.recipientId data)
  end.


(** The event that the server relays for an event of a client. *)
Definition relayed (socket_id : string) (event : ClientEvent.t) : ServerEvent.t :=
  match event with
  | ClientEvent.join_room _ userId => ServerEvent.user_connected userId
  | ClientEvent.send_message data =>
      ServerEvent.receive_message
        {| ReceiveMessage.id := SendMessage.id data;
           ReceiveMessage.encryptedMessage := SendMessage.encryptedMessage data;
           ReceiveMessage.sender := SendMessage.sender data;
           ReceiveMessage.timestamp := SendMessage.timestamp data;
           ReceiveMessage.replyTo := SendMessage.replyTo data;
           ReceiveMessage.media := SendMessage.media data |}
  | ClientEvent.edit_message data =>
      ServerEvent.message_edit
        {| MessageEdit.id := EditMessage.id data;
           MessageEdit.encryptedMessage := EditMessage.encryptedMessage data;
           MessageEdit.sender := socket_id;
           MessageEdit.editedAt := EditMessage.editedAt data |}
  | ClientEvent.delete_message data =>
      ServerEvent.message_delete
        {| MessageDelete.id := DeleteMessage.id data; MessageDelete.sender := socket_id |}
  | ClientEvent.message_reaction data =>
      ServerEvent.message_reaction
        {| MessageReaction.messageId := SendReaction.messageId data;
           MessageReaction.userId := socket_id;
           MessageReaction.emoji := SendReaction.emoji data;
           MessageReaction.remove := SendReaction.remove data |}
  | ClientEvent.message_read data =>
      ServerEvent.message_read
        {| MessageRead.messageId := Read.messageId data;
           MessageRead.userId := Read.userId data |}
  | ClientEvent.user_typing data => ServerEvent.user_typing data
  | ClientEvent.exchange_keys data =>
      ServerEvent.exchange_keys
        {| Keys.userId := SendKeys.userId data; Keys.publicKey := SendKeys.publicKey data |}
  end.

End SocketServiceNotions.

(** ** The component *)

Section ChatNotions.
Import Js Wire Crypto Encryption Chat.
Context {sc : SubtleCrypto}.
Local Open Scope Z_scope.

Definition reactions_of (msg : Message.t) : list Reaction.t :=
  default [] (Message.reactions msg).

Definition reaction (userId emoji : string) : Reaction.t :=
  {| Reaction.userId := userId; Reaction.emoji := emoji |}.

(** What a reaction event does to the reactions of the message concerned:
    a removal drops the pair, an addition appends it unless it is there. *)
Definition toggle (r : Reaction.t) (remove : option bool) (l : list Reaction.t)
    : list Reaction.t :=
  if default false remove then filter (fun x => x ≠ r) l
  else if bool_decide (r ∈ l) then l else l ++ [r].

(** The message after a reaction event on it. *)
Definition react (r : Reaction.t) (remove : option bool) (msg : Message.t) : Message.t :=
  Message.with_reactions (toggle r remove (reactions_of msg)) msg.

(** The relation between a message before and after a reaction event:
    adding a pair that is present and removing one that is absent change
    nothing, no duplicate appears, and after an addition the pair occurs
    once. *)
Definition toggled (r : Reaction.t) (remove : option bool) (msg msg' : Message.t) : Prop :=
  (default false remove = false -> r ∈ reactions_of msg ->
     reactions_of msg' = reactions_of msg) /\
  (default false remove = true -> r ∉ reactions_of msg ->
     reactions_of msg' = reactions_of msg) /\
  (NoDup (reactions_of msg) -> NoDup (reactions_of msg')) /\
  (default false remove = false -> NoDup (reactions_of msg) ->
     occurrences r (reactions_of msg') = 1%nat).

(** No message carries a pair of user and emoji twice. *)
Definition reactions_unique (c : Chat) : Prop :=
  Forall (fun msg => NoDup (reactions_of msg)) (messages c).

(** The entries of one user in the typing state. *)
Definition entries_of (user : string) (l : list TypingUser.t) : list TypingUser.t :=
  filter (fun entry => TypingUser.userId entry = user) l.

Definition entry (user : string) (time : Z) : TypingUser.t :=
  {| TypingUser.userId := user; TypingUser.timestamp := time |}.

(** The typing state has an entry of the user. *)
Definition is_typing (user : string) (c : Chat) : Prop :=
  entries_of user (typingUsers c) ≠ [].

(** The listener takes a [user-typing] event: it is of another user and
    of the selected room. *)
Definition accepted (data : Typing.t) (c : Chat) : Prop :=
  Some (Typing.userId data) ≠ userId c /\ Some (Typing.roomId data) = selectedRoom c.

(** The events that arrive within one millisecond. *)
Definition arrive (l : list Typing.t) (now : Z) (c : Chat) : Chat :=
  foldl (fun c data => after (handleUserTyping data now) c) c l.

(** Whether the interval has fired between [T + 3000] and [T + n]. *)
Fixpoint expired (mounted T : Z) (n : nat) : bool :=
  match n with
  | O => false
  | S n' =>
      expired mounted T n'
      || ((3000 <=? Z.of_nat n) && interval_fires mounted (T + Z.of_nat n))
  end.

End ChatNotions.

(** ** The key exchange between two clients *)

Section KeyExchangeNotions.
Import Js Wire Crypto Encryption Chat Network.
Context {sc : SubtleCrypto}.

(** The event by which a client sends its key, and the one the server
    relays for it. *)
Definition keys_for (userId : string) (kp : CryptoKeyPair PublicKey PrivateKey)
    (recipientId : string) : ClientEvent.t :=
  ClientEvent.exchange_keys
    {| SendKeys.userId := userId; SendKeys.publicKey := key_string kp;
       SendKeys.recipientId := recipientId |}.

Definition keys_of (userId : string) (kp : CryptoKeyPair PublicKey PrivateKey)
    : ServerEvent.t :=
  ServerEvent.exchange_keys {| Keys.userId := userId; Keys.publicKey := key_string kp |}.

(** A connected client that holds its key pair and has nothing left to
    send. *)
Definition ready (id : string) (kp : CryptoKeyPair PublicKey PrivateKey) (c : Chat) : Prop :=
  userId c = Some id /\ truthy id = true /\
  keyPair (instance (tab c)) = Some kp /\ emitted c = [].

(** Two connected clients, each alone in the room of its socket id. *)
Definition connected (a b : string) (kpA kpB : CryptoKeyPair PublicKey PrivateKey)
    (net : Network) : Prop :=
  a ≠ b /\
  (exists ca, clients net !! a = Some ca /\ ready a kpA ca) /\
  (exists cb, clients net !! b = Some cb /\ ready b kpB cb) /\
  SocketService.members (rooms net) a = {[a]} /\
  SocketService.members (rooms net) b = {[b]}.

(** The [exchange-keys] events that the server received from one socket
    for one recipient. *)
Definition is_keys (sender recipient : string) (p : string * ClientEvent.t) : bool :=
  match p.2 with
  | ClientEvent.exchange_keys data =>
      String.eqb p.1 sender && String.eqb (SendKeys.recipientId data) recipient
  | _ => false
  end.

Definition keys_sent (sender recipient : string) (net : Network) : nat :=
  length (List.filter (is_keys sender recipient) (received net)).

End KeyExchangeNotions.

(** ** The limiters *)

Section RateLimitNotions.
Import RateLimit.

(** How many requests of a list come from an address. *)
Definition asked (ip : string) (arrivals : list (NextRequest * Z)) : nat :=
  length (filter (fun arrival => ip_of arrival.1 = ip) arrivals).

(** How many of them were let through. *)
Definition granted (ip : string) (arrivals : list (NextRequest * Z))
    (results : list RateLimitResult.t) : nat :=
  length (filter (fun served => ip_of served.1.1 = ip /\ RateLimitResult.success served.2 = true)
            (zip arrivals results)).

(** The results that the requests of an address got. *)
Definition results_of (ip : string) (arrivals : list (NextRequest * Z))
    (results : list RateLimitResult.t) : list RateLimitResult.t :=
  snd <$> filter (fun served => ip_of served.1.1 = ip) (zip arrivals results).

(** [Number.isSafeInteger]: an integer that binary64 holds exactly,
    as it holds the integers next to it. *)
Definition safe (z : Z) : Prop := (- 2 ^ 53 < z < 2 ^ 53)%Z.

End RateLimitNotions.

Section ApiUtilsNotions.
Import ApiUtils.

(** The requests arrive in the order of their times. *)
Fixpoint chronological (arrivals : list (NextApiRequest * Z)) : Prop :=
  match arrivals with
  | [] => True
  | arrival :: rest =>
      Forall (fun later => (arrival.2 <= later.2)%Z) rest /\ chronological rest
  end.

(** The times of the requests of an address that were let through. *)
Definition granted_times (ip : string) (arrivals : list (NextApiRequest * Z))
    (results : list bool) : list Z :=
  (fun served => served.1.2)
    <$> filter (fun served => ip_of served.1.1 = ip /\ served.2 = true) (zip arrivals results).

End ApiUtilsNotions.

(** ** Media *)

Section MediaNotions.
Local Open Scope N_scope.


End MediaNotions.

(** ** The component: typing state, read receipts *)

Section ListenerNotions.
Import Js Wire Crypto Encryption Chat.
Context {sc : SubtleCrypto}.

(** The users of the typing state. *)
Definition typing_ids (c : Chat) : list string := TypingUser.userId <$> typingUsers c.

(** The typing state names no user twice, and never the local user. *)
Definition typing_state_ok (c : Chat) : Prop :=
  NoDup (typing_ids c) /\ (forall user, userId c = Some user -> user ∉ typing_ids c).

Definition readBy_of (msg : Message.t) : list string := default [] (Message.readBy msg).

(** No message names a reader twice. *)
Definition readers_unique (c : Chat) : Prop :=
  Forall (fun msg => NoDup (readBy_of msg)) (messages c).

(** The read receipt that the component sends for a message, when it
    has a socket, an identity and a selected room. *)
Definition receipt_for (messageId : string) (c : Chat) : list ClientEvent.t :=
  match userId c, selectedRoom c with
  | Some userId, Some selectedRoom =>
      if socket c && truthy userId && truthy selectedRoom
      then [ClientEvent.message_read
              {| Read.messageId := messageId; Read.userId := userId;
                 Read.roomId := selectedRoom |}]
      else []
  | _, _ => []
  end.

End ListenerNotions.

Section ReceiveNotions.
Import Js Wire Crypto Encryption MediaEncryption Chat.
Context {sc : SubtleCrypto}.

(** The text of a received event decrypts in the tab of the client, and
    so does its media, where it has one. *)
Definition decrypts (data : ReceiveMessage.t) (c : Chat) : Prop :=
  (exists text,
     (decryptMessage (ReceiveMessage.encryptedMessage data) (ReceiveMessage.sender data)
        (tab c)).1 = Return text) /\
  match ReceiveMessage.media data with
  | None => True
  | Some wire =>
      exists decrypted,
        decryptMedia (MediaData.encryptedData wire) (ReceiveMessage.sender data)
        = Return decrypted
  end.

(** The client has a socket, an identity and a selected room. *)
Definition attending (c : Chat) (id room : string) : Prop :=
  socket c = true /\ userId c = Some id /\ truthy id = true /\
  selectedRoom c = Some room /\ truthy room = true.

End ReceiveNotions.

(** ** A conversation between two clients *)

Section ConversationNotions.
Import Js Encoding Wire Crypto Encryption MediaEncryption Chat Composer.
Context {sc : SubtleCrypto}.

(** The client [A] is connected under the identity [idA], has selected
    a room and addresses [idB]; the tabs of [A] and [B] have exchanged
    their keys under these identities. *)
Definition conversation (A B : Chat) (idA idB room : string) : Prop :=
  mutual_key_exchange (tab A) (tab B) idA idB /\
  socket A = true /\
  userId A = Some idA /\ truthy idA = true /\
  selectedRoom A = Some room /\ truthy room = true /\
  recipientId A = idB /\ truthy idB = true.

(** A text that the UTF-8 encoding gives back as it was: well-formed
    UTF-16 without a byte order mark in front. *)
Definition plain_text (P : jsstring) : Prop :=
  is_jsstring P /\ isWellFormed P = true /\ head P ≠ Some byte_order_mark.

(** What is in the input line can be sent from [idA] to [idB]: a text
    that is not blank, or a file whose data URL has no code unit above
    0xFF, the two identities being of the same length. *)
Definition sendable (A : Composer) (idA idB : string) : Prop :=
  match mediaFile A with
  | None => trim_is_empty (inputMessage A) = false
  | Some file =>
      Forall octet (File.dataUrl file) /\
      String.length idA = String.length idB
  end.

(** The media of a file as the sender and the receiver come to hold it. *)
Definition media_of (file : File.t) : Media.t :=
  {| Media.type := File.type file;
     Media.data := File.dataUrl file;
     Media.hash := calculateHash (File.dataUrl file);
     Media.verified := true |}.

(** The one event that a step of the client put on the socket. *)
Definition sent (event : ClientEvent.t) (before after : Chat) : Prop :=
  emitted after = emitted before ++ [event].

(** What the server delivers, to whomever, for an event of a socket. *)
Definition relays (socket_id : string) (event : ClientEvent.t)
    (rooms : SocketService.Rooms) (delivered : ServerEvent.t) : Prop :=
  exists recipient, (recipient, delivered) ∈ (SocketService.on socket_id event rooms).2.

End ConversationNotions.

(** ** The relay over a run of events *)

Section RelayNotions.
Import Wire SocketService.

(** The rooms after the server handled the events of a list, each with
    the socket it came from, in their order. *)
Definition rooms_after (events : list (string * ClientEvent.t)) (rooms : Rooms) : Rooms :=
  foldl (fun rooms event => (on event.1 event.2 rooms).1) rooms events.

(** The socket asked to join the room. *)
Definition joins (socket_id room : string) (event : string * ClientEvent.t) : Prop :=
  event.1 = socket_id /\ exists userId, event.2 = ClientEvent.join_room room userId.

End RelayNotions.

(** ** Keys held in a network *)

Section HeldKeyNotions.
Import Js Wire Crypto Encryption Chat Network.
Context {sc : SubtleCrypto}.

(** The client [id] of the network holds the public key of the key
    pair under the identity [peer]. *)
Definition holds_key (net : Network) (id peer : string)
    (kp : CryptoKeyPair PublicKey PrivateKey) : Prop :=
  exists c, clients net !! id = Some c /\
            peerPublicKeys (instance (tab c)) !! peer = Some (publicKey kp).

End HeldKeyNotions.

(** ** The start of a session *)

Section SessionNotions.
Import Js Wire Crypto Encryption Network.
Import Chat SocketProvider.
Context {sc : SubtleCrypto}.

(** A provider that has created its socket and has emitted nothing yet. *)
Definition initialised (p : Provider) : Prop :=
  Chat.socket (SocketProvider.chat p) = true /\
  Chat.emitted (SocketProvider.chat p) = [].

(** The start of a session of two clients: both connect, [a] joins a
    room, and then [b] joins it.  The server handles what each of them
    emitted; the network holds the two clients and what the server
    relays to them. *)
Definition session (a b room : string) (pa pb : Provider) : Network :=
  let rooms := SocketService.connection b (SocketService.connection a ∅) in
  let pa := (handleConnect a pa).2 in
  let pb := (handleConnect b pb).2 in
  let pa := (SocketProvider.joinRoom room pa).2 in
  let '(rooms, first) := serve a (emitted (SocketProvider.chat pa)) rooms in
  let pb := (SocketProvider.joinRoom room pb).2 in
  let '(rooms, second) := serve b (emitted (SocketProvider.chat pb)) rooms in
  {| rooms := rooms;
     clients := <[a := flushed (SocketProvider.chat pa)]>
                  (<[b := flushed (SocketProvider.chat pb)]> ∅);
     inflight := first ++ second;
     received := ((fun e => (a, e)) <$> emitted (SocketProvider.chat pa))
                 ++ ((fun e => (b, e)) <$> emitted (SocketProvider.chat pb)) |}.

End SessionNotions.

(** ** A scenario on the toy instance: Alice, Bob and Carol *)

Section Scenario.
Import Js Wire Crypto Encryption MediaEncryption Chat Network Toy.

Definition entropy_from (start : N) : Entropy :=
  fun i => byte_of_N (start + N.of_nat i).

(** The key pairs that Alice and Bob generate. *)
Definition alice_keys : CryptoKeyPair PublicKey PrivateKey :=
  (generateKey (entropy_from 3)).1.

Definition bob_keys : CryptoKeyPair PublicKey PrivateKey :=
  (generateKey (entropy_from 5)).1.

(** Their tabs after [generateKeyPair], before any key was exchanged. *)
Definition alice_alone : Tab :=
  (generateKeyPair {| instance := new; entropy := entropy_from 3 |}).2.

Definition bob_alone : Tab :=
  (generateKeyPair {| instance := new; entropy := entropy_from 5 |}).2.

(** Their tabs after each stored the key string of the other. *)
Definition alice : Tab := (addPeerPublicKey "bob" (key_string bob_keys) alice_alone).2.

Definition bob : Tab := (addPeerPublicKey "alice" (key_string alice_keys) bob_alone).2.

(** A tab that knows the key of Bob but never generated its own. *)
Definition keyless : Tab :=
  {| instance := {| keyPair := None;
                    peerPublicKeys := {[ "bob" := publicKey bob_keys ]} |};
     entropy := entropy_from 0 |}.

(** Alice's tab with a random generator that delivers the same byte over
    and over. *)
Definition alice_repeating : Tab :=
  {| instance := instance alice; entropy := fun _ => Byte.x2a |}.

Definition hello : jsstring := js "hello".

(** The text of the single code unit U+D800, an unpaired surrogate. *)
Definition lone_surrogate : jsstring := [0xD800%N].

(** A message of Bob in the list of Alice, with one reaction of Bob. *)
Definition from_bob : Message.t :=
  {| Message.id := "m1"; Message.text := js "hi"; Message.sender := "bob";
     Message.timestamp := "2024-01-01T00:00:00.000Z"; Message.isDecrypted := true;
     Message.editedAt := None; Message.reactions := Some [reaction "bob" "+1"];
     Message.media := None; Message.replyTo := None; Message.isDeleted := None;
     Message.readBy := Some [] |}.

Definition alice_chat : Chat :=
  {| tab := alice; socket := true; userId := Some "alice"; selectedRoom := Some "lobby";
     recipientId := "bob"; messages := [from_bob]; typingUsers := [];
     editingMessageId := None; editText := []; emitted := [] |}.

Definition bob_chat : Chat :=
  {| tab := bob; socket := true; userId := Some "bob"; selectedRoom := Some "lobby";
     recipientId := "alice"; messages := []; typingUsers := [];
     editingMessageId := None; editText := []; emitted := [] |}.

(** The rooms of the server after Alice, Bob and Carol connected and
    joined the lobby. *)
Definition lobby : SocketService.Rooms :=
  foldl (fun rooms id =>
           (SocketService.on id (ClientEvent.join_room "lobby" id)
              (SocketService.connection id rooms)).1)
        ∅ ["alice"; "bob"; "carol"].

(** Alice and Bob connected; Alice is about to hear that Bob joined. *)
Definition alice_and_bob : Network :=
  {| rooms := lobby;
     clients := {[ "alice" := alice_chat; "bob" := bob_chat ]};
     inflight := [("alice", ServerEvent.user_connected "bob")];
     received := [] |}.


(** Bob signals once, at time 5000, that he is typing in the lobby. *)
Definition bob_typing : Typing.t := {| Typing.userId := "bob"; Typing.roomId := "lobby" |}.

Definition bob_types_once (t : Z) : list Typing.t :=
  if (t =? 5000)%Z then [bob_typing] else [].

End Scenario.

(** ** More of the scenario: limiters, media, the input line *)

Section ScenarioInputs.
Import Js Wire Crypto Encryption MediaEncryption Chat Composer Network Toy.

(** Two addresses that send requests. *)
Definition from_office : RateLimit.NextRequest :=
  {| RateLimit.x_forwarded_for := Some "203.0.113.7"; RateLimit.x_real_ip := None |}.

Definition from_home : RateLimit.NextRequest :=
  {| RateLimit.x_forwarded_for := None; RateLimit.x_real_ip := Some "198.51.100.2" |}.

(** After a first request of the office at time 0, three more requests
    within a window of one second: two of the office, one of home. *)
Definition later_requests : list (RateLimit.NextRequest * Z) :=
  [(from_office, 10%Z); (from_home, 20%Z); (from_office, 30%Z)].

(** Requests to an API route, all of one address. *)
Definition api_request : ApiUtils.NextApiRequest :=
  {| ApiUtils.x_forwarded_for := Some "203.0.113.7"; ApiUtils.remoteAddress := None |}.

Definition api_requests : list (ApiUtils.NextApiRequest * Z) :=
  [(api_request, 0%Z); (api_request, 5%Z)].

(** A picture as a data URL. *)
Definition picture : jsstring := js "data:image/png;base64,iVBORw0KGgo=".

(** The input line of Alice with the text [hello]. *)
Definition alice_composer : Composer :=
  {| chat := alice_chat; inputMessage := hello; mediaFile := None;
     mediaPreview := None; mediaType := ""; isUploading := false;
     replyToMessageId := None |}.

(** The input line of an Alice who has not received the key of Bob. *)
Definition alice_without_key : Composer :=
  {| chat :=
       {| tab := alice_alone; socket := true; userId := Some "alice";
          selectedRoom := Some "lobby"; recipientId := "bob"; messages := [];
          typingUsers := []; editingMessageId := None; editText := []; emitted := [] |};
     inputMessage := hello; mediaFile := None; mediaPreview := None; mediaType := "";
     isUploading := false; replyToMessageId := None |}.

(** What one call of [handleSendMessage] draws. *)
Definition drawn_once : Drawn :=
  {| messageId := "msg_1700000000000_k3j9x1a";
     timestamp := "2024-01-01T00:00:02.000Z";
     wireMessageId := "msg_1700000000001_p0q8z7b";
     wireTimestamp := "2024-01-01T00:00:02.001Z" |}.

(** The text that Alice types over her [hello]. *)
Definition hello_again : jsstring := js "hello again".

(** The [hello] of Alice as Bob receives it, and an event that Bob
    cannot decrypt. *)
Definition hello_received : ReceiveMessage.t :=
  {| ReceiveMessage.id := "msg_1700000000001_p0q8z7b";
     ReceiveMessage.encryptedMessage :=
       match (encryptMessage hello "bob" alice).1 with
       | Return envelope => envelope
       | Throw _ => []
       end;
     ReceiveMessage.sender := "alice";
     ReceiveMessage.timestamp := "2024-01-01T00:00:02.001Z";
     ReceiveMessage.replyTo := None;
     ReceiveMessage.media := None |}.

Definition noise_received : ReceiveMessage.t :=
  {| ReceiveMessage.id := "msg_1700000000002_c4d5e6f";
     ReceiveMessage.encryptedMessage := js "AAAA";
     ReceiveMessage.sender := "alice";
     ReceiveMessage.timestamp := "2024-01-01T00:00:02.002Z";
     ReceiveMessage.replyTo := None;
     ReceiveMessage.media := None |}.




(** The provider of a page that has loaded: the socket is created, no
    identity and no key pair yet. *)
Definition loaded (start : N) : SocketProvider.Provider :=
  {| SocketProvider.chat :=
       {| tab := {| instance := new; entropy := entropy_from start |};
          socket := true; userId := None; selectedRoom := None; recipientId := "";
          messages := []; typingUsers := []; editingMessageId := None; editText := [];
          emitted := [] |};
     SocketProvider.isConnected := false;
     SocketProvider.currentRoom := None |}.

End ScenarioInputs.

(* ===================================================================== *)
(** * Part III. Theorems                                                  *)
(* ===================================================================== *)

(** Boolean comparisons of natural numbers, turned into propositions. *)
Ltac N_bool :=
  repeat match goal with
    | H : (_ && _) = true |- _ => apply andb_true_iff in H; destruct H
    | H : (_ && _) = false |- _ => apply andb_false_iff in H; destruct H
    | H : (_ || _) = true |- _ => apply orb_true_iff in H; destruct H
    | H : (_ || _) = false |- _ => apply orb_false_iff in H; destruct H
    | H : negb _ = true |- _ => apply negb_true_iff in H
    | H : negb _ = false |- _ => apply negb_false_iff in H
    | H : N.ltb _ _ = true |- _ => apply N.ltb_lt in H
    | H : N.ltb _ _ = false |- _ => apply N.ltb_ge in H
    | H : N.leb _ _ = true |- _ => apply N.leb_le in H
    | H : N.leb _ _ = false |- _ => apply N.leb_gt in H
    | H : N.eqb _ _ = true |- _ => apply N.eqb_eq in H
    | H : N.eqb _ _ = false |- _ => apply N.eqb_neq in H
    | |- (_ || _) = false => apply orb_false_iff; split
    | |- (_ && _) = true => apply andb_true_iff; split
    | |- negb _ = true => apply negb_true_iff
    | |- negb _ = false => apply negb_false_iff
    | |- N.ltb _ _ = true => apply N.ltb_lt
    | |- N.ltb _ _ = false => apply N.ltb_ge
    | |- N.leb _ _ = true => apply N.leb_le
    | |- N.leb _ _ = false => apply N.leb_gt
    | |- N.eqb _ _ = true => apply N.eqb_eq
    | |- N.eqb _ _ = false => apply N.eqb_neq
    end.

(** Case analysis on every conditional of the goal, then arithmetic. *)
Ltac N_cases := repeat case_match; N_bool; try first [reflexivity | lia | f_equal; lia].

(** The heads of a [Forall] hypothesis on a list that starts with conses. *)
Ltac Forall_heads :=
  repeat match goal with
    | H : Forall _ (_ :: _) |- _ => apply Forall_cons_1 in H; destruct H
    end.

(** ** Lists *)

Section ListFacts.
Context {A : Type}.

(** Induction over a list three elements at a time. *)
Lemma list_ind3 (P : list A -> Prop) :
  P [] -> (forall a, P [a]) -> (forall a b, P [a; b]) ->
  (forall a b c l, P l -> P (a :: b :: c :: l)) ->
  forall l, P l.
Proof.
  intros H0 H1 H2 H3.
  fix IH 1. intros [|a [|b [|c l]]]; [apply H0 | apply H1 | apply H2 | apply H3, IH].
Qed.

(** Induction over a list that may consume two elements at a time. *)
Lemma list_ind2 (P : list A -> Prop) :
  P [] -> (forall a, P [a]) ->
  (forall a b l, P l -> P (b :: l) -> P (a :: b :: l)) ->
  forall l, P l.
Proof.
  intros H0 H1 H2 l.
  enough (P l /\ forall a, P (a :: l)) by tauto.
  induction l as [|b l [IH1 IH2]]; split; auto.
Qed.

Lemma filter_Forall_id (P : A -> Prop) `{!forall x, Decision (P x)} (l : list A) :
  Forall P l -> filter P l = l.
Proof.
  induction 1 as [|x l Hx _ IH]; [done|].
  by rewrite filter_cons_True, IH.
Qed.

Lemma filter_Forall_not (P : A -> Prop) `{!forall x, Decision (P x)} (l : list A) :
  Forall (fun x => ~ P x) l -> filter P l = [].
Proof.
  induction 1 as [|x l Hx _ IH]; [done|].
  by rewrite filter_cons_False, IH.
Qed.

Lemma List_filter_stdpp (f : A -> bool) (l : list A) :
  List.filter f l = filter (fun x => f x = true) l.
Proof.
  induction l as [|x l IH]; [done|]. cbn [List.filter]. rewrite filter_cons, IH.
  destruct (f x); by case_decide.
Qed.

Lemma existsb_Exists (f : A -> bool) (l : list A) :
  existsb f l = true <-> Exists (fun x => f x = true) l.
Proof.
  induction l as [|x l IH]; cbn [existsb].
  - split; [done|]. by intros ?%Exists_nil.
  - rewrite orb_true_iff, Exists_cons, IH. done.
Qed.

Lemma find_is_Some (f : A -> bool) (l : list A) :
  is_Some (List.find f l) <-> Exists (fun x => f x = true) l.
Proof.
  induction l as [|x l IH]; cbn [List.find].
  - split; [by intros [? ?]|]. by intros ?%Exists_nil.
  - rewrite Exists_cons. destruct (f x) eqn:E.
    + split; [by left|by eexists].
    + rewrite IH. split; [by right|]. intros [Hx|Hl]; [congruence|done].
Qed.

Lemma occurrences_NoDup `{!EqDecision A} (x : A) (l : list A) :
  NoDup l -> x ∈ l -> occurrences x l = 1%nat.
Proof.
  unfold occurrences.
  induction 1 as [|y l Hy Hl IH]; [by intros ?%elem_of_nil|].
  rewrite filter_cons. intros [->|Hin]%elem_of_cons.
  - rewrite decide_True by done. cbn [length]. f_equal.
    rewrite filter_Forall_not; [done|].
    apply Forall_forall. by intros z Hz ->.
  - rewrite decide_False by (intros ->; done). by apply IH.
Qed.

End ListFacts.

(** ** Base64: [atob] undoes [btoa] *)

Section Base64Facts.
Import Js Base64.
Local Open Scope N_scope.

Lemma index_alphabet i : i < 64 -> index (alphabet i) = Some i.
Proof. intros Hi. unfold index, alphabet. N_cases. Qed.

Lemma alphabet_not_pad i : (alphabet i =? pad) = false.
Proof. unfold alphabet, pad. N_cases. Qed.

Lemma alphabet_not_whitespace i : is_ascii_whitespace (alphabet i) = false.
Proof. unfold alphabet, is_ascii_whitespace. N_cases. Qed.

Lemma pad_not_whitespace : is_ascii_whitespace pad = false.
Proof. reflexivity. Qed.

Lemma encode_no_whitespace l :
  filter (fun c => is_ascii_whitespace c = false) (encode l) = encode l.
Proof.
  apply filter_Forall_id.
  induction l as [|a|a b|a b c l IH] using list_ind3; cbn [encode];
    repeat first [ apply Forall_nil_2 | assumption
                 | apply Forall_cons_2;
                   [first [apply alphabet_not_whitespace | apply pad_not_whitespace]|] ].
Qed.

Lemma encode_length l : exists k, length (encode l) = (4 * k)%nat.
Proof.
  induction l as [|a|a b|a b c l [k IH]] using list_ind3; cbn [encode length].
  - by exists 0%nat.
  - by exists 1%nat.
  - by exists 1%nat.
  - exists (S k). lia.
Qed.

Lemma encode_length_mod4 l : (length (encode l) mod 4 = 0)%nat.
Proof. destruct (encode_length l) as [k ->]. lia. Qed.

Lemma remove_trailing_padding_encode l :
  remove_trailing_padding (encode l) = encode_unpadded l.
Proof.
  unfold encode_unpadded.
  induction l as [|a|a b|a b c l IH] using list_ind3;
    cbn [encode sextets fmap list_fmap remove_trailing_padding is_padding_suffix];
    rewrite ?alphabet_not_pad, ?N.eqb_refl; cbn [andb]; try done.
  rewrite <- IH.
  destruct (encode l) as [|x [|y r]] eqn:E; [done| |].
  - destruct l as [|? [|? [|? ?]]]; simplify_eq/=.
  - cbn [remove_trailing_padding is_padding_suffix].
    repeat case_match; done.
Qed.

Lemma sextets_bounded l : Forall octet l -> Forall (fun i => i < 64) (sextets l).
Proof.
  unfold octet.
  induction l as [|a|a b|a b c l IH] using list_ind3; intros H; cbn [sextets];
    Forall_heads;
    repeat first [apply Forall_nil_2 | apply Forall_cons_2; [lia|] | by apply IH].
Qed.

Lemma sextets_length l : (length (sextets l) mod 4 ≠ 1)%nat.
Proof.
  assert (exists k, length (sextets l) = 4 * k \/ length (sextets l) = 4 * k + 2
                    \/ length (sextets l) = 4 * k + 3)%nat as (k & Hk); [|lia].
  induction l as [|a|a b|a b c l [k IH]] using list_ind3; cbn [sextets length].
  - exists 0%nat. lia.
  - exists 0%nat. lia.
  - exists 0%nat. lia.
  - exists (S k). lia.
Qed.

Lemma decode_indices_sextets l : Forall octet l -> decode_indices (sextets l) = l.
Proof.
  unfold octet.
  induction l as [|a|a b|a b c l IH] using list_ind3; intros H; Forall_heads.
  - done.
  - cbn. f_equal. lia.
  - cbn. f_equal; [lia|f_equal; lia].
  - cbn [sextets decode_indices]. rewrite IH by done.
    f_equal; [lia|f_equal; [lia|f_equal; lia]].
Qed.

Lemma forgiving_decode_encode l : Forall octet l -> forgiving_decode (encode l) = Some l.
Proof.
  intros Hl. unfold forgiving_decode.
  rewrite encode_no_whitespace, encode_length_mod4. cbn [Nat.eqb].
  rewrite remove_trailing_padding_encode. unfold encode_unpadded. rewrite length_fmap.
  destruct (length (sextets l) mod 4 =? 1)%nat eqn:E.
  { apply Nat.eqb_eq in E. by destruct (sextets_length l). }
  rewrite (mapM_fmap_Forall_Some index alphabet (sextets l)).
  - cbn. by rewrite decode_indices_sextets.
  - eapply Forall_impl; [by apply sextets_bounded|]. apply index_alphabet.
Qed.

(** [atob] undoes [btoa] on every binary string. *)
Lemma atob_btoa (data : jsstring) :
  Forall octet data -> btoa data = Return (encode data) /\ atob (encode data) = Return data.
Proof.
  intros Hl. split.
  - unfold btoa. rewrite (proj2 (forallb_forall _ _)); [done|].
    intros x Hx. apply N.leb_le.
    rewrite Forall_forall in Hl. apply list_elem_of_In, Hl in Hx. unfold octet in Hx. lia.
  - unfold atob. by rewrite forgiving_decode_encode.
Qed.

End Base64Facts.

(** ** Bit operations as arithmetic *)

Section BitFacts.
Local Open Scope N_scope.

Lemma land_shiftl_small a b n : b < 2 ^ n -> N.land (N.shiftl a n) b = 0.
Proof.
  intros Hb. apply N.bits_inj. intros m.
  rewrite N.land_spec, N.bits_0.
  destruct (N.lt_ge_cases m n) as [Hm|Hm].
  - by rewrite N.shiftl_spec_low.
  - rewrite <- (N.mod_small b (2 ^ n)) by done.
    rewrite N.mod_pow2_bits_high by done. apply andb_false_r.
Qed.

Lemma lor_shiftl_small a b n : b < 2 ^ n -> N.lor (N.shiftl a n) b = a * 2 ^ n + b.
Proof.
  intros Hb. rewrite <- N.shiftl_mul_pow2.
  rewrite <- N.lxor_lor, <- N.add_nocarry_lxor by by apply land_shiftl_small.
  done.
Qed.

Lemma land_0x3F a : N.land a 0x3F = a mod 64.
Proof. apply (N.land_ones a 6). Qed.

Lemma land_0x1F a : N.land a 0x1F = a mod 32.
Proof. apply (N.land_ones a 5). Qed.

Lemma land_0xF a : N.land a 0xF = a mod 16.
Proof. apply (N.land_ones a 4). Qed.

Lemma land_0x7 a : N.land a 0x7 = a mod 8.
Proof. apply (N.land_ones a 3). Qed.

Lemma land_0x3FF a : N.land a 0x3FF = a mod 1024.
Proof. apply (N.land_ones a 10). Qed.

Lemma shiftr_6 a : N.shiftr a 6 = a / 64.
Proof. apply (N.shiftr_div_pow2 a 6). Qed.

Lemma shiftr_10 a : N.shiftr a 10 = a / 1024.
Proof. apply (N.shiftr_div_pow2 a 10). Qed.

Lemma shiftr_12 a : N.shiftr a 12 = a / 4096.
Proof. apply (N.shiftr_div_pow2 a 12). Qed.

Lemma shiftr_18 a : N.shiftr a 18 = a / 262144.
Proof. apply (N.shiftr_div_pow2 a 18). Qed.

Lemma shiftl_10 a : N.shiftl a 10 = a * 1024.
Proof. apply (N.shiftl_mul_pow2 a 10). Qed.

Lemma lor_0x80 b : b < 64 -> N.lor 0x80 b = 128 + b.
Proof. intros Hb. apply (lor_shiftl_small 2 b 6 Hb). Qed.

Lemma lor_shiftl_6 a b : b < 64 -> N.lor (N.shiftl a 6) b = a * 64 + b.
Proof. intros Hb. apply (lor_shiftl_small a b 6 Hb). Qed.

End BitFacts.

(** ** UTF-8: what [TextDecoder] returns for the bytes of [TextEncoder] *)

Section Utf8Facts.
Import Js Encoding.
Local Open Scope N_scope.

Lemma utf8_encode_scalar_eq cp :
  utf8_encode_scalar cp =
    if cp <=? 0x7F then [cp]
    else if cp <=? 0x7FF then [cp / 64 + 0xC0; 128 + cp mod 64]
    else if cp <=? 0xFFFF then
      [cp / 4096 + 0xE0; 128 + (cp / 64) mod 64; 128 + cp mod 64]
    else [cp / 262144 + 0xF0; 128 + (cp / 4096) mod 64;
          128 + (cp / 64) mod 64; 128 + cp mod 64].
Proof.
  unfold utf8_encode_scalar.
  repeat case_match; simplify_eq; try done; cbn [continuation_bytes];
    change (6 * N.of_nat 3) with 18; change (6 * N.of_nat 2) with 12;
    change (6 * N.of_nat 1) with 6; change (6 * N.of_nat 0) with 0;
    rewrite ?N.shiftr_0_r, ?shiftr_6, ?shiftr_12, ?shiftr_18, ?land_0x3F;
    rewrite ?lor_0x80 by lia; done.
Qed.

Lemma utf8_encode_scalar_octets cp :
  cp < 0x110000 -> Forall (fun b => b < 256) (utf8_encode_scalar cp).
Proof.
  intros Hcp. rewrite utf8_encode_scalar_eq.
  repeat case_match; N_bool;
    repeat first [apply Forall_nil_2 | apply Forall_cons_2; [lia|]].
Qed.

Lemma utf8_handler_initial b : utf8_handler utf8_initial b = utf8_lead b.
Proof. done. Qed.

Lemma utf8_lead_1 b : b <= 0x7F -> utf8_lead b = (utf8_initial, [b]).
Proof. intros. unfold utf8_lead. N_cases. Qed.

Lemma utf8_lead_2 b :
  0xC2 <= b <= 0xDF -> utf8_lead b = (pending (b mod 32) 0 1 0x80 0xBF, []).
Proof. intros. unfold utf8_lead. rewrite land_0x1F. N_cases. Qed.

Lemma utf8_lead_3 b :
  0xE0 <= b <= 0xEF ->
  utf8_lead b = (pending (b mod 16) 0 2 (if b =? 0xE0 then 0xA0 else 0x80)
                   (if b =? 0xED then 0x9F else 0xBF), []).
Proof.
  intros. unfold utf8_lead. rewrite land_0xF.
  destruct (b <=? 0x7F) eqn:?; N_bool; [lia|].
  destruct ((0xC2 <=? b) && (b <=? 0xDF)) eqn:?; N_bool; [lia| |];
  (destruct ((0xE0 <=? b) && (b <=? 0xEF)) eqn:?; N_bool; [done|lia|lia]).
Qed.

Lemma utf8_lead_4 b :
  0xF0 <= b <= 0xF4 ->
  utf8_lead b = (pending (b mod 8) 0 3 (if b =? 0xF0 then 0x90 else 0x80)
                   (if b =? 0xF4 then 0x8F else 0xBF), []).
Proof.
  intros. unfold utf8_lead. rewrite land_0x7.
  destruct (b <=? 0x7F) eqn:?; N_bool; [lia|].
  destruct ((0xC2 <=? b) && (b <=? 0xDF)) eqn:?; N_bool; [lia| |];
  (destruct ((0xE0 <=? b) && (b <=? 0xEF)) eqn:?; N_bool; [lia| |]);
  (destruct ((0xF0 <=? b) && (b <=? 0xF4)) eqn:?; N_bool; [done|lia|lia]).
Qed.

Lemma utf8_handler_last cp seen needed lo hi b :
  lo <= b <= hi -> seen + 1 = needed ->
  utf8_handler (pending cp seen needed lo hi) b
  = (utf8_initial, [cp * 64 + b mod 64]).
Proof.
  intros Hb Hn. unfold utf8_handler, pending; cbn -[N.mul N.modulo N.add].
  rewrite land_0x3F, lor_shiftl_6 by lia.
  destruct (needed =? 0) eqn:?; N_bool; [lia|].
  destruct ((lo <=? b) && (b <=? hi)) eqn:?; N_bool; [|lia|lia].
  cbn [negb]. destruct (seen + 1 =? needed) eqn:?; N_bool; [done|lia].
Qed.

Lemma utf8_handler_more cp seen needed lo hi b :
  lo <= b <= hi -> seen + 1 < needed ->
  utf8_handler (pending cp seen needed lo hi) b
  = (pending (cp * 64 + b mod 64) (seen + 1) needed 0x80 0xBF, []).
Proof.
  intros Hb Hn. unfold utf8_handler, pending; cbn -[N.mul N.modulo N.add].
  rewrite land_0x3F, lor_shiftl_6 by lia.
  destruct (needed =? 0) eqn:?; N_bool; [lia|].
  destruct ((lo <=? b) && (b <=? hi)) eqn:?; N_bool; [|lia|lia].
  cbn [negb]. destruct (seen + 1 =? needed) eqn:?; N_bool; [lia|done].
Qed.

(** The decoder reads the bytes of one scalar value back as that value. *)
Lemma utf8_run_encode_scalar cp rest :
  is_scalar_value cp ->
  utf8_run utf8_initial (utf8_encode_scalar cp ++ rest) = cp :: utf8_run utf8_initial rest.
Proof.
  intros [Hcp Hsur]. rewrite utf8_encode_scalar_eq.
  destruct (cp <=? 0x7F) eqn:H1; [|destruct (cp <=? 0x7FF) eqn:H2;
    [|destruct (cp <=? 0xFFFF) eqn:H3]]; N_bool;
    cbn [app utf8_run]; rewrite utf8_handler_initial.
  - rewrite utf8_lead_1 by done. done.
  - rewrite utf8_lead_2 by lia.
    rewrite utf8_handler_last by lia.
    cbn [app]. f_equal. lia.
  - rewrite utf8_lead_3 by lia.
    rewrite utf8_handler_more by (N_cases; lia).
    rewrite utf8_handler_last by lia.
    cbn [app]. f_equal. lia.
  - rewrite utf8_lead_4 by lia.
    rewrite utf8_handler_more by (N_cases; lia).
    rewrite utf8_handler_more by lia.
    rewrite utf8_handler_last by lia.
    cbn [app]. f_equal. lia.
Qed.

Lemma utf8_run_encode cps :
  Forall is_scalar_value cps ->
  utf8_run utf8_initial (cps ≫= utf8_encode_scalar) = cps.
Proof.
  induction 1 as [|cp cps Hcp _ IH]; [done|].
  rewrite bind_cons, utf8_run_encode_scalar by done. by rewrite IH.
Qed.

Lemma to_N_byte_of_N n : n < 256 -> Byte.to_N (byte_of_N n) = n.
Proof.
  intros Hn. unfold byte_of_N. rewrite N.mod_small by done.
  destruct (Byte.of_N n) as [b|] eqn:E.
  - by apply Byte.to_of_N.
  - apply Byte.of_N_None_iff in E. lia.
Qed.

Lemma byte_of_N_to_N b : byte_of_N (Byte.to_N b) = b.
Proof.
  unfold byte_of_N. pose proof (Byte.to_N_bounded b).
  rewrite N.mod_small by lia. by rewrite Byte.of_to_N.
Qed.

Lemma to_N_byte_of_N_list l :
  Forall (fun b => b < 256) l -> Byte.to_N <$> (byte_of_N <$> l) = l.
Proof.
  induction 1 as [|b l Hb _ IH]; [done|].
  cbn [fmap list_fmap] in *. by rewrite to_N_byte_of_N, IH.
Qed.

Lemma byte_of_N_to_N_list (l : bytes) : byte_of_N <$> (Byte.to_N <$> l) = l.
Proof.
  induction l as [|b l IH]; [done|].
  cbn [fmap list_fmap] in *. by rewrite byte_of_N_to_N, IH.
Qed.

Lemma to_scalar_values_cons2 a b s :
  to_scalar_values (a :: b :: s) =
    if is_lead_surrogate a then
      if is_trail_surrogate b
      then surrogate_pair a b :: to_scalar_values s
      else replacement :: to_scalar_values (b :: s)
    else if is_trail_surrogate a then replacement :: to_scalar_values (b :: s)
    else a :: to_scalar_values (b :: s).
Proof. unfold surrogate_pair. rewrite <- shiftl_10. done. Qed.

Lemma to_scalar_values_scalar s :
  is_jsstring s -> Forall is_scalar_value (to_scalar_values s).
Proof.
  unfold is_jsstring, is_code_unit, is_scalar_value.
  induction s as [|a|a b s IH1 IH2] using list_ind2; intros Hs; Forall_heads.
  - constructor.
  - cbn. unfold is_lead_surrogate, is_trail_surrogate, replacement.
    repeat case_match; N_bool; repeat constructor; lia.
  - rewrite to_scalar_values_cons2.
    unfold is_lead_surrogate, is_trail_surrogate, replacement, surrogate_pair.
    repeat case_match; N_bool;
      (apply Forall_cons_2; [lia|]); first [by apply IH1 | apply IH2; by constructor].
Qed.

Lemma utf8_decode_encode s :
  is_jsstring s -> utf8_decode (TextEncoder_encode s) = to_scalar_values s.
Proof.
  intros Hs. unfold utf8_decode, TextEncoder_encode.
  pose proof (to_scalar_values_scalar s Hs) as Hsc.
  rewrite to_N_byte_of_N_list, utf8_run_encode; [done|done|].
  apply Forall_bind. eapply Forall_impl; [exact Hsc|].
  intros cp [Hcp _]. by apply utf8_encode_scalar_octets.
Qed.

(** What a text survives as after [encode] and [decode]: unpaired
    surrogates are replaced and a leading byte order mark is dropped. *)
Lemma TextDecoder_TextEncoder s :
  is_jsstring s ->
  TextDecoder_decode (TextEncoder_encode s)
  = strip_bom (to_scalar_values s) ≫= code_units.
Proof. intros Hs. unfold TextDecoder_decode. by rewrite utf8_decode_encode. Qed.

Lemma to_scalar_values_code_units s :
  is_jsstring s -> isWellFormed s = true -> to_scalar_values s ≫= code_units = s.
Proof.
  unfold is_jsstring, is_code_unit.
  induction s as [|a|a b s IH1 IH2] using list_ind2; intros Hs Hwf; Forall_heads.
  - done.
  - cbn [to_scalar_values isWellFormed] in *.
    destruct (is_lead_surrogate a); [done|].
    destruct (is_trail_surrogate a); [done|].
    cbn. unfold code_units. case_match; N_bool; [done|lia].
  - rewrite to_scalar_values_cons2.
    change (isWellFormed (a :: b :: s)) with
      (if is_lead_surrogate a then is_trail_surrogate b && isWellFormed s
       else negb (is_trail_surrogate a) && isWellFormed (b :: s)) in Hwf.
    destruct (is_lead_surrogate a) eqn:Ha.
    + apply andb_true_iff in Hwf as [Hb Hwf]. rewrite Hb.
      rewrite bind_cons, IH1 by done.
      unfold is_lead_surrogate, is_trail_surrogate, code_units, surrogate_pair in *.
      rewrite shiftr_10, land_0x3FF. N_bool.
      case_match; N_bool; [lia|].
      cbn [app]. f_equal; [lia|f_equal; lia].
    + apply andb_true_iff in Hwf as [Hb Hwf]. apply negb_true_iff in Hb. rewrite Hb.
      rewrite bind_cons, IH2 by (done || by constructor).
      unfold code_units. case_match; N_bool; [done|lia].
Qed.

Lemma strip_bom_to_scalar_values s :
  is_jsstring s -> head s ≠ Some byte_order_mark ->
  strip_bom (to_scalar_values s) = to_scalar_values s.
Proof.
  intros Hs Hhd. destruct s as [|a s]; [done|].
  apply Forall_cons_1 in Hs as [Ha Hs]. unfold is_code_unit in Ha.
  assert (a ≠ byte_order_mark) as Hne by (intros ->; by apply Hhd).
  clear Hhd. unfold byte_order_mark in Hne.
  destruct s as [|b s]; [cbn [to_scalar_values]|rewrite to_scalar_values_cons2];
    unfold is_lead_surrogate, is_trail_surrogate, strip_bom, replacement,
      byte_order_mark, surrogate_pair in *;
    repeat case_match; N_bool; simplify_eq; try done; try lia.
Qed.

(** A well-formed text that does not start with U+FEFF is unchanged. *)
Lemma TextDecoder_TextEncoder_well_formed s :
  is_jsstring s -> isWellFormed s = true -> head s ≠ Some byte_order_mark ->
  TextDecoder_decode (TextEncoder_encode s) = s.
Proof.
  intros Hs Hwf Hhd.
  rewrite TextDecoder_TextEncoder, strip_bom_to_scalar_values by done.
  by apply to_scalar_values_code_units.
Qed.

End Utf8Facts.

(** ** The toy instance meets the laws *)

Section ToyFacts.
Import Js Crypto Toy.

Lemma to_N_power base exponent :
  Z.of_N (Byte.to_N (power base exponent))
  = ((Z.of_N (Byte.to_N base) ^ Z.of_N (Byte.to_N exponent)) mod 251)%Z.
Proof.
  unfold power.
  set (x := (_ ^ _)%Z).
  assert (0 <= x mod 251 < 251)%Z as Hx by (apply Z.mod_pos_bound; lia).
  rewrite to_N_byte_of_N by lia. lia.
Qed.

Lemma power_power base a b : power (power base a) b = power (power base b) a.
Proof.
  unfold power at 1 3. rewrite !to_N_power, !Z.mod_pow_l.
  rewrite <- !Z.pow_mul_r by lia. by rewrite Z.mul_comm.
Qed.

Lemma length_tag key iv : length (tag key iv) = 16%nat.
Proof.
  unfold tag. rewrite length_take, !length_app, length_replicate. lia.
Qed.

#[export] Instance toy_laws : SubtleCryptoLaws toy.
Proof.
  split.
  - intros a b len. cbn. by rewrite power_power.
  - intros pub priv. cbn. by rewrite length_replicate.
  - done.
  - intros key iv data. cbn [AES_GCM_decrypt AES_GCM_encrypt toy].
    rewrite length_app, length_reverse, length_tag.
    assert (length data + 16 - 16 = length (reverse data))%nat as ->
      by (rewrite length_reverse; lia).
    rewrite drop_app_length, take_app_length, reverse_involutive.
    rewrite bool_decide_eq_true_2; [done|]. split; [lia|done].
Qed.

End ToyFacts.

(** ** The encryption service *)

Section EncryptionFacts.
Import Js Base64 Encoding Wire Crypto Encryption Chat.
Context {sc : SubtleCrypto}.

Lemma to_N_octets (buffer : bytes) : Forall octet (Byte.to_N <$> buffer).
Proof.
  apply Forall_fmap, Forall_forall. intros b _. unfold octet; cbn.
  pose proof (Byte.to_N_bounded b). lia.
Qed.

Lemma arrayBufferToBase64_eq buffer :
  arrayBufferToBase64 buffer = Return (encode (Byte.to_N <$> buffer)).
Proof. unfold arrayBufferToBase64. apply atob_btoa, to_N_octets. Qed.

Lemma base64ToArrayBuffer_arrayBufferToBase64 buffer :
  base64ToArrayBuffer (encode (Byte.to_N <$> buffer)) = Return buffer.
Proof.
  unfold base64ToArrayBuffer.
  rewrite (proj2 (atob_btoa _ (to_N_octets buffer))). cbn.
  by rewrite byte_of_N_to_N_list.
Qed.

(** The transport encoding of a buffer determines the buffer. *)
Lemma encode_inj (l1 l2 : bytes) :
  encode (Byte.to_N <$> l1) = encode (Byte.to_N <$> l2) -> l1 = l2.
Proof.
  intros H. pose proof (base64ToArrayBuffer_arrayBufferToBase64 l1) as H1.
  rewrite H, base64ToArrayBuffer_arrayBufferToBase64 in H1. congruence.
Qed.

Lemma base64ToArrayBuffer_cases s :
  (exists buffer, base64ToArrayBuffer s = Return buffer)
  \/ base64ToArrayBuffer s = Throw InvalidCharacterError.
Proof.
  unfold base64ToArrayBuffer, atob. destruct (forgiving_decode s); [left|right]; by eauto.
Qed.

Lemma importKey_AES_cases raw :
  importKey_AES raw = Return raw \/ importKey_AES raw = Throw DataError.
Proof. unfold importKey_AES. case_bool_decide; auto. Qed.

Lemma encryptMessage_unknown_peer t message id :
  peerPublicKeys (instance t) !! id = None ->
  encryptMessage message id t = (Throw (no_public_key id), t).
Proof. intros H. unfold encryptMessage, mbind, eff_bind, gets. by rewrite H. Qed.

Lemma decryptMessage_unknown_peer t envelope id :
  peerPublicKeys (instance t) !! id = None ->
  decryptMessage envelope id t = (Throw (no_public_key id), t).
Proof. intros H. unfold decryptMessage, mbind, eff_bind, gets. by rewrite H. Qed.

Lemma set_tab_tab (c : Chat) : set_tab (tab c) c = c.
Proof. by destruct c. Qed.

(** A call of the service that throws without having written to the tab
    throws in the component and leaves it as it was. *)
Lemma encryptionService_throw {A} (call : Eff Tab A) (c : Chat) e :
  call (tab c) = (Throw e, tab c) -> encryptionService call c = (Throw e, c).
Proof. intros H. unfold encryptionService, zoom. by rewrite H, set_tab_tab. Qed.

Lemma handleReceiveMessage_unknown_peer c data :
  peerPublicKeys (instance (tab c)) !! ReceiveMessage.sender data = None ->
  handleReceiveMessage data c
  = setMessages (fun prev => prev ++ [undecryptable data]) c.
Proof.
  intros H. unfold handleReceiveMessage, try_catch, mbind, eff_bind.
  by rewrite (encryptionService_throw _ _ _ (decryptMessage_unknown_peer _ _ _ H)).
Qed.

Lemma handleMessageEdit_unknown_peer c data :
  peerPublicKeys (instance (tab c)) !! MessageEdit.sender data = None ->
  handleMessageEdit data c = (Return (), c).
Proof.
  intros H. unfold handleMessageEdit, try_catch, mbind, eff_bind.
  by rewrite (encryptionService_throw _ _ _ (decryptMessage_unknown_peer _ _ _ H)).
Qed.

Lemma sendMessage_unknown_peer c roomId message recipientId media replyTo messageId timestamp :
  peerPublicKeys (instance (tab c)) !! recipientId = None ->
  sendMessage roomId message recipientId media replyTo messageId timestamp c
  = (Return (), c).
Proof.
  intros H. unfold sendMessage, try_catch, mbind, eff_bind, gets.
  destruct (userId c) as [u|]; [|done].
  destruct (socket c && truthy u); [|done].
  by rewrite (encryptionService_throw _ _ _ (encryptMessage_unknown_peer _ _ _ H)).
Qed.

(** C5.  For an identity without an imported public key, [encryptMessage]
    and [decryptMessage] throw the error "No public key found for user
    <id>" and write nothing.  The callers catch it: [handleReceiveMessage]
    appends the placeholder of an undecryptable message, [handleMessageEdit]
    and [sendMessage] return normally and leave the component as it was;
    the session goes on. *)
Theorem unknown_peer_error (t : Tab) (id : string) :
  peerPublicKeys (instance t) !! id = None ->
  (forall message, encryptMessage message id t = (Throw (no_public_key id), t)) /\
  (forall envelope, decryptMessage envelope id t = (Throw (no_public_key id), t)) /\
  (forall c data, tab c = t -> ReceiveMessage.sender data = id ->
     handleReceiveMessage data c
     = setMessages (fun prev => prev ++ [undecryptable data]) c) /\
  (forall c data, tab c = t -> MessageEdit.sender data = id ->
     handleMessageEdit data c = (Return (), c)) /\
  (forall c roomId message media replyTo messageId timestamp, tab c = t ->
     sendMessage roomId message id media replyTo messageId timestamp c = (Return (), c)).
Proof.
  intros H. repeat split.
  - intros. by apply encryptMessage_unknown_peer.
  - intros. by apply decryptMessage_unknown_peer.
  - intros c data <- <-. by apply handleReceiveMessage_unknown_peer.
  - intros c data <- <-. by apply handleMessageEdit_unknown_peer.
  - intros c ? ? ? ? ? ? <-. by apply sendMessage_unknown_peer.
Qed.

(** C9.  With a public key stored for the peer: when no key pair was ever
    generated, [encryptMessage] and [decryptMessage] throw the [TypeError]
    of reading [privateKey] of [null], neither the unknown-peer error nor
    a result; when a key pair is there, neither call throws that
    [TypeError]; and [generateKeyPair] leaves a key pair. *)
Theorem null_key_pair (t : Tab) (id : string) (pub : PublicKey) :
  peerPublicKeys (instance t) !! id = Some pub ->
  (keyPair (instance t) = None ->
     forall message envelope,
       encryptMessage message id t = (Throw TypeError, t) /\
       decryptMessage envelope id t = (Throw TypeError, t)) /\
  (keyPair (instance t) ≠ None ->
     forall message envelope,
       (encryptMessage message id t).1 ≠ Throw TypeError /\
       (decryptMessage envelope id t).1 ≠ Throw TypeError) /\
  keyPair (instance (generateKeyPair t).2) ≠ None.
Proof.
  intros Hpub. split; [|split].
  - intros Hkp message envelope.
    unfold encryptMessage, decryptMessage, mbind, eff_bind, gets, lift.
    by rewrite Hpub, Hkp.
  - intros Hkp message envelope. destruct (keyPair (instance t)) as [kp|] eqn:E; [|done].
    unfold encryptMessage, decryptMessage, mbind, eff_bind, gets, lift, getRandomValues.
    rewrite Hpub, E. cbn [nonnull].
    destruct (importKey_AES_cases (deriveBits pub (privateKey kp) 256)) as [-> | ->];
      [|done].
    rewrite arrayBufferToBase64_eq. split; [done|].
    destruct (base64ToArrayBuffer_cases envelope) as [[buffer ->] | ->]; [|done].
    by destruct (AES_GCM_decrypt _ _ _).
  - unfold generateKeyPair, subtle_generateKey, mbind, eff_bind, modify.
    by destruct (generateKey (entropy t)).
Qed.

Context {laws : SubtleCryptoLaws sc}.

Lemma importKey_AES_deriveBits pub priv :
  importKey_AES (deriveBits pub priv 256) = Return (deriveBits pub priv 256).
Proof.
  unfold importKey_AES. rewrite deriveBits_length.
  rewrite bool_decide_true; [done|]. auto.
Qed.

Lemma encryptMessage_eq t message recipientId pub kp :
  peerPublicKeys (instance t) !! recipientId = Some pub ->
  keyPair (instance t) = Some kp ->
  encryptMessage message recipientId t =
    (Return (envelope (deriveBits pub (privateKey kp) 256) (entropy t <$> seq 0 12) message),
     drawn 12 t).
Proof.
  intros Hpub Hkp. unfold encryptMessage, mbind, eff_bind, gets, lift.
  rewrite Hpub, Hkp. cbn [nonnull].
  rewrite importKey_AES_deriveBits. unfold getRandomValues.
  by rewrite arrayBufferToBase64_eq.
Qed.

Lemma decryptMessage_envelope t senderId pub kp iv message :
  peerPublicKeys (instance t) !! senderId = Some pub ->
  keyPair (instance t) = Some kp ->
  length iv = 12%nat ->
  decryptMessage (envelope (deriveBits pub (privateKey kp) 256) iv message) senderId t
  = (Return (TextDecoder_decode (TextEncoder_encode message)), t).
Proof.
  intros Hpub Hkp Hiv. unfold decryptMessage, mbind, eff_bind, gets, lift, envelope.
  rewrite Hpub, Hkp. cbn [nonnull].
  rewrite importKey_AES_deriveBits, base64ToArrayBuffer_arrayBufferToBase64.
  rewrite take_app_length', drop_app_length' by done.
  by rewrite AES_GCM_decrypt_encrypt.
Qed.

Lemma decryptMessage_encryptMessage A B idA idB P :
  mutual_key_exchange A B idA idB ->
  exists envelope,
    encryptMessage P idB A = (Return envelope, drawn 12 A) /\
    decryptMessage envelope idA B
    = (Return (TextDecoder_decode (TextEncoder_encode P)), B).
Proof.
  intros (a & b & HkA & HkB & HpA & HpB).
  eexists. split; [by apply encryptMessage_eq|].
  rewrite <- ecdh_agreement.
  apply decryptMessage_envelope; [done|done|].
  by rewrite length_fmap, length_seq.
Qed.

Lemma getPublicKeyAsString_generated t kp :
  keyPair (instance t) = Some kp ->
  getPublicKeyAsString t = (Return (key_string kp), t).
Proof.
  intros Hkp. unfold getPublicKeyAsString, mbind, eff_bind, gets, lift, mret, eff_ret.
  rewrite Hkp. cbn [nonnull]. rewrite Hkp. cbn [nonnull].
  by rewrite arrayBufferToBase64_eq.
Qed.

Lemma addPeerPublicKey_exported t userId kp :
  addPeerPublicKey userId (key_string kp) t
  = (Return (), set_peerPublicKey userId (publicKey kp) t).
Proof.
  unfold addPeerPublicKey, key_string, mbind, eff_bind, lift.
  rewrite base64ToArrayBuffer_arrayBufferToBase64.
  by rewrite importKey_exportKey.
Qed.

(** The handshake of the sources establishes [mutual_key_exchange]: each
    side generates its key pair, exports its public key and stores the key
    string received from the other side. *)
Lemma handshake_mutual_key_exchange A0 B0 idA idB :
  exists A1 B1 kA kB A2 B2,
    generateKeyPair A0 = (Return (), A1) /\
    generateKeyPair B0 = (Return (), B1) /\
    getPublicKeyAsString A1 = (Return kA, A1) /\
    getPublicKeyAsString B1 = (Return kB, B1) /\
    addPeerPublicKey idB kB A1 = (Return (), A2) /\
    addPeerPublicKey idA kA B1 = (Return (), B2) /\
    mutual_key_exchange A2 B2 idA idB.
Proof.
  unfold generateKeyPair, subtle_generateKey, mbind, eff_bind, modify.
  destruct (generateKey (entropy A0)) as [kpA a1] eqn:Ea.
  destruct (generateKey (entropy B0)) as [kpB b1] eqn:Eb.
  eexists _, _, _, _, _, _.
  repeat split; [by apply getPublicKeyAsString_generated
                |by apply getPublicKeyAsString_generated
                |apply addPeerPublicKey_exported
                |apply addPeerPublicKey_exported|].
  exists (entropy A0), (entropy B0). rewrite Ea, Eb. cbn.
  by rewrite !lookup_insert_eq.
Qed.

(** C6, as amended.  Each call of [encryptMessage] draws 12 fresh bytes of
    entropy as its IV and puts them in front of the ciphertext; of two
    successive calls for the same text and peer, the envelopes are equal
    exactly when the two IVs drawn are equal. *)
Theorem envelopes_differ_iff_nonces_differ (t : Tab) message id pub kp :
  peerPublicKeys (instance t) !! id = Some pub ->
  keyPair (instance t) = Some kp ->
  let key := deriveBits pub (privateKey kp) 256 in
  let iv1 := entropy t <$> seq 0 12 in
  let iv2 := entropy t <$> seq 12 12 in
  exists first second,
    encrypt_twice message id t = (Return (first, second), drawn 12 (drawn 12 t)) /\
    base64ToArrayBuffer first
      = Return (iv1 ++ AES_GCM_encrypt key iv1 (TextEncoder_encode message)) /\
    base64ToArrayBuffer second
      = Return (iv2 ++ AES_GCM_encrypt key iv2 (TextEncoder_encode message)) /\
    (first = second <-> iv1 = iv2).
Proof.
  intros Hpub Hkp key iv1 iv2.
  exists (envelope key iv1 message), (envelope key iv2 message).
  split; [|split; [|split]].
  - unfold encrypt_twice, mbind, eff_bind, mret, eff_ret.
    rewrite (encryptMessage_eq t message id pub kp Hpub Hkp).
    rewrite (encryptMessage_eq (drawn 12 t) message id pub kp Hpub Hkp).
    done.
  - apply base64ToArrayBuffer_arrayBufferToBase64.
  - apply base64ToArrayBuffer_arrayBufferToBase64.
  - split; [|by intros ->].
    intros H%encode_inj. apply app_inj_1 in H as [H _]; [done|].
    subst iv1 iv2. by rewrite !length_fmap, !length_seq.
Qed.

(** What [decryptMessage] returns for the envelope of any text: the text
    with its unpaired surrogates replaced by U+FFFD and without a leading
    U+FEFF. *)
Theorem decrypt_encrypt A B idA idB P :
  mutual_key_exchange A B idA idB ->
  is_jsstring P ->
  exists envelope,
    encryptMessage P idB A = (Return envelope, drawn 12 A) /\
    decryptMessage envelope idA B
    = (Return (strip_bom (to_scalar_values P) ≫= code_units), B).
Proof.
  intros Hx HP. destruct (decryptMessage_encryptMessage A B idA idB P Hx) as (env & H1 & H2).
  exists env. split; [done|]. by rewrite H2, TextDecoder_TextEncoder.
Qed.

(** C1, as amended.  After a mutual key exchange between A and B, for
    every text P that is well-formed UTF-16 and does not start with
    U+FEFF, B's [decryptMessage] returns P for the envelope that A's
    [encryptMessage] made of P for B. *)
Theorem decrypt_encrypt_well_formed A B idA idB P :
  mutual_key_exchange A B idA idB ->
  is_jsstring P -> isWellFormed P = true -> head P ≠ Some byte_order_mark ->
  exists envelope,
    encryptMessage P idB A = (Return envelope, drawn 12 A) /\
    decryptMessage envelope idA B = (Return P, B).
Proof.
  intros Hx HP Hwf Hbom.
  destruct (decryptMessage_encryptMessage A B idA idB P Hx) as (env & H1 & H2).
  exists env. split; [done|]. by rewrite H2, TextDecoder_TextEncoder_well_formed.
Qed.

End EncryptionFacts.

(** ** The relay *)

Section SocketServiceFacts.
Import Wire SocketService.



Lemma to_emit_event socket_id room event rooms :
  Forall (fun d => d.2 = event) (to_emit socket_id room event rooms).
Proof. unfold to_emit. apply Forall_fmap, Forall_forall. done. Qed.

Lemma on_deliveries socket_id event rooms room :
  scope event = Some room ->
  (on socket_id event rooms).2
  = to_emit socket_id room (relayed socket_id event) (on socket_id event rooms).1.
Proof. destruct event; intros Hs; simplify_eq/=; try done. by rewrite Hs. Qed.



End SocketServiceFacts.

(** ** Reactions *)

Section ReactionFacts.
Import Js Wire Crypto Encryption Chat.
Context {sc : SubtleCrypto}.

Lemma same_reaction_true userId emoji r :
  same_reaction userId emoji r = true <-> r = reaction userId emoji.
Proof.
  unfold same_reaction, reaction. rewrite andb_true_iff, !String.eqb_eq.
  destruct r; cbn. split; [by intros [-> ->]|by intros [= -> ->]].
Qed.

Lemma own_reaction_true userId emoji r :
  own_reaction (Some userId) emoji r = true <-> r = reaction userId emoji.
Proof.
  unfold own_reaction, reaction. rewrite andb_true_iff, bool_decide_eq_true, String.eqb_eq.
  destruct r; cbn. split; [by intros [[= ->] ->]|by intros [= -> ->]].
Qed.

(** The branch of [handleMessageReaction] on the reactions of a message
    is the toggle. *)
Lemma toggle_relayed userId emoji remove l :
  (if default false remove then
     List.filter (fun r => negb (same_reaction userId emoji r)) l
   else
     let exists_ := existsb (same_reaction userId emoji) l in
     if negb exists_ then l ++ [reaction userId emoji] else l)
  = toggle (reaction userId emoji) remove l.
Proof.
  unfold toggle. destruct (default false remove).
  - rewrite List_filter_stdpp. apply list_filter_iff. intros x.
    rewrite negb_true_iff, <- not_true_iff_false, same_reaction_true. done.
  - cbn zeta. destruct (existsb _ l) eqn:E; cbn [negb].
    + rewrite bool_decide_eq_true_2; [done|].
      apply existsb_Exists, Exists_exists in E as (x & Hx & ->%same_reaction_true). done.
    + rewrite bool_decide_eq_false_2; [done|]. intros Hin.
      apply not_true_iff_false in E. apply E, existsb_Exists, Exists_exists.
      exists (reaction userId emoji). split; [done|]. by apply same_reaction_true.
Qed.

(** So is the branch of [handleReaction], for a user with an identity. *)
Lemma toggle_local userId emoji remove l :
  truthy userId = true ->
  (if default false remove then
     List.filter (fun r => negb (own_reaction (Some userId) emoji r)) l
   else
     let existingReaction := List.find (own_reaction (Some userId) emoji) l in
     if negb (bool_decide (is_Some existingReaction)) then
       l ++ [{| Reaction.userId := or_else (Some userId) "unknown";
                Reaction.emoji := emoji |}]
     else l)
  = toggle (reaction userId emoji) remove l.
Proof.
  intros Hu. unfold toggle, or_else. rewrite Hu. destruct (default false remove).
  - rewrite List_filter_stdpp. apply list_filter_iff. intros x.
    rewrite negb_true_iff, <- not_true_iff_false, own_reaction_true. done.
  - cbn zeta. erewrite (bool_decide_ext (is_Some _)); [|apply find_is_Some].
    erewrite (bool_decide_ext (Exists _ _) (reaction userId emoji ∈ l)).
    + by destruct (bool_decide _).
    + rewrite Exists_exists. split.
      * by intros (x & Hx & ->%own_reaction_true).
      * intros Hin. eexists. split; [done|]. by apply own_reaction_true.
Qed.

Lemma toggle_NoDup r remove l : NoDup l -> NoDup (toggle r remove l).
Proof.
  intros Hl. unfold toggle. destruct (default false remove).
  - by apply NoDup_filter.
  - case_bool_decide; [done|]. apply NoDup_app. repeat split; [done| |apply NoDup_singleton].
    intros x Hx ->%list_elem_of_singleton. done.
Qed.

Lemma toggle_add_elem r remove l : default false remove = false -> r ∈ toggle r remove l.
Proof.
  intros Hr. unfold toggle. rewrite Hr. case_bool_decide; [done|].
  apply elem_of_app. right. by apply list_elem_of_singleton.
Qed.

Lemma toggle_remove_elem r remove l : default false remove = true -> r ∉ toggle r remove l.
Proof.
  intros Hr. unfold toggle. rewrite Hr. rewrite list_elem_of_filter. tauto.
Qed.

Lemma react_toggled r remove msg : toggled r remove msg (react r remove msg).
Proof.
  unfold toggled, react, reactions_of at 2 4 6 8;
    cbn [Message.with_reactions Message.reactions default].
  repeat split.
  - intros Hr Hin. unfold toggle. rewrite Hr. by rewrite bool_decide_eq_true_2.
  - intros Hr Hin. unfold toggle. rewrite Hr.
    apply filter_Forall_id, Forall_forall. by intros x Hx ->.
  - apply toggle_NoDup.
  - intros Hr Hnd. apply occurrences_NoDup; [by apply toggle_NoDup|by apply toggle_add_elem].
Qed.

Lemma handleMessageReaction_messages data c :
  (handleMessageReaction data c).1 = Return () /\
  messages (handleMessageReaction data c).2
  = (fun msg =>
       if String.eqb (Message.id msg) (MessageReaction.messageId data)
       then react (reaction (MessageReaction.userId data) (MessageReaction.emoji data))
              (MessageReaction.remove data) msg
       else msg) <$> messages c.
Proof.
  split; [done|]. cbn. apply list_fmap_ext. intros _ msg _.
  case_match; [|done]. unfold react. by rewrite <- toggle_relayed.
Qed.

Lemma handleReaction_messages messageId emoji remove c user room :
  userId c = Some user -> truthy user = true ->
  selectedRoom c = Some room -> truthy room = true ->
  (handleReaction messageId emoji remove c).1 = Return () /\
  messages (handleReaction messageId emoji remove c).2
  = (fun msg =>
       if String.eqb (Message.id msg) messageId
       then react (reaction user emoji) remove msg
       else msg) <$> messages c.
Proof.
  intros Hu Htu Hr Htr.
  unfold handleReaction, mbind, eff_bind, gets, emit_if_socket. rewrite Hr, Hu, Htr.
  cbn. split; [by destruct (socket c)|].
  transitivity ((fun msg =>
       if String.eqb (Message.id msg) messageId
       then react (reaction user emoji) remove msg
       else msg) <$> messages c); [|done].
  destruct (socket c); cbn; apply list_fmap_ext; intros _ msg _;
    (case_match; [|done]); unfold react; by rewrite <- toggle_local.
Qed.

(** C7.  For a message of the list and a reaction event on it, relayed by
    the server ([handleMessageReaction]) or made by the local user
    ([handleReaction], for a user with an identity and a selected room):
    the handler returns normally, and the message afterwards relates to
    the message before as [toggled] says: adding a pair of user and emoji
    that is present changes nothing, removing one that is absent changes
    nothing, no duplicate pair appears, and after an addition the pair
    occurs exactly once. *)
Theorem reaction_toggle (c : Chat) (i : nat) (msg : Message.t) :
  messages c !! i = Some msg ->
  (forall data,
     Message.id msg = MessageReaction.messageId data ->
     (handleMessageReaction data c).1 = Return () /\
     exists msg',
       messages (handleMessageReaction data c).2 !! i = Some msg' /\
       toggled (reaction (MessageReaction.userId data) (MessageReaction.emoji data))
         (MessageReaction.remove data) msg msg') /\
  (forall emoji remove user room,
     userId c = Some user -> truthy user = true ->
     selectedRoom c = Some room -> truthy room = true ->
     (handleReaction (Message.id msg) emoji remove c).1 = Return () /\
     exists msg',
       messages (handleReaction (Message.id msg) emoji remove c).2 !! i = Some msg' /\
       toggled (reaction user emoji) remove msg msg').
Proof.
  intros Hi. split.
  - intros data Hid. destruct (handleMessageReaction_messages data c) as [Hret ->].
    split; [done|]. eexists. split.
    + rewrite list_lookup_fmap, Hi. cbn. rewrite Hid, String.eqb_refl. done.
    + apply react_toggled.
  - intros emoji remove user room Hu Htu Hr Htr.
    destruct (handleReaction_messages (Message.id msg) emoji remove c user room
                Hu Htu Hr Htr) as [Hret ->].
    split; [done|]. eexists. split.
    + rewrite list_lookup_fmap, Hi. cbn. rewrite String.eqb_refl. done.
    + apply react_toggled.
Qed.

End ReactionFacts.

(** ** The message list under the handlers *)

Section MessageFacts.
Import Js Wire Crypto Encryption Chat.
Context {sc : SubtleCrypto}.

(** The reactions of the messages, one list per message. *)
Lemma reactions_unique_fmap c :
  reactions_unique c <-> Forall (NoDup (A:=Reaction.t)) (reactions_of <$> messages c).
Proof. unfold reactions_unique. by rewrite Forall_fmap. Qed.

Lemma handleReceiveMessage_messages data c :
  exists msg,
    messages (after (handleReceiveMessage data) c) = messages c ++ [msg] /\
    Message.id msg = ReceiveMessage.id data /\
    Message.reactions msg = Some [].
Proof.
  unfold after, handleReceiveMessage, try_catch, mbind, eff_bind, encryptionService, zoom,
    gets, lift, mret, eff_ret.
  destruct (decryptMessage _ _ (tab c)) as [[text|e] t']; cbn.
  2:{ eexists. split; [done|]. done. }
  destruct (ReceiveMessage.media data) as [media|]; cbn.
  - destruct (MediaEncryption.decryptMedia _ _) as [decrypted|e]; cbn.
    + destruct (userId c) as [u|], (selectedRoom c) as [r|]; cbn;
        try (destruct (socket c && truthy u && truthy r); cbn);
        eexists; (split; [done|]); done.
    + eexists. split; [done|]. done.
  - destruct (userId c) as [u|], (selectedRoom c) as [r|]; cbn;
      try (destruct (socket c && truthy u && truthy r); cbn);
      eexists; (split; [done|]); done.
Qed.

Lemma handleMessageEdit_messages data c :
  exists f,
    messages (after (handleMessageEdit data) c) = f <$> messages c /\
    forall msg, reactions_of (f msg) = reactions_of msg /\
                Message.id (f msg) = Message.id msg /\
                Message.sender (f msg) = Message.sender msg.
Proof.
  unfold after, handleMessageEdit, try_catch, mbind, eff_bind, encryptionService, zoom.
  destruct (decryptMessage _ _ (tab c)) as [[text|e] t']; cbn.
  - exists (fun msg =>
              if String.eqb (Message.id msg) (MessageEdit.id data)
              then Message.with_text text (MessageEdit.editedAt data) msg
              else msg).
    split; [done|]. intros msg. by destruct (String.eqb _ _).
  - exists id. split; [by rewrite list_fmap_id|done].
Qed.

Lemma handleMessageDelete_messages data c :
  messages (after (handleMessageDelete data) c)
  = (fun msg => if String.eqb (Message.id msg) (MessageDelete.id data)
                then Message.with_isDeleted msg else msg) <$> messages c.
Proof. done. Qed.

Lemma handleMessageRead_messages data c :
  exists f,
    messages (after (handleMessageRead data) c) = f <$> messages c /\
    forall msg, reactions_of (f msg) = reactions_of msg.
Proof.
  unfold after, handleMessageRead, mbind, eff_bind, gets.
  case_bool_decide; cbn.
  - exists id. split; [by rewrite list_fmap_id|done].
  - exists (fun msg =>
              if String.eqb (Message.id msg) (MessageRead.messageId data) then
                let readBy := default [] (Message.readBy msg) in
                if negb (bool_decide (MessageRead.userId data ∈ readBy))
                then Message.with_readBy (readBy ++ [MessageRead.userId data]) msg
                else msg
              else msg).
    split; [done|]. intros msg. cbn zeta.
    destruct (String.eqb _ _); [|done]. by destruct (negb _).
Qed.

Lemma handleUserTyping_messages data now c :
  messages (after (handleUserTyping data now) c) = messages c.
Proof.
  unfold after, handleUserTyping, mbind, eff_bind, gets. cbn. by destruct (_ || _).
Qed.

Lemma handleUserConnected_messages connectedUserId c :
  messages (after (handleUserConnected connectedUserId) c) = messages c.
Proof.
  unfold after, handleUserConnected, mbind, eff_bind, gets, encryptionService, zoom.
  destruct (userId c) as [u|]; [|done]. destruct (truthy u); [|done].
  by destruct (getPublicKeyAsString (tab c)) as [[key|e] t'].
Qed.

Lemma handleKeyExchange_messages data c :
  messages (after (handleKeyExchange data) c) = messages c.
Proof.
  unfold after, handleKeyExchange, mbind, eff_bind, gets, encryptionService, zoom.
  destruct (addPeerPublicKey _ _ (tab c)) as [[[]|e] t']; [|done]. cbn.
  destruct (userId c) as [u|]; [|done]. destruct (truthy u && _); [|done].
  cbn. by destruct (getPublicKeyAsString t') as [[key|e] t''].
Qed.

Lemma reactions_unique_map c c' (f : Message.t -> Message.t) :
  messages c' = f <$> messages c ->
  (forall msg, NoDup (reactions_of msg) -> NoDup (reactions_of (f msg))) ->
  reactions_unique c -> reactions_unique c'.
Proof.
  unfold reactions_unique. intros -> Hf H. apply Forall_fmap.
  eapply Forall_impl; [exact H|]. exact Hf.
Qed.

(** No event that the server relays makes a pair of user and emoji occur
    twice in the reactions of a message. *)
Theorem reactions_unique_on event now c :
  reactions_unique c -> reactions_unique (after (on event now) c).
Proof.
  intros H. destruct event as [u|data|data|data|data|data|data|data]; cbn [on].
  - unfold reactions_unique. by rewrite handleUserConnected_messages.
  - destruct (handleReceiveMessage_messages data c) as (msg & Hm & _ & Hr).
    unfold reactions_unique. rewrite Hm. apply Forall_app. split; [done|].
    apply Forall_singleton. unfold reactions_of. rewrite Hr. constructor.
  - destruct (handleMessageEdit_messages data c) as (f & Hm & Hf).
    apply (reactions_unique_map c _ f Hm); [|done]. intros msg. by destruct (Hf msg) as [-> _].
  - apply (reactions_unique_map c _ _ (handleMessageDelete_messages data c)); [|done].
    intros msg. by case_match.
  - apply (reactions_unique_map c _ _ (proj2 (handleMessageReaction_messages data c)));
      [|done].
    intros msg Hnd. case_match; [|done]. by apply react_toggled.
  - destruct (handleMessageRead_messages data c) as (f & Hm & Hf).
    apply (reactions_unique_map c _ f Hm); [|done]. intros msg. by rewrite Hf.
  - unfold reactions_unique. by rewrite handleUserTyping_messages.
  - unfold reactions_unique. by rewrite handleKeyExchange_messages.
Qed.

(** Nor does a reaction of the local user. *)
Theorem reactions_unique_handleReaction messageId emoji remove c user :
  userId c = Some user -> truthy user = true ->
  reactions_unique c -> reactions_unique (after (handleReaction messageId emoji remove) c).
Proof.
  intros Hu Htu H. unfold after.
  destruct (selectedRoom c) as [room|] eqn:Hr.
  - destruct (truthy room) eqn:Htr.
    + apply (reactions_unique_map c _ _
        (proj2 (handleReaction_messages messageId emoji remove c user room Hu Htu Hr Htr)));
        [|done].
      intros msg Hnd. case_match; [|done]. by apply react_toggled.
    + unfold handleReaction, mbind, eff_bind, gets. by rewrite Hr, Htr.
  - unfold handleReaction, mbind, eff_bind, gets. by rewrite Hr.
Qed.

(** *** Edits and deletions *)

Lemma handleDeleteMessage_messages messageId c :
  messages (after (handleDeleteMessage messageId) c)
  = (fun msg => if String.eqb (Message.id msg) messageId
                then Message.with_isDeleted msg else msg) <$> messages c.
Proof.
  unfold after, handleDeleteMessage, mbind, eff_bind, gets, emit_if_socket. cbn.
  by destruct (socket c).
Qed.

(** C4, as the code behaves.  The local user can delete any message of
    the list, whoever sent it: [handleDeleteMessage] marks every message
    of the id as deleted and does not look at its sender, which stays
    what it was. *)
Theorem handleDeleteMessage_any_sender c i msg :
  messages c !! i = Some msg ->
  exists msg',
    messages (after (handleDeleteMessage (Message.id msg)) c) !! i = Some msg' /\
    Message.isDeleted msg' = Some true /\
    Message.sender msg' = Message.sender msg.
Proof.
  intros Hi. rewrite handleDeleteMessage_messages, list_lookup_fmap, Hi. cbn.
  rewrite String.eqb_refl. eexists. split; [done|]. done.
Qed.

(** A deletion that the server relays is applied to every message of the
    id, whoever sent the message and whoever sent the deletion. *)
Theorem handleMessageDelete_any_sender c i msg data :
  messages c !! i = Some msg ->
  Message.id msg = MessageDelete.id data ->
  exists msg',
    messages (after (handleMessageDelete data) c) !! i = Some msg' /\
    Message.isDeleted msg' = Some true.
Proof.
  intros Hi Hid. rewrite handleMessageDelete_messages, list_lookup_fmap, Hi. cbn.
  rewrite Hid, String.eqb_refl. eexists. split; [done|]. done.
Qed.

(** An edit that the server relays is applied to every message of the id
    once its text decrypts, whoever sent the message. *)
Theorem handleMessageEdit_any_sender c i msg data text t' :
  messages c !! i = Some msg ->
  Message.id msg = MessageEdit.id data ->
  decryptMessage (MessageEdit.encryptedMessage data) (MessageEdit.sender data) (tab c)
  = (Return text, t') ->
  exists msg',
    messages (after (handleMessageEdit data) c) !! i = Some msg' /\
    Message.text msg' = text /\
    Message.editedAt msg' = Some (MessageEdit.editedAt data).
Proof.
  intros Hi Hid Hdec.
  unfold after, handleMessageEdit, try_catch, mbind, eff_bind, encryptionService, zoom.
  rewrite Hdec. cbn. rewrite list_lookup_fmap, Hi. cbn.
  rewrite Hid, String.eqb_refl. eexists. split; [done|]. done.
Qed.

(** What the server relays is applied without a look at authorship: a
    [message-delete] event marks the message of its id as deleted, and a
    [message-edit] event whose text decrypts replaces the text, for any
    sender of the message and any sender of the event. *)
Theorem relayed_edit_delete_unchecked c i msg :
  messages c !! i = Some msg ->
  (forall data,
     Message.id msg = MessageDelete.id data ->
     exists msg',
       messages (after (on (ServerEvent.message_delete data) 0) c) !! i = Some msg' /\
       Message.isDeleted msg' = Some true /\
       Message.sender msg' = Message.sender msg) /\
  (forall data text t',
     Message.id msg = MessageEdit.id data ->
     decryptMessage (MessageEdit.encryptedMessage data) (MessageEdit.sender data) (tab c)
     = (Return text, t') ->
     exists msg',
       messages (after (on (ServerEvent.message_edit data) 0) c) !! i = Some msg' /\
       Message.text msg' = text /\
       Message.sender msg' = Message.sender msg).
Proof.
  intros Hi. split.
  - intros data Hid. cbn [on].
    rewrite handleMessageDelete_messages, list_lookup_fmap, Hi. cbn.
    rewrite Hid, String.eqb_refl. eexists. split; [done|]. done.
  - intros data text t' Hid Hdec. cbn [on].
    unfold after, handleMessageEdit, try_catch, mbind, eff_bind, encryptionService, zoom.
    rewrite Hdec. cbn. rewrite list_lookup_fmap, Hi. cbn.
    rewrite Hid, String.eqb_refl. eexists. split; [done|]. done.
Qed.

End MessageFacts.


(** ** The typing indicator *)

Section TypingFacts.
Import Js Wire Crypto Encryption Chat.
Context {sc : SubtleCrypto}.
Local Open Scope Z_scope.

Lemma handleUserTyping_context data now c :
  userId (after (handleUserTyping data now) c) = userId c /\
  selectedRoom (after (handleUserTyping data now) c) = selectedRoom c.
Proof.
  unfold after, handleUserTyping, mbind, eff_bind, gets. cbn.
  by destruct (_ || _).
Qed.

Lemma handleUserTyping_typingUsers data now c :
  typingUsers (after (handleUserTyping data now) c)
  = if bool_decide (accepted data c)
    then filter (fun entry => TypingUser.userId entry ≠ Typing.userId data) (typingUsers c)
         ++ [{| TypingUser.userId := Typing.userId data; TypingUser.timestamp := now |}]
    else typingUsers c.
Proof.
  unfold after, handleUserTyping, accepted, mbind, eff_bind, gets. cbn.
  destruct (bool_decide (Some (Typing.userId data) = userId c)) eqn:E1;
  destruct (bool_decide (Some (Typing.roomId data) = selectedRoom c)) eqn:E2;
    cbn; (try apply bool_decide_eq_true in E1); (try apply bool_decide_eq_false in E1);
    (try apply bool_decide_eq_true in E2); (try apply bool_decide_eq_false in E2).
  1-2,4: rewrite bool_decide_eq_false_2; [done|tauto].
  rewrite bool_decide_eq_true_2 by done. f_equal.
  rewrite List_filter_stdpp. apply list_filter_iff. intros entry.
  rewrite negb_true_iff, <- not_true_iff_false, String.eqb_eq. done.
Qed.

Lemma sweep_context now c :
  userId (after (sweep now) c) = userId c /\
  selectedRoom (after (sweep now) c) = selectedRoom c.
Proof. done. Qed.

Lemma sweep_typingUsers now c :
  typingUsers (after (sweep now) c)
  = filter (fun entry => now - TypingUser.timestamp entry < 3000) (typingUsers c).
Proof.
  cbn. rewrite List_filter_stdpp. apply list_filter_iff. intros entry.
  apply Z.ltb_lt.
Qed.

Lemma entries_of_other data now c user :
  Typing.userId data ≠ user ->
  entries_of user (typingUsers (after (handleUserTyping data now) c))
  = entries_of user (typingUsers c).
Proof.
  intros Hne. rewrite handleUserTyping_typingUsers. case_bool_decide; [|done].
  unfold entries_of. rewrite filter_app, list_filter_filter.
  rewrite filter_cons_False, filter_nil, app_nil_r by (cbn; congruence).
  apply list_filter_iff. intros e. split; [tauto|]. intros <-. split; [done|congruence].
Qed.

Lemma entries_of_same data now c :
  accepted data c ->
  entries_of (Typing.userId data) (typingUsers (after (handleUserTyping data now) c))
  = [entry (Typing.userId data) now].
Proof.
  intros Hacc. rewrite handleUserTyping_typingUsers, bool_decide_eq_true_2 by done.
  unfold entries_of. rewrite filter_app, list_filter_filter.
  rewrite filter_cons_True, filter_nil by done.
  rewrite filter_Forall_not; [done|]. apply Forall_forall. tauto.
Qed.

Lemma entries_of_sweep now c user :
  entries_of user (typingUsers (after (sweep now) c))
  = filter (fun e => now - TypingUser.timestamp e < 3000) (entries_of user (typingUsers c)).
Proof.
  rewrite sweep_typingUsers. unfold entries_of. rewrite !list_filter_filter.
  apply list_filter_iff. tauto.
Qed.

Lemma arrive_cons d l now c :
  arrive (d :: l) now c = arrive l now (after (handleUserTyping d now) c).
Proof. done. Qed.

Lemma arrive_snoc d l now c :
  arrive (l ++ [d]) now c = after (handleUserTyping d now) (arrive l now c).
Proof. unfold arrive. by rewrite foldl_app. Qed.

Lemma arrive_context l now c :
  userId (arrive l now c) = userId c /\ selectedRoom (arrive l now c) = selectedRoom c.
Proof.
  revert c. induction l as [|d l IH]; intros c; [done|]. rewrite arrive_cons.
  destruct (IH (after (handleUserTyping d now) c)) as [-> ->].
  apply handleUserTyping_context.
Qed.

Lemma accepted_context data c c' :
  userId c' = userId c -> selectedRoom c' = selectedRoom c ->
  accepted data c' <-> accepted data c.
Proof. unfold accepted. by intros -> ->. Qed.

Lemma arrive_signal l now c data :
  data ∈ l -> accepted data c ->
  entries_of (Typing.userId data) (typingUsers (arrive l now c))
  = [entry (Typing.userId data) now].
Proof.
  induction l as [|d l IH] using rev_ind; [by intros ?%elem_of_nil|].
  intros Hin Hacc. rewrite arrive_snoc.
  destruct (arrive_context l now c) as [Hu Hr].
  destruct (decide (Typing.userId d = Typing.userId data)) as [Heq|Hne].
  - destruct (decide (accepted d (arrive l now c))) as [Hd|Hd].
    + rewrite <- Heq. by apply entries_of_same.
    + rewrite handleUserTyping_typingUsers, bool_decide_eq_false_2 by done.
      apply IH; [|done]. apply elem_of_app in Hin as [Hin|Hin%list_elem_of_singleton]; [done|].
      subst d. destruct Hd. by apply (accepted_context data c).
  - rewrite entries_of_other by done. apply IH; [|done].
    apply elem_of_app in Hin as [Hin|Hin%list_elem_of_singleton]; [done|congruence].
Qed.

Lemma arrive_others l now c user :
  Forall (fun d => Typing.userId d ≠ user) l ->
  entries_of user (typingUsers (arrive l now c)) = entries_of user (typingUsers c).
Proof.
  intros H. revert c. induction H as [|d l Hd _ IH]; intros c; [done|].
  rewrite arrive_cons, IH. by apply entries_of_other.
Qed.

Lemma millisecond_entries arrivals mounted t c user :
  entries_of user (typingUsers (millisecond arrivals mounted t c))
  = let l := entries_of user (typingUsers (arrive (arrivals t) t c)) in
    if interval_fires mounted t
    then filter (fun e => t - TypingUser.timestamp e < 3000) l else l.
Proof.
  unfold millisecond. fold (arrive (arrivals t) t c).
  destruct (interval_fires mounted t); [|done]. apply entries_of_sweep.
Qed.

Lemma millisecond_context arrivals mounted t c :
  userId (millisecond arrivals mounted t c) = userId c /\
  selectedRoom (millisecond arrivals mounted t c) = selectedRoom c.
Proof.
  unfold millisecond. fold (arrive (arrivals t) t c).
  destruct (interval_fires mounted t); [|apply arrive_context].
  destruct (sweep_context t (arrive (arrivals t) t c)) as [-> ->]. apply arrive_context.
Qed.

Lemma elapse_add arrivals mounted t n m c :
  elapse arrivals mounted t (n + m) c
  = elapse arrivals mounted (t + Z.of_nat n) m (elapse arrivals mounted t n c).
Proof.
  revert t c. induction n as [|n IH]; intros t c.
  - cbn. by rewrite Z.add_0_r.
  - cbn [Nat.add elapse]. rewrite IH. f_equal. lia.
Qed.

Lemma elapse_context arrivals mounted t n c :
  userId (elapse arrivals mounted t n c) = userId c /\
  selectedRoom (elapse arrivals mounted t n c) = selectedRoom c.
Proof.
  revert t c. induction n as [|n IH]; intros t c; [done|]. cbn [elapse].
  destruct (IH (t + 1) (millisecond arrivals mounted (t + 1) c)) as [-> ->].
  apply millisecond_context.
Qed.

Lemma at_time_succ arrivals mounted c t :
  mounted <= t ->
  at_time arrivals mounted c (t + 1)
  = millisecond arrivals mounted (t + 1) (at_time arrivals mounted c t).
Proof.
  intros Ht. unfold at_time.
  replace (Z.to_nat (t + 1 - mounted)) with (Z.to_nat (t - mounted) + 1)%nat by lia.
  rewrite elapse_add. cbn [elapse]. do 2 f_equal; lia.
Qed.

Lemma interval_fires_spec mounted t :
  interval_fires mounted t = true <-> mounted < t /\ (t - mounted) mod 1000 = 0.
Proof.
  unfold interval_fires. rewrite andb_true_iff, Z.ltb_lt, Z.eqb_eq. done.
Qed.

Lemma expired_spec mounted T n :
  expired mounted T n = true
  <-> exists s, T + 3000 <= s <= T + Z.of_nat n /\ interval_fires mounted s = true.
Proof.
  induction n as [|n IH].
  - split; [done|]. intros (s & ? & _). lia.
  - cbn [expired]. rewrite orb_true_iff, andb_true_iff, IH, Z.leb_le. split.
    + intros [(s & Hs & Hf)|[Hn Hf]].
      * exists s. split; [lia|done].
      * eexists. split; [|exact Hf]. lia.
    + intros (s & Hs & Hf).
      destruct (decide (s = T + Z.of_nat (S n))) as [->|Hne].
      * right. split; [lia|done].
      * left. exists s. split; [lia|done].
Qed.

(** After time [T] at which [user] signalled, and as long as no further
    signal of [user] arrives: the entries of [user] are the one of time
    [T], until the first sweep at or after [T + 3000] removes it. *)
Lemma typing_timeline arrivals mounted c data T (n : nat) :
  mounted < T ->
  data ∈ arrivals T ->
  accepted data c ->
  (forall t d, T < t <= T + Z.of_nat n -> d ∈ arrivals t ->
     Typing.userId d ≠ Typing.userId data) ->
  entries_of (Typing.userId data)
    (typingUsers (at_time arrivals mounted c (T + Z.of_nat n)))
  = if expired mounted T n then [] else [entry (Typing.userId data) T].
Proof.
  intros Hm Hin Hacc. induction n as [|n IH]; intros Hquiet.
  - cbn [expired]. rewrite Z.add_0_r. replace T with ((T - 1) + 1) at 1 by lia.
    rewrite at_time_succ by lia. replace (T - 1 + 1) with T by lia.
    rewrite millisecond_entries. cbn zeta.
    rewrite arrive_signal; [|done|].
    + destruct (interval_fires mounted T); [|done].
      rewrite filter_cons_True by (cbn; lia). done.
    + unfold at_time. destruct (elapse_context arrivals mounted mounted
        (Z.to_nat (T - 1 - mounted)) c) as [Hu Hr].
      by apply (accepted_context data c).
  - replace (T + Z.of_nat (S n)) with (T + Z.of_nat n + 1) at 1 by lia.
    rewrite at_time_succ by lia. rewrite millisecond_entries. cbn zeta.
    rewrite arrive_others.
    2:{ apply Forall_forall. intros d Hd. apply (Hquiet (T + Z.of_nat n + 1)); [lia|done]. }
    rewrite IH by (intros t d Ht; apply Hquiet; lia).
    cbn [expired]. replace (T + Z.of_nat n + 1) with (T + Z.of_nat (S n)) by lia.
    destruct (expired mounted T n); cbn [orb].
    + by destruct (interval_fires _ _).
    + destruct (interval_fires mounted (T + Z.of_nat (S n))); rewrite ?andb_false_r; [|done].
      rewrite andb_true_r.
      destruct (3000 <=? Z.of_nat (S n)) eqn:E.
      * apply Z.leb_le in E. rewrite filter_cons_False by (cbn; lia). done.
      * apply Z.leb_gt in E. rewrite filter_cons_True by (cbn; lia). done.
Qed.

Lemma not_expired_early mounted T n : (n < 3000)%nat -> expired mounted T n = false.
Proof.
  intros Hn. apply not_true_iff_false. rewrite expired_spec. intros (s & ? & _). lia.
Qed.

(** An interval of period 1000 fires within any 1000 ms. *)
Lemma expired_late mounted T n : mounted < T -> (4000 <= n)%nat -> expired mounted T n = true.
Proof.
  intros Hm Hn. apply expired_spec.
  exists (mounted + 1000 * ((T + 3000 - mounted + 999) / 1000)).
  split; [lia|]. apply interval_fires_spec. split; [lia|].
  rewrite Z.add_simpl_l, Z.mul_comm. apply Z.mod_mul. lia.
Qed.

(** C8.  A component that mounted before time T receives at T a typing
    signal of a peer that its listener takes, and no further signal of
    that peer in the 4 seconds after T.  With the sweep running every 1000
    ms and dropping the entries of 3000 ms and older, the typing state has
    an entry of the peer at T + 2000 ms and has none at T + 4000 ms. *)
Theorem typing_signal_expires arrivals mounted c data T :
  mounted < T ->
  data ∈ arrivals T ->
  accepted data c ->
  (forall t d, T < t <= T + 4000 -> d ∈ arrivals t ->
     Typing.userId d ≠ Typing.userId data) ->
  is_typing (Typing.userId data) (at_time arrivals mounted c (T + 2000)) /\
  ~ is_typing (Typing.userId data) (at_time arrivals mounted c (T + 4000)).
Proof.
  intros Hm Hin Hacc Hquiet. unfold is_typing. split.
  - change 2000 with (Z.of_nat 2000).
    rewrite (typing_timeline arrivals mounted c data T 2000 Hm Hin Hacc).
    + rewrite not_expired_early by lia. done.
    + intros t d Ht. apply Hquiet. lia.
  - change 4000 with (Z.of_nat 4000).
    rewrite (typing_timeline arrivals mounted c data T 4000 Hm Hin Hacc).
    + rewrite expired_late by (done || lia). tauto.
    + intros t d Ht. apply Hquiet. lia.
Qed.
End TypingFacts.


(** ** The key exchange between two connected clients *)

Section KeyExchangeFacts.
Import Js Base64 Wire Crypto Encryption Chat Network.
Context {sc : SubtleCrypto} {laws : SubtleCryptoLaws sc}.

Lemma handleUserConnected_sends c id kp connectedUserId :
  userId c = Some id -> truthy id = true ->
  keyPair (instance (tab c)) = Some kp ->
  handleUserConnected connectedUserId c = emit (keys_for id kp connectedUserId) c.
Proof.
  intros Hu Ht Hkp.
  unfold handleUserConnected, mbind, eff_bind, gets, encryptionService, zoom.
  rewrite Hu, Ht. rewrite (getPublicKeyAsString_generated _ kp Hkp).
  unfold set_tab. destruct c; done.
Qed.

Lemma handleKeyExchange_replies c id kp peer peer_kp :
  userId c = Some id -> truthy id = true -> peer ≠ id ->
  keyPair (instance (tab c)) = Some kp ->
  handleKeyExchange {| Keys.userId := peer; Keys.publicKey := key_string peer_kp |} c
  = emit (keys_for id kp peer)
      (set_tab (set_peerPublicKey peer (publicKey peer_kp) (tab c)) c).
Proof.
  intros Hu Ht Hne Hkp.
  unfold handleKeyExchange, mbind, eff_bind, gets, encryptionService, zoom. cbn [Keys.userId Keys.publicKey].
  rewrite addPeerPublicKey_exported.
  cbn [userId set_tab]. rewrite Hu, Ht.
  rewrite (proj2 (String.eqb_neq peer id)) by done. cbn [negb andb tab].
  rewrite (getPublicKeyAsString_generated _ kp); [|done].
  done.
Qed.



Lemma connected_sym a b kpA kpB net :
  connected a b kpA kpB net -> connected b a kpB kpA net.
Proof. intros (? & ? & ? & ? & ?). by repeat split. Qed.

Lemma to_emit_own_room sender recipient event rooms :
  sender ≠ recipient ->
  SocketService.members rooms recipient = {[recipient]} ->
  SocketService.to_emit sender recipient event rooms = [(recipient, event)].
Proof.
  intros Hne Hroom. unfold SocketService.to_emit. rewrite Hroom. clear Hroom.
  assert ({[recipient]} ∖ {[sender]} = ({[recipient]} : gset string)) as ->
    by (apply set_eq; intros x; rewrite elem_of_difference, !elem_of_singleton;
        split; [tauto|intros ->; split; [done|congruence]]).
  by rewrite elements_singleton.
Qed.

(** What one delivery does when the listener answers with its key. *)
Lemma deliver_answer a b kpA kpB net now event rest :
  connected a b kpA kpB net ->
  inflight net = (b, event) :: rest ->
  (event = keys_of a kpA \/ event = ServerEvent.user_connected a) ->
  let net' := deliver now net in
  connected a b kpA kpB net' /\
  inflight net' = rest ++ [(a, keys_of b kpB)] /\
  received net' = received net ++ [(b, keys_for b kpB a)].
Proof.
  intros (Hne & (ca & Hca & Hra) & (cb & Hcb & Hub & Htb & Hkb & Heb) & Hma & Hmb)
    Hin Hev net'.
  assert (exists tab',
    Chat.on event now cb = emit (keys_for b kpB a) (set_tab tab' cb) /\
    keyPair (instance tab') = Some kpB) as (tab' & Hon & Hk').
  { destruct Hev as [-> | ->]; cbn [Chat.on].
    - eexists. split; [by apply handleKeyExchange_replies|done].
    - exists (tab cb). split.
      + rewrite (handleUserConnected_sends _ b kpB) by done.
        by destruct cb.
      + done. }
  assert (net' =
    {| rooms := rooms net;
       clients := <[b := flushed (emit (keys_for b kpB a) (set_tab tab' cb)).2]> (clients net);
       inflight := rest ++ [(a, keys_of b kpB)];
       received := received net ++ [(b, keys_for b kpB a)] |}) as ->.
  { subst net'. unfold deliver. rewrite Hin, Hcb. unfold after. rewrite Hon.
    cbn [emit modify snd emitted set_tab]. rewrite Heb. cbn [app serve foldl].
    unfold keys_for at 1.
    cbn [SocketService.on SendKeys.recipientId SendKeys.userId SendKeys.publicKey].
    rewrite to_emit_own_room by done. done. }
  cbn [inflight received]. split; [|done].
  split; [done|]. cbn [rooms clients]. split; [|split; [|done]].
  - exists ca. split; [|done]. by rewrite lookup_insert_ne.
  - eexists. split; [apply lookup_insert_eq|]. unfold ready. done.
Qed.

Lemma keys_sent_snoc sender recipient net received' from kp to :
  received' = received net ++ [(from, keys_for from kp to)] ->
  length (List.filter (is_keys sender recipient) received')
  = (keys_sent sender recipient net
     + if String.eqb from sender && String.eqb to recipient then 1 else 0)%nat.
Proof.
  intros ->. unfold keys_sent. rewrite List.filter_app, length_app. f_equal.
  cbn. by destruct (_ && _).
Qed.

Lemma run_add n k now net :
  run (n + k) now net = run k (now + Z.of_nat n) (run n now net).
Proof.
  revert now net. induction n as [|n IH]; intros now net.
  - cbn. by rewrite Z.add_0_r.
  - cbn [Nat.add run]. rewrite IH. f_equal. lia.
Qed.

(** C2, as the code behaves.  Two connected clients A and B, each with an
    identity and a key pair; A is told that B connected.  Then the
    exchange never comes to rest: after every odd number 2m + 1 of
    deliveries a key of A is on its way to B again, and the server has
    received m + 1 [exchange-keys] events from A for B.  [handleKeyExchange]
    answers every key it receives; it keeps no record of having sent its
    key to that peer. *)
Theorem key_exchange_never_settles a b kpA kpB net now m :
  connected a b kpA kpB net ->
  inflight net = [(a, ServerEvent.user_connected b)] ->
  let net' := run (S (2 * m)) now net in
  connected a b kpA kpB net' /\
  inflight net' = [(b, keys_of a kpA)] /\
  keys_sent a b net' = (keys_sent a b net + S m)%nat.
Proof.
  intros Hc Hin. induction m as [|m IH]; intros net'; subst net'.
  - cbn [run Nat.mul].
    destruct (deliver_answer b a kpB kpA net now _ [] (connected_sym _ _ _ _ _ Hc) Hin)
      as (Hc' & Hin' & Hrec); [by right|].
    split; [by apply connected_sym|]. split; [done|].
    unfold keys_sent at 1. rewrite (keys_sent_snoc _ _ _ _ _ _ _ Hrec).
    by rewrite !String.eqb_refl.
  - replace (S (2 * S m)) with (S (2 * m) + 2)%nat by lia. rewrite run_add.
    destruct IH as (Hc1 & Hin1 & Hn1).
    set (net1 := run (S (2 * m)) now net) in *.
    set (now1 := (now + Z.of_nat (S (2 * m)))%Z).
    cbn [run].
    destruct (deliver_answer a b kpA kpB net1 now1 _ [] Hc1 Hin1)
      as (Hc2 & Hin2 & Hrec2); [by left|].
    set (net2 := deliver now1 net1) in *.
    destruct (deliver_answer b a kpB kpA net2 (now1 + 1) _ []
                (connected_sym _ _ _ _ _ Hc2) Hin2) as (Hc3 & Hin3 & Hrec3); [by left|].
    split; [by apply connected_sym|]. split; [done|].
    unfold keys_sent at 1. rewrite (keys_sent_snoc _ _ _ _ _ _ _ Hrec3).
    rewrite !String.eqb_refl. cbn [andb].
    unfold keys_sent at 1. rewrite (keys_sent_snoc _ _ _ _ _ _ _ Hrec2).
    destruct Hc as (Hne & _).
    rewrite (proj2 (String.eqb_neq b a)) by done. cbn [andb]. lia.
Qed.
End KeyExchangeFacts.


(** ** The fixed-window limiter *)

Section RateLimitFacts.
Import Js RateLimit.
Local Open Scope Z_scope.

(** Sums and differences of safe integers are exact as long as they do
    not leave the range of the safe integers by more than one. *)
Lemma to_binary64_exact z : - 2 ^ 53 <= z <= 2 ^ 53 -> to_binary64 z = z.
Proof.
  intros Hz. unfold to_binary64. cbn zeta.
  destruct (Z.eq_dec (Z.abs z) (2 ^ 53)) as [Htop|Hbelow].
  - assert (z = 2 ^ 53 \/ z = - 2 ^ 53) as [-> | ->] by lia; reflexivity.
  - destruct (Z.eq_dec z 0) as [->|Hnz]; [reflexivity|].
    assert (Z.log2 (Z.abs z) < 53) as Hlog by (apply Z.log2_lt_pow2; lia).
    assert ((Z.log2 (Z.abs z) - 52 <=? 0) = true) as -> by lia. reflexivity.
Qed.

Lemma plus_exact a b : - 2 ^ 53 <= a + b <= 2 ^ 53 -> plus a b = a + b.
Proof. apply to_binary64_exact. Qed.

Lemma minus_exact a b : - 2 ^ 53 <= a - b <= 2 ^ 53 -> minus a b = a - b.
Proof. apply to_binary64_exact. Qed.

(** Beyond the safe integers a sum is rounded. *)
Lemma plus_rounds : plus 1 (2 ^ 53) = 2 ^ 53 /\ plus 3 (2 ^ 53) = 2 ^ 53 + 4.
Proof. split; reflexivity. Qed.

Lemma serve_length windowMs maxRequests arrivals requests :
  length (serve windowMs maxRequests arrivals requests).1 = length arrivals.
Proof.
  revert requests. induction arrivals as [|[request now] rest IH]; intros requests; [done|].
  cbn [serve]. destruct (createRateLimitMiddleware _ _ _ _ _) as [result requests'].
  specialize (IH requests'). destruct (serve _ _ rest requests') as [results requests''].
  cbn in *. by rewrite IH.
Qed.

(** A request leaves the entry of another address as it is, unless the
    window of that entry ended more than [windowMs] ago: then the entry
    goes. *)
Lemma createRateLimitMiddleware_other windowMs maxRequests request now requests ip :
  ip_of request ≠ ip ->
  (createRateLimitMiddleware windowMs maxRequests request now requests).2 !! ip
  = match requests !! ip with
    | Some entry =>
        if bool_decide (Entry.reset entry < minus now windowMs) then None else Some entry
    | None => None
    end.
Proof.
  intros Hne.
  assert (filter (fun entry : string * Entry.t => ~ (Entry.reset entry.2 < minus now windowMs))
            requests !! ip
          = match requests !! ip with
            | Some entry =>
                if bool_decide (Entry.reset entry < minus now windowMs) then None else Some entry
            | None => None
            end)
    as Hfilter.
  { destruct (requests !! ip) as [entry|] eqn:Hip; cbn.
    - case_bool_decide.
      + apply map_lookup_filter_None. right. intros entry' Hentry'. cbn.
        rewrite Hip in Hentry'. injection Hentry' as <-. tauto.
      + apply map_lookup_filter_Some. done.
    - apply map_lookup_filter_None. by left. }
  unfold createRateLimitMiddleware. cbn zeta.
  destruct (filter _ requests !! ip_of request) as [current|].
  - destruct (Entry.reset current <? now); cbn [snd].
    + by rewrite lookup_insert_ne.
    + destruct (maxRequests <=? Entry.count current); cbn [snd]; [done|].
      by rewrite lookup_insert_ne.
  - cbn [snd]. by rewrite lookup_insert_ne.
Qed.

(** A request of an address whose window is open: it is let through
    when the count is below [maxRequests], and counted then. *)
Lemma createRateLimitMiddleware_open windowMs maxRequests request now requests entry :
  0 <= windowMs < 2 ^ 53 ->
  requests !! ip_of request = Some entry ->
  0 <= now <= Entry.reset entry -> Entry.reset entry < 2 ^ 53 ->
  createRateLimitMiddleware windowMs maxRequests request now requests
  = let requests' :=
      filter (fun entry : string * Entry.t => ~ (Entry.reset entry.2 < minus now windowMs))
        requests in
    if maxRequests <=? Entry.count entry then
      ({| RateLimitResult.success := false; RateLimitResult.limit := maxRequests;
          RateLimitResult.remaining := 0; RateLimitResult.reset := Entry.reset entry |},
       requests')
    else
      ({| RateLimitResult.success := true; RateLimitResult.limit := maxRequests;
          RateLimitResult.remaining := minus maxRequests (plus (Entry.count entry) 1);
          RateLimitResult.reset := Entry.reset entry |},
       <[ip_of request := {| Entry.count := plus (Entry.count entry) 1;
                             Entry.reset := Entry.reset entry |}]> requests').
Proof.
  intros Hw Hip Hnow Hreset. unfold createRateLimitMiddleware. cbn zeta.
  assert (filter (fun entry : string * Entry.t => ~ (Entry.reset entry.2 < minus now windowMs))
            requests !! ip_of request = Some entry) as ->.
  { apply map_lookup_filter_Some. split; [done|]. cbn. rewrite minus_exact by lia. lia. }
  assert ((Entry.reset entry <? now) = false) as -> by lia.
  done.
Qed.

(** Within the window of an entry, the requests of its address are let
    through until the count reaches [maxRequests]. *)
Lemma serve_open windowMs maxRequests ip arrivals requests entry :
  0 <= windowMs < 2 ^ 53 -> maxRequests < 2 ^ 53 ->
  requests !! ip = Some entry ->
  0 <= Entry.count entry -> Entry.reset entry < 2 ^ 53 ->
  Forall (fun arrival : NextRequest * Z => 0 <= arrival.2 <= Entry.reset entry) arrivals ->
  let results := (serve windowMs maxRequests arrivals requests).1 in
  Z.of_nat (granted ip arrivals results)
  = Z.max 0 (Z.min (Z.of_nat (asked ip arrivals)) (maxRequests - Entry.count entry)) /\
  Forall (fun result => RateLimitResult.reset result = Entry.reset entry)
    (results_of ip arrivals results).
Proof.
  intros Hw Hmax. revert requests entry.
  induction arrivals as [|[request now] rest IH];
    intros requests entry Hip Hcount Hreset Hall results.
  { subst results. cbn. split; [lia|constructor]. }
  apply Forall_cons in Hall as [Hnow Hrest]. cbn in Hnow.
  subst results. cbn [serve].
  destruct (decide (ip_of request = ip)) as [Heq|Hne].
  - subst ip.
    rewrite (createRateLimitMiddleware_open _ _ _ _ _ _ Hw Hip Hnow Hreset). cbn zeta.
    destruct (maxRequests <=? Entry.count entry) eqn:Hfull.
    + match goal with |- context [serve _ _ rest ?s] => set (requests' := s) end.
      assert (requests' !! ip_of request = Some entry) as Hip'.
      { apply map_lookup_filter_Some. split; [done|]. cbn. rewrite minus_exact by lia. lia. }
      destruct (IH requests' entry Hip' Hcount Hreset Hrest) as [IHn IHr].
      destruct (serve _ _ rest requests') as [results requests''].
      unfold granted, asked, results_of in *. cbn [fst snd zip zip_with] in *.
      rewrite filter_cons_False by (cbn; intros [_ ?]; done).
      rewrite (filter_cons_True (fun arrival : NextRequest * Z => ip_of arrival.1 = _)) by done.
      rewrite (filter_cons_True (fun served : NextRequest * Z * RateLimitResult.t =>
                                   ip_of served.1.1 = _)) by done.
      cbn [length fmap list_fmap]. split; [lia|].
      constructor; [done|exact IHr].
    + rewrite (plus_exact (Entry.count entry) 1) by lia.
      match goal with |- context [serve _ _ rest ?s] => set (requests' := s) end.
      set (entry' := {| Entry.count := Entry.count entry + 1;
                        Entry.reset := Entry.reset entry |}).
      assert (requests' !! ip_of request = Some entry') as Hip'
        by (subst requests'; apply lookup_insert_eq).
      destruct (IH requests' entry' Hip') as [IHn IHr];
        [cbn; lia|exact Hreset|exact Hrest|].
      destruct (serve _ _ rest requests') as [results requests''].
      unfold granted, asked, results_of in *. cbn [fst snd zip zip_with] in *.
      rewrite filter_cons_True by (cbn; done).
      rewrite (filter_cons_True (fun arrival : NextRequest * Z => ip_of arrival.1 = _)) by done.
      rewrite (filter_cons_True (fun served : NextRequest * Z * RateLimitResult.t =>
                                   ip_of served.1.1 = _)) by done.
      cbn [length fmap list_fmap]. cbn [Entry.count Entry.reset entry'] in *.
      split; [lia|]. constructor; [done|exact IHr].
  - pose proof (createRateLimitMiddleware_other windowMs maxRequests request now requests ip Hne)
      as Hother.
    destruct (createRateLimitMiddleware _ _ request now requests) as [result requests'].
    cbn [snd] in Hother. rewrite Hip in Hother. cbn in Hother.
    rewrite minus_exact in Hother by lia.
    rewrite bool_decide_eq_false_2 in Hother by lia.
    destruct (IH requests' entry Hother Hcount Hreset Hrest) as [IHn IHr].
    destruct (serve _ _ rest requests') as [results requests''].
    unfold granted, asked, results_of in *. cbn [fst snd zip zip_with] in *.
    rewrite filter_cons_False by (cbn; intros [? _]; done).
    rewrite (filter_cons_False (fun arrival : NextRequest * Z => ip_of arrival.1 = _)) by done.
    rewrite (filter_cons_False (fun served : NextRequest * Z * RateLimitResult.t =>
                                  ip_of served.1.1 = _)) by done.
    done.
Qed.

(** The first request of an address that has no entry, or whose window
    is over, is let through and opens a window. *)
Lemma createRateLimitMiddleware_fresh windowMs maxRequests request now requests :
  (forall entry, requests !! ip_of request = Some entry -> Entry.reset entry < now) ->
  exists requests',
    createRateLimitMiddleware windowMs maxRequests request now requests
    = ({| RateLimitResult.success := true; RateLimitResult.limit := maxRequests;
          RateLimitResult.remaining := minus maxRequests 1;
          RateLimitResult.reset := plus now windowMs |},
       requests') /\
    requests' !! ip_of request
    = Some {| Entry.count := 1; Entry.reset := plus now windowMs |}.
Proof.
  intros Hfresh. unfold createRateLimitMiddleware. cbn zeta.
  destruct (filter _ requests !! ip_of request) as [current|] eqn:Hcurrent.
  - apply map_lookup_filter_Some in Hcurrent as [Hcurrent _].
    apply Hfresh in Hcurrent. assert ((Entry.reset current <? now) = true) as -> by lia.
    eexists. split; [done|]. apply lookup_insert_eq.
  - eexists. split; [done|]. apply lookup_insert_eq.
Qed.

(** The quota of a window.  The numbers are safe integers: the window
    [windowMs] is not negative, the limit [maxRequests] is safe, and the
    times are not negative and such that [t0 + windowMs] is safe.  An
    address has no entry, or its window is over, when a request of it
    arrives at [t0]; further requests, of this and of other addresses,
    arrive up to [t0 + windowMs].  Then of the requests of the address
    the first [maxRequests] are let through, but one at least, and no
    more; and each of its results names [t0 + windowMs] as the reset
    time. *)
Theorem fixed_window_quota windowMs maxRequests request t0 rest requests :
  0 <= windowMs -> 0 <= t0 -> safe (t0 + windowMs) -> safe maxRequests ->
  (forall entry, requests !! ip_of request = Some entry -> Entry.reset entry < t0) ->
  Forall (fun arrival : NextRequest * Z => 0 <= arrival.2 <= t0 + windowMs) rest ->
  let ip := ip_of request in
  let arrivals := (request, t0) :: rest in
  let results := (serve windowMs maxRequests arrivals requests).1 in
  Z.of_nat (granted ip arrivals results)
  = Z.min (Z.of_nat (asked ip arrivals)) (Z.max 1 maxRequests) /\
  Forall (fun result => RateLimitResult.reset result = t0 + windowMs)
    (results_of ip arrivals results).
Proof.
  intros Hw Ht0 Hsum Hmax Hfresh Hrest ip arrivals results. subst ip arrivals results.
  unfold safe in Hsum, Hmax. cbn [serve].
  destruct (createRateLimitMiddleware_fresh windowMs maxRequests request t0 requests Hfresh)
    as (requests' & -> & Hip').
  rewrite plus_exact in Hip' |- * by lia.
  destruct (serve_open windowMs maxRequests (ip_of request) rest requests' _
              ltac:(lia) ltac:(lia) Hip' ltac:(cbn; lia) ltac:(cbn; lia) Hrest)
    as [Hn Hr].
  destruct (serve _ _ rest requests') as [results requests''].
  unfold granted, asked, results_of in *. cbn [fst snd zip zip_with] in *.
  rewrite filter_cons_True by (cbn; done).
  rewrite (filter_cons_True (fun arrival : NextRequest * Z => ip_of arrival.1 = _)) by done.
  rewrite (filter_cons_True (fun served : NextRequest * Z * RateLimitResult.t =>
                               ip_of served.1.1 = _)) by done.
  cbn [length fmap list_fmap Entry.count Entry.reset] in *.
  split; [lia|]. constructor; [done|exact Hr].
Qed.

End RateLimitFacts.

(** ** The sliding-window limiter *)

Section ApiUtilsFacts.
Import Js ApiUtils.
Local Open Scope Z_scope.

Lemma api_serve_length maxRequests windowMs arrivals rateLimitMap :
  length (serve maxRequests windowMs arrivals rateLimitMap).1 = length arrivals.
Proof.
  revert rateLimitMap.
  induction arrivals as [|[req now] rest IH]; intros rateLimitMap; [done|].
  cbn [serve]. destruct (rateLimit _ _ _ _ _) as [[allowed response] rateLimitMap'].
  specialize (IH rateLimitMap'). destruct (serve _ _ rest rateLimitMap') as [results ?].
  cbn in *. by rewrite IH.
Qed.

Lemma api_serve_snoc maxRequests windowMs arrivals req now rateLimitMap :
  serve maxRequests windowMs (arrivals ++ [(req, now)]) rateLimitMap
  = let '(results, rateLimitMap) := serve maxRequests windowMs arrivals rateLimitMap in
    let '(allowed, _, rateLimitMap) := rateLimit req maxRequests windowMs now rateLimitMap in
    (results ++ [allowed], rateLimitMap).
Proof.
  revert rateLimitMap.
  induction arrivals as [|[req' now'] rest IH]; intros rateLimitMap.
  - cbn. by destruct (rateLimit _ _ _ _ _) as [[allowed response] rateLimitMap'].
  - cbn [serve app]. destruct (rateLimit req' _ _ _ _) as [[allowed response] rateLimitMap'].
    rewrite IH. destruct (serve _ _ rest rateLimitMap') as [results rateLimitMap''].
    by destruct (rateLimit req _ _ _ _) as [[allowed' response'] rateLimitMap'''].
Qed.

Lemma chronological_snoc arrivals arrival :
  chronological (arrivals ++ [arrival]) ->
  chronological arrivals /\ Forall (fun earlier => earlier.2 <= arrival.2) arrivals.
Proof.
  induction arrivals as [|first rest IH]; [intros _; split; [exact I|constructor]|].
  cbn. intros [Hfirst Hrest]. apply Forall_app in Hfirst as [Hfirst Hlast].
  rewrite Forall_singleton in Hlast. destruct (IH Hrest) as [IH1 IH2].
  split; [by split|]. apply Forall_cons. split; [exact Hlast|exact IH2].
Qed.

Lemma filter_filter_after (c d : Z) (l : list Z) :
  d <= c -> filter (fun t => c < t) (filter (fun t => d < t) l) = filter (fun t => c < t) l.
Proof.
  intros Hdc. induction l as [|t l IH]; [done|].
  destruct (decide (d < t)) as [Hd|Hd].
  - rewrite (filter_cons_True (fun t => d < t)) by done.
    destruct (decide (c < t)).
    + rewrite !(filter_cons_True (fun t => c < t)) by done. by rewrite IH.
    + rewrite !(filter_cons_False (fun t => c < t)) by done. done.
  - rewrite (filter_cons_False (fun t => d < t)) by done.
    rewrite (filter_cons_False (fun t => c < t)) by lia. done.
Qed.

(** What the map holds for an address agrees, from any later cutoff on,
    with the times of the requests of the address that were let through. *)
Lemma serve_log maxRequests windowMs arrivals ip cutoff :
  chronological arrivals ->
  Forall (fun arrival : NextApiRequest * Z =>
            arrival.2 - default 900000 windowMs <= cutoff) arrivals ->
  let served := serve maxRequests windowMs arrivals ∅ in
  filter (fun t => cutoff < t) (default [] (served.2 !! ip))
  = filter (fun t => cutoff < t) (granted_times ip arrivals served.1).
Proof.
  revert cutoff. induction arrivals as [|[req now] arrivals IH] using rev_ind;
    intros cutoff Hsorted Hcutoff served; subst served.
  { cbn. by rewrite lookup_empty. }
  apply chronological_snoc in Hsorted as [Hsorted Hlast].
  apply Forall_app in Hcutoff as [Hcutoff Hnow]. rewrite Forall_singleton in Hnow.
  cbn [snd] in Hnow, Hlast.
  rewrite api_serve_snoc.
  pose proof (api_serve_length maxRequests windowMs arrivals ∅) as Hlen.
  pose proof (IH cutoff Hsorted Hcutoff) as IHcutoff.
  assert (Forall (fun arrival : NextApiRequest * Z =>
                    arrival.2 - default 900000 windowMs <= now - default 900000 windowMs)
            arrivals) as Hearlier.
  { eapply Forall_impl; [exact Hlast|]. cbn. intros; lia. }
  pose proof (IH (now - default 900000 windowMs) Hsorted Hearlier) as IHnow.
  cbn zeta in IHcutoff, IHnow.
  destruct (serve maxRequests windowMs arrivals ∅) as [results rateLimitMap].
  cbn [fst snd] in *.
  unfold rateLimit. cbn zeta.
  destruct (default 100 maxRequests <=? _) eqn:Hfull; cbn [fst snd];
    unfold granted_times in *; rewrite zip_with_app by done; cbn [zip_with];
    rewrite filter_app, fmap_app, filter_app.
  - rewrite filter_cons_False by (cbn; intros [_ ?]; done).
    rewrite filter_nil, fmap_nil, filter_nil, app_nil_r. exact IHcutoff.
  - destruct (decide (ip = ip_of req)) as [->|Hne].
    + rewrite lookup_insert_eq. cbn [default from_option id].
      rewrite filter_cons_True by (cbn; done).
      rewrite filter_nil. cbn [fmap list_fmap fst snd].
      rewrite filter_app, filter_filter_after by exact Hnow.
      by rewrite IHcutoff.
    + rewrite lookup_insert_ne by done.
      rewrite filter_cons_False by (cbn; intros [? _]; congruence).
      rewrite filter_nil, fmap_nil, filter_nil, app_nil_r. exact IHcutoff.
Qed.

(** The guarantee of the sliding window.  The requests arrive in the
    order of their times, the map being empty at the start.  When a
    request is let through at time [now], the requests of its address
    let through after [now - windowMs], this one included, number at
    most [maxRequests]. *)
Theorem sliding_window_quota maxRequests windowMs earlier req now :
  chronological (earlier ++ [(req, now)]) ->
  let arrivals := earlier ++ [(req, now)] in
  let results := (serve maxRequests windowMs arrivals ∅).1 in
  last results = Some true ->
  Z.of_nat (length (filter (fun t => now - default 900000 windowMs < t)
                      (granted_times (ip_of req) arrivals results)))
  <= default 100 maxRequests.
Proof.
  intros Hsorted arrivals results. subst arrivals results.
  pose proof (chronological_snoc _ _ Hsorted) as [Hearlier Hlast]. cbn [snd] in Hlast.
  assert (Forall (fun arrival : NextApiRequest * Z =>
                    arrival.2 - default 900000 windowMs <= now - default 900000 windowMs)
            earlier) as Hcutoff.
  { eapply Forall_impl; [exact Hlast|]. cbn. intros; lia. }
  pose proof (serve_log maxRequests windowMs earlier (ip_of req) _ Hearlier Hcutoff) as Hlog.
  pose proof (api_serve_length maxRequests windowMs earlier ∅) as Hlen.
  rewrite api_serve_snoc. cbn zeta in Hlog.
  destruct (serve maxRequests windowMs earlier ∅) as [results rateLimitMap].
  cbn [fst snd] in *.
  unfold rateLimit. cbn zeta.
  destruct (default 100 maxRequests <=? _) eqn:Hfull; cbn [fst snd].
  { rewrite last_snoc. discriminate. }
  intros _. unfold granted_times in *. rewrite zip_with_app by done. cbn [zip_with].
  rewrite filter_app, fmap_app, filter_app, <- Hlog, length_app.
  apply Z.leb_gt in Hfull.
  match goal with
  | |- context [length (filter ?P (?f <$> filter ?Q [?x]))] =>
      assert (length (filter P (f <$> filter Q [x])) <= 1)%nat
  end.
  { etrans; [apply length_filter|]. rewrite length_fmap.
    etrans; [apply length_filter|]. done. }
  lia.
Qed.

End ApiUtilsFacts.

(** ** Media *)

Section MediaFacts.
Import Js Base64 Encoding Crypto MediaEncryption.
Local Open Scope N_scope.

Lemma js_octets (s : string) : Forall octet (js s).
Proof.
  induction s as [|c s IH]; [constructor|]. cbn [js]. constructor; [|done].
  unfold octet. pose proof (Ascii.N_ascii_bounded c). lia.
Qed.

Lemma length_js (s : string) : length (js s) = String.length s.
Proof. induction s as [|c s IH]; [done|]. cbn. by rewrite IH. Qed.

Lemma forallb_octet (l : list N) : forallb (fun c => c <=? 255) l = true <-> Forall octet l.
Proof.
  rewrite forallb_forall, Forall_forall. unfold octet.
  split; intros H c Hc.
  - apply list_elem_of_In, H, N.leb_le in Hc. lia.
  - apply list_elem_of_In, H in Hc. apply N.leb_le. lia.
Qed.

Lemma encryptMedia_octets (mediaDataUrl : jsstring) (recipientId : string) :
  Forall octet mediaDataUrl ->
  encryptMedia mediaDataUrl recipientId = Return (encode (mediaDataUrl ++ js recipientId)).
Proof.
  intros H. unfold encryptMedia, btoa.
  rewrite (proj2 (forallb_octet _)); [done|].
  apply Forall_app. split; [done|apply js_octets].
Qed.

Lemma decryptMedia_encode (mediaDataUrl : jsstring) (recipientId senderId : string) :
  Forall octet mediaDataUrl ->
  decryptMedia (encode (mediaDataUrl ++ js recipientId)) senderId
  = Return (take (length mediaDataUrl + String.length recipientId
                  - String.length senderId)
              (mediaDataUrl ++ js recipientId)).
Proof.
  intros Hm.
  assert (Forall octet (mediaDataUrl ++ js recipientId)) as Hall.
  { apply Forall_app. split; [done|apply js_octets]. }
  unfold decryptMedia.
  rewrite (proj2 (atob_btoa _ Hall)). by rewrite length_app, !length_js.
Qed.

Lemma decryptMedia_same_length (mediaDataUrl : jsstring) (recipientId senderId : string) :
  Forall octet mediaDataUrl ->
  String.length senderId = String.length recipientId ->
  decryptMedia (encode (mediaDataUrl ++ js recipientId)) senderId = Return mediaDataUrl.
Proof.
  intros Hm Hlen. rewrite decryptMedia_encode, Hlen by done.
  replace (length mediaDataUrl + String.length recipientId - String.length recipientId)%nat
    with (length mediaDataUrl) by lia.
  by rewrite take_app_length.
Qed.

(** [encryptMedia] returns exactly when no code unit of the data exceeds
    0xFF; otherwise [btoa] throws, and so does [encryptMedia]. *)
Theorem encryptMedia_latin1 (mediaDataUrl : jsstring) (recipientId : string) :
  (Forall octet mediaDataUrl ->
     encryptMedia mediaDataUrl recipientId
     = Return (encode (mediaDataUrl ++ js recipientId))) /\
  (~ Forall octet mediaDataUrl ->
     encryptMedia mediaDataUrl recipientId = Throw InvalidCharacterError).
Proof.
  split; [apply encryptMedia_octets|]. intros H. unfold encryptMedia, btoa.
  destruct (forallb _ _) eqn:Hall; [|done].
  apply forallb_octet, Forall_app in Hall as [Hall _]. done.
Qed.

(** [decryptMedia] undoes [encryptMedia] for every sender id that is as
    long as the recipient id was, whatever the two ids are: it cuts as
    many code units off the end as the sender id has. *)
Theorem decryptMedia_encryptMedia (mediaDataUrl : jsstring) (recipientId : string) :
  Forall octet mediaDataUrl ->
  exists encryptedMedia,
    encryptMedia mediaDataUrl recipientId = Return encryptedMedia /\
    (forall senderId,
       decryptMedia encryptedMedia senderId
       = Return (take (length mediaDataUrl + String.length recipientId
                       - String.length senderId)
                   (mediaDataUrl ++ js recipientId))) /\
    (forall senderId,
       String.length senderId = String.length recipientId ->
       decryptMedia encryptedMedia senderId = Return mediaDataUrl).
Proof.
  intros Hm. exists (encode (mediaDataUrl ++ js recipientId)).
  split; [by apply encryptMedia_octets|].
  split; [intros senderId; by apply decryptMedia_encode|].
  intros senderId Hlen. by apply decryptMedia_same_length.
Qed.



Lemma to_N_bounded (b : byte) : Byte.to_N b < 256.
Proof. pose proof (to_N_octets [b]) as H. cbn in H. by rewrite Forall_singleton in H. Qed.




End MediaFacts.

(** ** The encryption service: keys and transport encoding *)

Section KeyFacts.
Import Js Base64 Encoding Crypto Encryption.
Context {sc : SubtleCrypto}.

Lemma encode_length_exact (l : list N) :
  length (encode l) = (4 * ((length l + 2) / 3))%nat.
Proof.
  induction l as [| a | a b | a b c l IH] using list_ind3; [done..|].
  cbn [encode length]. rewrite IH.
  replace (S (S (S (length l))) + 2)%nat with (length l + 2 + 1 * 3)%nat by lia.
  rewrite Nat.div_add by done. lia.
Qed.

(** The two private helpers of the service are inverse to each other:
    every buffer has a base64 string, of four characters for each three
    bytes begun, from which [base64ToArrayBuffer] gives the buffer back;
    so different buffers have different strings. *)
Theorem arrayBufferToBase64_round_trip (buffer : bytes) :
  exists base64,
    arrayBufferToBase64 buffer = Return base64 /\
    base64ToArrayBuffer base64 = Return buffer /\
    length base64 = (4 * ((length buffer + 2) / 3))%nat /\
    (forall other, arrayBufferToBase64 other = Return base64 -> other = buffer).
Proof.
  exists (encode (Byte.to_N <$> buffer)).
  split; [apply arrayBufferToBase64_eq|].
  split; [apply base64ToArrayBuffer_arrayBufferToBase64|].
  split; [by rewrite encode_length_exact, length_fmap|].
  intros other Hother. rewrite arrayBufferToBase64_eq in Hother.
  injection Hother as Hother. by apply encode_inj.
Qed.


(** [getPublicKeyAsString] never fails: it generates a key pair when
    there is none and keeps the one there is, so that every later call
    returns the same string; the keys of the peers stay as they are. *)
Theorem getPublicKeyAsString_lazy (t : Tab) :
  exists publicKeyString t',
    getPublicKeyAsString t = (Return publicKeyString, t') /\
    keyPair (instance t') ≠ None /\
    getPublicKeyAsString t' = (Return publicKeyString, t') /\
    (keyPair (instance t) ≠ None -> t' = t) /\
    peerPublicKeys (instance t') = peerPublicKeys (instance t).
Proof.
  destruct (keyPair (instance t)) as [kp|] eqn:Hkp.
  - exists (key_string kp), t.
    rewrite (getPublicKeyAsString_generated t kp Hkp), Hkp. done.
  - unfold getPublicKeyAsString at 1.
    unfold mbind, eff_bind, gets, lift, mret, eff_ret.
    rewrite Hkp. unfold generateKeyPair, subtle_generateKey, mbind, eff_bind, modify.
    destruct (generateKey (entropy t)) as [kp e] eqn:Hgen. cbn.
    rewrite arrayBufferToBase64_eq.
    eexists _, _. split; [done|]. split; [done|].
    split; [by apply getPublicKeyAsString_generated|]. split; done.
Qed.

Context {laws : SubtleCryptoLaws sc}.

(** [addPeerPublicKey] with the key string of a key pair stores the
    public key under the identity given, in place of any key stored for
    it before, and touches nothing else; and a call that throws, on a
    string that is no base64 or no key, stores nothing. *)
Theorem addPeerPublicKey_stores (t : Tab) (userId : string)
    (kp : CryptoKeyPair PublicKey PrivateKey) :
  (exists t',
     addPeerPublicKey userId (key_string kp) t = (Return (), t') /\
     peerPublicKeys (instance t') !! userId = Some (publicKey kp) /\
     (forall other, other ≠ userId ->
        peerPublicKeys (instance t') !! other = peerPublicKeys (instance t) !! other) /\
     keyPair (instance t') = keyPair (instance t) /\
     entropy t' = entropy t) /\
  (forall publicKeyString error t',
     addPeerPublicKey userId publicKeyString t = (Throw error, t') -> t' = t).
Proof.
  split.
  - rewrite addPeerPublicKey_exported. eexists. split; [done|]. cbn.
    split; [apply lookup_insert_eq|]. split; [|done].
    intros other Hother. by apply lookup_insert_ne.
  - intros publicKeyString error t'.
    unfold addPeerPublicKey, mbind, eff_bind, lift, throw, modify.
    destruct (base64ToArrayBuffer publicKeyString) as [buffer|e]; [|congruence].
    destruct (importKey_ECDH buffer); congruence.
Qed.

End KeyFacts.

(** ** The listeners of the component *)

Section ListenerFacts.
Import Js Wire Crypto Encryption MediaEncryption Chat.
Context {sc : SubtleCrypto}.

(** Decryption reads the tab and writes nothing. *)
Lemma decryptMessage_tab envelope senderId (t : Tab) :
  (decryptMessage envelope senderId t).2 = t.
Proof.
  unfold decryptMessage, mbind, eff_bind, gets, lift, throw, mret, eff_ret.
  destruct (peerPublicKeys (instance t) !! senderId); [|done].
  destruct (keyPair (instance t)); cbn; [|done].
  destruct (importKey_AES _); cbn; [|done].
  destruct (base64ToArrayBuffer envelope); cbn; [|done].
  by destruct (AES_GCM_decrypt _ _ _).
Qed.

Lemma encryptionService_decryptMessage envelope senderId (c : Chat) :
  encryptionService (decryptMessage envelope senderId) c
  = ((decryptMessage envelope senderId (tab c)).1, c).
Proof.
  unfold encryptionService, zoom.
  pose proof (decryptMessage_tab envelope senderId (tab c)) as Htab.
  destruct (decryptMessage envelope senderId (tab c)) as [r t']. cbn in *.
  by rewrite Htab, set_tab_tab.
Qed.

Lemma handleReceiveMessage_returns (data : ReceiveMessage.t) (c : Chat) :
  (handleReceiveMessage data c).1 = Return ().
Proof.
  unfold handleReceiveMessage, try_catch, mbind, eff_bind.
  rewrite encryptionService_decryptMessage.
  destruct (decryptMessage _ _ (tab c)) as [[text|e] t']; cbn [fst snd]; [|done].
  unfold gets, lift, mret, eff_ret.
  destruct (ReceiveMessage.media data) as [media|]; cbn.
  - destruct (decryptMedia _ _) as [decrypted|e]; cbn; [|done].
    destruct (userId c) as [u|], (selectedRoom c) as [r|]; cbn;
      try (destruct (socket c && truthy u && truthy r); cbn); done.
  - destruct (userId c) as [u|], (selectedRoom c) as [r|]; cbn;
      try (destruct (socket c && truthy u && truthy r); cbn); done.
Qed.

(** [handleReceiveMessage] on an event whose text and media decrypt. *)
Lemma handleReceiveMessage_decrypts (data : ReceiveMessage.t) (B : Chat) text media :
  decryptMessage (ReceiveMessage.encryptedMessage data) (ReceiveMessage.sender data) (tab B)
  = (Return text, tab B) ->
  match ReceiveMessage.media data with
  | None => media = None
  | Some wire =>
      exists decrypted,
        decryptMedia (MediaData.encryptedData wire) (ReceiveMessage.sender data)
        = Return decrypted /\
        media = Some {| Media.type := MediaData.type wire;
                        Media.data := decrypted;
                        Media.hash := MediaData.hash wire;
                        Media.verified :=
                          bool_decide (calculateHash decrypted = MediaData.hash wire) |}
  end ->
  (handleReceiveMessage data B).1 = Return () /\
  messages (after (handleReceiveMessage data) B)
  = messages B
    ++ [{| Message.id := ReceiveMessage.id data;
           Message.text := text;
           Message.sender := ReceiveMessage.sender data;
           Message.timestamp := ReceiveMessage.timestamp data;
           Message.isDecrypted := true;
           Message.editedAt := None;
           Message.reactions := Some [];
           Message.media := media;
           Message.replyTo := ReceiveMessage.replyTo data;
           Message.isDeleted := None;
           Message.readBy := Some [] |}] /\
  emitted (after (handleReceiveMessage data) B)
  = emitted B ++ receipt_for (ReceiveMessage.id data) B /\
  tab (after (handleReceiveMessage data) B) = tab B.
Proof.
  intros Hdec Hmedia.
  unfold after, handleReceiveMessage, try_catch, mbind, eff_bind.
  rewrite encryptionService_decryptMessage, Hdec. cbn [fst snd].
  unfold gets, lift, mret, eff_ret, receipt_for.
  destruct (ReceiveMessage.media data) as [wire|].
  - destruct Hmedia as (decrypted & -> & ->). cbn.
    destruct (userId B) as [u|], (selectedRoom B) as [r|]; cbn;
      try (destruct (socket B && truthy u && truthy r); cbn);
      rewrite ?app_nil_r; done.
  - subst media. cbn.
    destruct (userId B) as [u|], (selectedRoom B) as [r|]; cbn;
      try (destruct (socket B && truthy u && truthy r); cbn);
      rewrite ?app_nil_r; done.
Qed.

(** The receipt of a client that has a socket, an identity and a room. *)
Lemma receipt_for_attending messageId (c : Chat) id room :
  attending c id room ->
  receipt_for messageId c
  = [ClientEvent.message_read
       {| Read.messageId := messageId; Read.userId := id; Read.roomId := room |}].
Proof.
  intros (Hs & Hu & Htu & Hr & Htr). unfold receipt_for. by rewrite Hu, Hr, Hs, Htu, Htr.
Qed.

(** [handleReceiveMessage] on an event whose text or media does not
    decrypt: the placeholder joins the list, and nothing goes out. *)
Lemma handleReceiveMessage_fails (data : ReceiveMessage.t) (c : Chat) :
  ~ decrypts data c ->
  messages (after (handleReceiveMessage data) c) = messages c ++ [undecryptable data] /\
  emitted (after (handleReceiveMessage data) c) = emitted c.
Proof.
  intros Hfails. unfold decrypts in Hfails.
  unfold after, handleReceiveMessage, try_catch, mbind, eff_bind.
  rewrite encryptionService_decryptMessage.
  destruct (decryptMessage _ _ (tab c)) as [[text|e] t']; cbn [fst snd] in *; [|done].
  unfold gets, lift, mret, eff_ret.
  destruct (ReceiveMessage.media data) as [media|]; cbn.
  - destruct (decryptMedia _ _) as [decrypted|e]; cbn; [|done].
    destruct Hfails. split; [by eexists|by eexists].
  - destruct Hfails. split; [by eexists|done].
Qed.

(** [handleReceiveMessage] always returns and always adds one message
    at the end of the list, with the id, the sender and the time stamp
    of the event.  When the text and the media of the event decrypt, the
    message is listed as decrypted, with the text, the media (verified
    when its hash is the one sent) and the reply of the event, and the
    read receipt goes out: one [message-read] event under the identity
    and to the room of a client that has a socket, an identity and a
    room.  When either fails, the message is the placeholder, not
    decrypted, and nothing goes out. *)
Theorem handleReceiveMessage_appends (data : ReceiveMessage.t) (c : Chat) :
  let c' := after (handleReceiveMessage data) c in
  (handleReceiveMessage data c).1 = Return () /\
  exists msg,
    messages c' = messages c ++ [msg] /\
    Message.id msg = ReceiveMessage.id data /\
    Message.sender msg = ReceiveMessage.sender data /\
    Message.timestamp msg = ReceiveMessage.timestamp data /\
    (Message.isDecrypted msg = true <-> decrypts data c) /\
    (decrypts data c ->
       (decryptMessage (ReceiveMessage.encryptedMessage data) (ReceiveMessage.sender data)
          (tab c)).1 = Return (Message.text msg) /\
       Message.replyTo msg = ReceiveMessage.replyTo data /\
       match ReceiveMessage.media data with
       | None => Message.media msg = None
       | Some wire =>
           exists decrypted,
             decryptMedia (MediaData.encryptedData wire) (ReceiveMessage.sender data)
             = Return decrypted /\
             Message.media msg
             = Some {| Media.type := MediaData.type wire;
                       Media.data := decrypted;
                       Media.hash := MediaData.hash wire;
                       Media.verified :=
                         bool_decide (calculateHash decrypted = MediaData.hash wire) |}
       end /\
       emitted c' = emitted c ++ receipt_for (ReceiveMessage.id data) c /\
       forall id room,
         attending c id room ->
         emitted c'
         = emitted c
           ++ [ClientEvent.message_read
                 {| Read.messageId := ReceiveMessage.id data; Read.userId := id;
                    Read.roomId := room |}]) /\
    (~ decrypts data c -> msg = undecryptable data /\ emitted c' = emitted c).
Proof.
  intros c'. split; [apply handleReceiveMessage_returns|].
  assert (decrypts data c \/ ~ decrypts data c) as [Hyes|Hno].
  { unfold decrypts.
    destruct (decryptMessage _ _ (tab c)).1 as [text|e]; [|right; intros [[? ?] _]; done].
    destruct (ReceiveMessage.media data) as [wire|]; [|left; split; [by eexists|done]].
    destruct (decryptMedia _ _) as [decrypted|e]; [left; split; by eexists|].
    right. intros [_ [? ?]]. done. }
  - pose proof Hyes as [[text Htext] Hmedia].
    assert (decryptMessage (ReceiveMessage.encryptedMessage data) (ReceiveMessage.sender data)
              (tab c) = (Return text, tab c)) as Hdec.
    { pose proof (decryptMessage_tab (ReceiveMessage.encryptedMessage data)
                    (ReceiveMessage.sender data) (tab c)) as Htab.
      destruct (decryptMessage _ _ (tab c)) as [r t']. cbn in *. by subst. }
    set (media :=
           match ReceiveMessage.media data with
           | None => None
           | Some wire =>
               match decryptMedia (MediaData.encryptedData wire) (ReceiveMessage.sender data) with
               | Return decrypted =>
                   Some {| Media.type := MediaData.type wire;
                           Media.data := decrypted;
                           Media.hash := MediaData.hash wire;
                           Media.verified :=
                             bool_decide (calculateHash decrypted = MediaData.hash wire) |}
               | Throw _ => None
               end
           end).
    destruct (handleReceiveMessage_decrypts data c text media Hdec)
      as (_ & Hmessages & Hemitted & _).
    { subst media. destruct (ReceiveMessage.media data) as [wire|]; [|done].
      destruct Hmedia as [decrypted Hmedia]. exists decrypted. by rewrite Hmedia. }
    fold c' in Hmessages, Hemitted.
    eexists. split; [exact Hmessages|]. cbn.
    split; [done|]. split; [done|]. split; [done|]. split; [done|].
    split; [|intros Hno; done].
    intros _. split; [by rewrite Htext|]. split; [done|].
    split; [|split; [exact Hemitted|]].
    + subst media. destruct (ReceiveMessage.media data) as [wire|]; [|done].
      destruct Hmedia as [decrypted Hmedia]. exists decrypted. by rewrite Hmedia.
    + intros id room Hattending. rewrite Hemitted.
      by rewrite (receipt_for_attending _ c id room Hattending).
  - destruct (handleReceiveMessage_fails data c Hno) as [Hmessages Hemitted].
    fold c' in Hmessages, Hemitted.
    exists (undecryptable data). split; [exact Hmessages|]. cbn.
    split; [done|]. split; [done|]. split; [done|].
    split; [split; [done|intros Hyes; done]|].
    split; [intros Hyes; done|done].
Qed.

(** What the listeners leave alone: the identity, the selected room,
    and, but for [user-typing], the typing state. *)
Lemma on_context event now (c : Chat) :
  userId (after (on event now) c) = userId c /\
  selectedRoom (after (on event now) c) = selectedRoom c /\
  ((forall data, event ≠ ServerEvent.user_typing data) ->
   typingUsers (after (on event now) c) = typingUsers c).
Proof.
  destruct event as [u|data|data|data|data|data|data|data]; cbn [on].
  - unfold after, handleUserConnected, mbind, eff_bind, gets, encryptionService, zoom.
    destruct (userId c) as [u'|] eqn:Hu; [|cbn; by rewrite Hu].
    destruct (truthy u'); [|cbn; by rewrite Hu].
    destruct (getPublicKeyAsString (tab c)) as [[key|e] t']; cbn; by rewrite Hu.
  - unfold after, handleReceiveMessage, try_catch, mbind, eff_bind.
    rewrite encryptionService_decryptMessage.
    destruct (decryptMessage _ _ (tab c)) as [[text|e] t']; cbn [fst snd]; [|done].
    unfold gets, lift, mret, eff_ret.
    destruct (ReceiveMessage.media data) as [media|]; cbn.
    + destruct (decryptMedia _ _) as [decrypted|e]; cbn; [|done].
      destruct (userId c) as [u|], (selectedRoom c) as [r|]; cbn;
        try (destruct (socket c && truthy u && truthy r); cbn); done.
    + destruct (userId c) as [u|], (selectedRoom c) as [r|]; cbn;
        try (destruct (socket c && truthy u && truthy r); cbn); done.
  - unfold after, handleMessageEdit, try_catch, mbind, eff_bind.
    rewrite encryptionService_decryptMessage.
    by destruct (decryptMessage _ _ (tab c)) as [[text|e] t'].
  - done.
  - done.
  - unfold after, handleMessageRead, mbind, eff_bind, gets. by case_bool_decide.
  - pose proof (handleUserTyping_context data now c) as [Hu Hr].
    split; [done|]. split; [done|]. intros Hne. by destruct (Hne data).
  - unfold after, handleKeyExchange, mbind, eff_bind, gets, encryptionService, zoom.
    destruct (addPeerPublicKey _ _ (tab c)) as [[[]|e] t']; [|done]. cbn.
    destruct (userId c) as [u|] eqn:Hu; [|cbn; by rewrite Hu].
    destruct (truthy u && _); [|cbn; by rewrite Hu].
    cbn. destruct (getPublicKeyAsString t') as [[key|e] t'']; cbn; by rewrite Hu.
Qed.


Lemma elem_of_fmap_filter {A B} (f : A -> B) (P : A -> Prop) `{!forall x, Decision (P x)}
    (l : list A) (y : B) :
  y ∈ f <$> filter P l -> y ∈ f <$> l.
Proof.
  rewrite !list_elem_of_fmap. intros (x & -> & Hx).
  apply list_elem_of_filter in Hx as [_ Hx]. by exists x.
Qed.

Lemma NoDup_fmap_filter {A B} (f : A -> B) (P : A -> Prop) `{!forall x, Decision (P x)}
    (l : list A) :
  NoDup (f <$> l) -> NoDup (f <$> filter P l).
Proof.
  induction l as [|x l IH]; [done|]. cbn [fmap list_fmap].
  rewrite NoDup_cons. intros [Hx Hl]. rewrite filter_cons.
  destruct (decide (P x)); [|by apply IH]. cbn [fmap list_fmap].
  apply NoDup_cons. split; [|by apply IH].
  intros Hin. apply Hx. by apply elem_of_fmap_filter in Hin.
Qed.

(** The typing state never names a user twice and never names the
    local user: no listener and no run of the expiry interval breaks
    this. *)
Theorem typing_state_ok_kept event now (c : Chat) :
  typing_state_ok c ->
  typing_state_ok (after (on event now) c) /\ typing_state_ok (after (sweep now) c).
Proof.
  intros [Hnodup Hself]. split.
  - destruct (on_context event now c) as (Hu & _ & Hothers).
    unfold typing_state_ok, typing_ids in *. rewrite Hu.
    destruct event as [u|data|data|data|data|data|data|data];
      try (rewrite Hothers by done; done).
    cbn [on]. rewrite handleUserTyping_typingUsers.
    case_bool_decide as Haccepted; [|done].
    destruct Haccepted as [Hother _].
    rewrite fmap_app. cbn [fmap list_fmap TypingUser.userId]. split.
    + apply NoDup_app. split; [by apply NoDup_fmap_filter|].
      split; [|apply NoDup_singleton].
      intros user Huser Hin. apply list_elem_of_singleton in Hin as ->.
      apply list_elem_of_fmap in Huser as (entry & Hentry & Hfiltered).
      apply list_elem_of_filter in Hfiltered as [Hne _]. by apply Hne.
    + intros user Huser Hin. apply elem_of_app in Hin as [Hin|Hin].
      * apply elem_of_fmap_filter in Hin. by apply (Hself user).
      * apply list_elem_of_singleton in Hin as ->. by apply Hother.
  - unfold typing_state_ok, typing_ids in *. rewrite sweep_typingUsers.
    split; [by apply NoDup_fmap_filter|].
    intros user Huser Hin. apply elem_of_fmap_filter in Hin. by apply (Hself user).
Qed.

Lemma handleMessageRead_eq (data : MessageRead.t) (c : Chat) :
  handleMessageRead data c
  = if bool_decide (Some (MessageRead.userId data) = userId c) then (Return (), c)
    else setMessages (fun prev =>
           (fun msg =>
              if String.eqb (Message.id msg) (MessageRead.messageId data) then
                if bool_decide (MessageRead.userId data ∈ readBy_of msg) then msg
                else Message.with_readBy (readBy_of msg ++ [MessageRead.userId data]) msg
              else msg) <$> prev) c.
Proof.
  unfold handleMessageRead, mbind, eff_bind, gets. cbn.
  case_bool_decide; [done|]. unfold setMessages, modify. do 2 f_equal.
  apply list_fmap_ext. intros _ msg _. destruct (String.eqb _ _); [|done].
  unfold readBy_of. by case_bool_decide.
Qed.

(** A read receipt of the local user changes nothing.  A receipt of
    another user puts the user among the readers of every message of
    the id, once: no message comes to name a reader twice, and the same
    receipt a second time changes nothing. *)
Theorem handleMessageRead_receipt (data : MessageRead.t) (c : Chat) :
  let c' := after (handleMessageRead data) c in
  (handleMessageRead data c).1 = Return () /\
  (Some (MessageRead.userId data) = userId c -> c' = c) /\
  (Some (MessageRead.userId data) ≠ userId c ->
     Forall (fun msg => Message.id msg = MessageRead.messageId data ->
                        MessageRead.userId data ∈ readBy_of msg) (messages c')) /\
  (readers_unique c -> readers_unique c') /\
  after (handleMessageRead data) c' = c'.
Proof.
  intros c'. subst c'. unfold after. rewrite !handleMessageRead_eq.
  case_bool_decide as Hown.
  { cbn [fst snd]. rewrite ?bool_decide_eq_true_2 by done. done. }
  cbn [setMessages modify fst snd]. split; [done|]. split; [done|].
  set (f := fun msg : Message.t =>
              if String.eqb (Message.id msg) (MessageRead.messageId data) then
                if bool_decide (MessageRead.userId data ∈ readBy_of msg) then msg
                else Message.with_readBy (readBy_of msg ++ [MessageRead.userId data]) msg
              else msg).
  assert (forall msg, Message.id msg = MessageRead.messageId data ->
                      MessageRead.userId data ∈ readBy_of (f msg)) as Hreader.
  { intros msg Hid. unfold f. rewrite Hid, String.eqb_refl.
    case_bool_decide; [done|]. unfold readBy_of at 1. cbn.
    apply elem_of_app. right. by apply list_elem_of_singleton. }
  assert (forall msg, Message.id (f msg) = Message.id msg) as Hid.
  { intros msg. unfold f. destruct (String.eqb _ _); [|done]. by case_bool_decide. }
  assert (forall msg, f (f msg) = f msg) as Hidem.
  { intros msg. unfold f at 1. rewrite Hid.
    destruct (String.eqb (Message.id msg) _) eqn:Heq; [|done].
    apply String.eqb_eq in Heq. by rewrite bool_decide_eq_true_2 by by apply Hreader. }
  split; [|split].
  - intros _. cbn. apply Forall_fmap, Forall_forall. intros msg _. cbn.
    rewrite Hid. apply Hreader.
  - unfold readers_unique. cbn. intros Hunique. apply Forall_fmap.
    eapply Forall_impl; [exact Hunique|]. intros msg Hmsg. cbn. unfold f.
    destruct (String.eqb _ _); [|done]. case_bool_decide as Hin; [done|].
    unfold readBy_of at 1. cbn. apply NoDup_app. split; [done|].
    split; [|apply NoDup_singleton].
    intros user Huser Huser'. apply list_elem_of_singleton in Huser' as ->. done.
  - cbn [userId]. rewrite bool_decide_eq_false_2 by done.
    cbn [setMessages modify fst snd messages tab socket userId selectedRoom recipientId
         typingUsers editingMessageId editText emitted]. f_equal.
    rewrite <- list_fmap_compose. apply list_fmap_ext. intros _ msg _. apply Hidem.
Qed.

End ListenerFacts.

(** ** From the input line of one client to the list of another *)

Section ConversationFacts.
Import Js Encoding Wire Crypto Encryption MediaEncryption Chat Composer.
Context {sc : SubtleCrypto} {laws : SubtleCryptoLaws sc}.

Lemma relays_relayed socket_id event rooms delivered :
  relays socket_id event rooms delivered -> delivered = relayed socket_id event.
Proof.
  intros [recipient Hin]. destruct (scope event) as [room|] eqn:Hscope.
  - rewrite (on_deliveries _ _ _ _ Hscope) in Hin.
    pose proof (to_emit_event socket_id room (relayed socket_id event)
                  (SocketService.on socket_id event rooms).1) as Hall.
    rewrite Forall_forall in Hall. by apply Hall in Hin.
  - destruct event; try done. cbn in Hscope, Hin. rewrite Hscope in Hin.
    cbn in Hin. by apply elem_of_nil in Hin.
Qed.

(** [sendMessage] of a connected client whose tab holds the key of the
    recipient: one [send-message] event goes out, with an envelope that
    the recipient decrypts. *)
Lemma sendMessage_sends (A B : Chat) idA idB roomId P media replyTo messageId timestamp :
  mutual_key_exchange (tab A) (tab B) idA idB ->
  socket A = true -> userId A = Some idA -> truthy idA = true ->
  exists envelope,
    decryptMessage envelope idA (tab B)
    = (Return (TextDecoder_decode (TextEncoder_encode P)), tab B) /\
    sendMessage roomId P idB media replyTo messageId timestamp A
    = emit (ClientEvent.send_message
              {| SendMessage.id := messageId;
                 SendMessage.roomId := roomId;
                 SendMessage.encryptedMessage := envelope;
                 SendMessage.sender := idA;
                 SendMessage.timestamp := timestamp;
                 SendMessage.replyTo := if truthy_opt replyTo then replyTo else None;
                 SendMessage.media := media |})
        (set_tab (drawn 12 (tab A)) A).
Proof.
  intros Hx Hsocket Hu Htu.
  destruct (decryptMessage_encryptMessage (tab A) (tab B) idA idB P Hx)
    as (envelope & Henc & Hdec).
  exists envelope. split; [exact Hdec|].
  unfold sendMessage, try_catch, mbind, eff_bind, gets, encryptionService, zoom.
  rewrite Hsocket, Hu, Htu. cbn [andb]. by rewrite Henc.
Qed.

(** What [handleSendMessage] does in a conversation: the local copy
    joins the list under the first id drawn, one [send-message] event
    goes out under the second, and the input line is cleared. *)
Lemma handleSendMessage_sends (A : Composer) (B : Chat) idA idB room drawn :
  conversation (chat A) B idA idB room ->
  sendable A idA idB ->
  let A' := (handleSendMessage drawn A).2 in
  exists data,
    (handleSendMessage drawn A).1 = Return () /\
    messages (chat A')
    = messages (chat A)
      ++ [localMessage drawn (inputMessage A) (Some idA) (media_of <$> mediaFile A)
            (replyToMessageId A)] /\
    sent (ClientEvent.send_message data) (chat A) (chat A') /\
    (socket (chat A') = socket (chat A) /\ userId (chat A') = userId (chat A) /\
     selectedRoom (chat A') = selectedRoom (chat A)) /\
    (inputMessage A' = [] /\ mediaFile A' = None /\ replyToMessageId A' = None) /\
    (SendMessage.id data = wireMessageId drawn /\
     SendMessage.roomId data = room /\
     SendMessage.sender data = idA /\
     SendMessage.timestamp data = wireTimestamp drawn /\
     SendMessage.replyTo data
     = if truthy_opt (replyToMessageId A) then replyToMessageId A else None) /\
    decryptMessage (SendMessage.encryptedMessage data) idA (tab B)
    = (Return (TextDecoder_decode (TextEncoder_encode (inputMessage A))), tab B) /\
    match mediaFile A with
    | None => SendMessage.media data = None
    | Some file =>
        exists encryptedData,
          SendMessage.media data
          = Some {| MediaData.encryptedData := encryptedData;
                    MediaData.type := File.type file;
                    MediaData.hash := calculateHash (File.dataUrl file) |} /\
          decryptMedia encryptedData idA = Return (File.dataUrl file)
    end.
Proof.
  intros (Hx & Hsocket & Hu & Htu & Hroom & Htroom & Hrecipient & Htrecipient) Hsendable A'.
  subst A'. unfold sendable in Hsendable.
  unfold handleSendMessage, mbind, eff_bind, gets.
  rewrite Hroom, Hrecipient, Htrecipient, Hu. cbn [truthy_opt]. rewrite Htroom.
  destruct (mediaFile A) as [file|] eqn:Hfile.
  - destruct Hsendable as [Hoctets Hlen].
    rewrite bool_decide_eq_true_2 by done. rewrite andb_false_r. cbn [orb negb].
    pose proof (encryptMedia_octets (File.dataUrl file) idB Hoctets) as Henc.
    pose proof (decryptMedia_same_length (File.dataUrl file) idB idA Hoctets Hlen) as Hdec.
    unfold try_catch, mbind, eff_bind, lift, component, zoom, setIsUploading, modify.
    cbn [fst snd]. rewrite Henc.
    cbn [setMessages modify fst snd chat set_chat].
    match goal with
    | |- context [sendMessage ?r ?P idB ?m ?rep ?mid ?ts ?c] =>
        destruct (sendMessage_sends c B idA idB r P m rep mid ts) as (envelope & Hdecrypt & ->);
          [exact Hx|exact Hsocket|exact Hu|exact Htu|]
    end.
    eexists. cbn. unfold sent. cbn.
    split; [done|]. split; [done|]. split; [done|]. split; [done|].
    split; [done|]. split; [done|]. split; [exact Hdecrypt|].
    eexists. split; [done|]. exact Hdec.
  - rewrite bool_decide_eq_false_2 by (by intros [? ?]).
    rewrite Hsendable. cbn [andb orb negb].
    unfold component, zoom. cbn [setMessages modify fst snd chat set_chat].
    match goal with
    | |- context [sendMessage ?r ?P idB ?m ?rep ?mid ?ts ?c] =>
        destruct (sendMessage_sends c B idA idB r P m rep mid ts) as (envelope & Hdecrypt & ->);
          [exact Hx|exact Hsocket|exact Hu|exact Htu|]
    end.
    eexists. cbn. unfold sent. cbn.
    split; [done|]. split; [done|]. split; [done|]. split; [done|].
    split; [done|]. split; [done|]. split; [exact Hdecrypt|]. done.
Qed.



(** The sender holds its own message under another id than the one
    that went over the wire.  When the sender deletes its copy, the
    deletion carries the id of the copy; relayed by the server, it
    deletes the message at the recipient only if the two ids that
    [handleSendMessage] and [sendMessage] drew happen to be the same. *)
Theorem own_copy_under_another_id (A : Composer) (B : Chat) idA idB room drawn now now' :
  conversation (chat A) B idA idB room ->
  sendable A idA idB ->
  plain_text (inputMessage A) ->
  let A1 := chat (handleSendMessage drawn A).2 in
  let A2 := after (handleDeleteMessage (messageId drawn)) A1 in
  exists sending deleting own,
    sent sending (chat A) A1 /\
    sent deleting A1 A2 /\
    last (messages A2) = Some own /\
    Message.id own = messageId drawn /\
    Message.isDeleted own = Some true /\
    forall rooms rooms' received deleted,
      relays idA sending rooms received ->
      relays idA deleting rooms' deleted ->
      let B2 := after (on deleted now') (after (on received now) B) in
      exists msg,
        last (messages B2) = Some msg /\
        Message.id msg = wireMessageId drawn /\
        (Message.isDeleted msg = Some true <-> messageId drawn = wireMessageId drawn).
Proof.
  intros Hconversation Hsendable (Hjs & Hwf & Hbom) A1 A2.
  destruct (handleSendMessage_sends A B idA idB room drawn Hconversation Hsendable)
    as (data & _ & Hlocal & Hsent & (Hsocket & _ & Hroom) & _ & (Hid & _ & Hsender & _)
        & Hdecrypt & Hmedia).
  destruct Hconversation as (_ & Hsocket' & _ & _ & Hroom' & _).
  fold A1 in Hlocal, Hsent, Hsocket, Hroom.
  rewrite Hsocket' in Hsocket. rewrite Hroom' in Hroom.
  exists (ClientEvent.send_message data),
    (ClientEvent.delete_message
       {| DeleteMessage.id := messageId drawn; DeleteMessage.roomId := Some room |}).
  eexists. split; [exact Hsent|].
  assert (messages A2
          = (fun msg => if String.eqb (Message.id msg) (messageId drawn)
                        then Message.with_isDeleted msg else msg) <$> messages A1)
    as Hdeleted by apply handleDeleteMessage_messages.
  split; [|split; [|split; [|split]]].
  - subst A2. unfold sent, after, handleDeleteMessage, mbind, eff_bind, gets, emit_if_socket.
    cbn. by rewrite Hsocket, Hroom.
  - rewrite Hdeleted, Hlocal, fmap_app. cbn [fmap list_fmap]. rewrite last_snoc.
    cbn [localMessage Message.id]. rewrite String.eqb_refl. reflexivity.
  - done.
  - done.
  - intros rooms rooms' received deleted Hreceived Hdeleted' B2.
    apply relays_relayed in Hreceived. apply relays_relayed in Hdeleted'.
    subst received deleted B2. cbn [relayed on].
    rewrite TextDecoder_TextEncoder_well_formed in Hdecrypt by done.
    match goal with
    | |- context [handleReceiveMessage ?d] =>
        destruct (handleReceiveMessage_decrypts d B (inputMessage A)
                    (media_of <$> mediaFile A)) as (_ & Hmessages & _)
    end.
    + cbn. by rewrite Hsender.
    + cbn. destruct (mediaFile A) as [file|].
      * destruct Hmedia as (encryptedData & -> & Hdec). rewrite Hsender.
        exists (File.dataUrl file). split; [exact Hdec|]. cbn.
        by rewrite bool_decide_eq_true_2.
      * by rewrite Hmedia.
    + rewrite handleMessageDelete_messages, Hmessages, fmap_app.
      cbn [fmap list_fmap]. rewrite last_snoc.
      cbn [Message.id MessageDelete.id DeleteMessage.id ReceiveMessage.id].
      rewrite Hid. eexists. split; [reflexivity|].
      destruct (String.eqb (wireMessageId drawn) (messageId drawn)) eqn:Heq.
      * apply String.eqb_eq in Heq. cbn. split; [done|]. by split.
      * apply String.eqb_neq in Heq. cbn. split; [done|]. split; [done|congruence].
Qed.

(** After [handleSendMessage] the two clients are in the same
    conversation as before, and no message is being edited that was not. *)
Lemma handleSendMessage_conversation (A : Composer) (B : Chat) idA idB room drawn :
  conversation (chat A) B idA idB room ->
  sendable A idA idB ->
  let A' := chat (handleSendMessage drawn A).2 in
  conversation A' B idA idB room.
Proof.
  intros (Hx & Hsocket & Hu & Htu & Hroom & Htroom & Hrecipient & Htrecipient) Hsendable A'.
  assert (forall t, instance t = instance (tab (chat A)) ->
            mutual_key_exchange t (tab B) idA idB) as Hx'.
  { intros t Ht. destruct Hx as (a & b & ? & ? & ? & ?). exists a, b. by rewrite Ht. }
  subst A'. unfold sendable in Hsendable.
  unfold handleSendMessage, mbind, eff_bind, gets.
  rewrite Hroom, Hrecipient, Htrecipient, Hu. cbn [truthy_opt]. rewrite Htroom.
  destruct (mediaFile A) as [file|] eqn:Hfile.
  - destruct Hsendable as [Hoctets Hlen].
    rewrite bool_decide_eq_true_2 by done. rewrite andb_false_r. cbn [orb negb].
    pose proof (encryptMedia_octets (File.dataUrl file) idB Hoctets) as Henc.
    unfold try_catch, mbind, eff_bind, lift, component, zoom, setIsUploading, modify.
    cbn [fst snd]. rewrite Henc.
    cbn [setMessages modify fst snd chat set_chat].
    match goal with
    | |- context [sendMessage ?r ?P idB ?m ?rep ?mid ?ts ?c] =>
        destruct (sendMessage_sends c B idA idB r P m rep mid ts) as (envelope & _ & ->);
          [exact Hx|exact Hsocket|exact Hu|exact Htu|]
    end.
    cbn. split; [by apply Hx'|]. done.
  - rewrite bool_decide_eq_false_2 by (by intros [? ?]).
    rewrite Hsendable. cbn [andb orb negb].
    unfold component, zoom. cbn [setMessages modify fst snd chat set_chat].
    match goal with
    | |- context [sendMessage ?r ?P idB ?m ?rep ?mid ?ts ?c] =>
        destruct (sendMessage_sends c B idA idB r P m rep mid ts) as (envelope & _ & ->);
          [exact Hx|exact Hsocket|exact Hu|exact Htu|]
    end.
    cbn. split; [by apply Hx'|]. done.
Qed.

(** [saveEditedMessage] in a conversation, with a text that is not
    blank: the text goes into the messages of the id, one
    [edit-message] event goes out, with an envelope that the recipient
    decrypts, and the editing ends. *)
Lemma saveEditedMessage_sends (A B : Chat) idA idB room editedAt messageId :
  conversation A B idA idB room ->
  editingMessageId A = Some messageId -> truthy messageId = true ->
  trim_is_empty (editText A) = false ->
  exists envelope,
    decryptMessage envelope idA (tab B)
    = (Return (TextDecoder_decode (TextEncoder_encode (editText A))), tab B) /\
    saveEditedMessage editedAt A
    = (Return (),
       {| tab := drawn 12 (tab A); socket := socket A; userId := userId A;
          selectedRoom := selectedRoom A; recipientId := recipientId A;
          messages :=
            (fun own => if String.eqb (Message.id own) messageId
                        then Message.with_text (editText A) editedAt own else own)
              <$> messages A;
          typingUsers := typingUsers A;
          editingMessageId := None; editText := [];
          emitted :=
            emitted A
            ++ [ClientEvent.edit_message
                  {| EditMessage.id := messageId;
                     EditMessage.roomId := room;
                     EditMessage.encryptedMessage := envelope;
                     EditMessage.editedAt := editedAt |}] |}).
Proof.
  intros (Hx & Hsocket & Hu & Htu & Hroom & Htroom & Hrecipient & Htrecipient)
    Hediting Htid Hblank.
  destruct (decryptMessage_encryptMessage (tab A) (tab B) idA idB (editText A) Hx)
    as (envelope & Henc & Hdec).
  exists envelope. split; [exact Hdec|].
  unfold saveEditedMessage, mbind, eff_bind, gets.
  rewrite Hediting, Hroom, Htid, Hblank, Htroom, Hrecipient, Htrecipient.
  cbn [negb orb]. unfold try_catch, mbind, eff_bind, encryptionService, zoom.
  rewrite Henc. cbn. unfold emit_if_socket, mbind, eff_bind, gets. cbn.
  rewrite Hsocket. unfold emit, cancelEdit, setEditing, modify, mret, eff_ret. cbn.
  by rewrite ?Hsocket, ?Hroom, ?Hrecipient.
Qed.

(** The edit of an own message goes out under the id of the own copy.
    A client sends a message, opens its copy for editing, types a text
    and saves it: the copy takes the text, and one [edit-message] event
    goes out.  The recipient holds the message under the id that went
    over the wire; when the server has relayed both events, it holds the
    new text only if the two ids that [handleSendMessage] and
    [sendMessage] drew happen to be the same, and the text sent first
    otherwise. *)
Theorem own_edit_under_another_id (A : Composer) (B : Chat) idA idB room drawn
    (text : jsstring) editedAt now now' :
  conversation (chat A) B idA idB room ->
  sendable A idA idB ->
  plain_text (inputMessage A) ->
  plain_text text -> trim_is_empty text = false ->
  truthy (messageId drawn) = true ->
  let A1 := chat (handleSendMessage drawn A).2 in
  let A2 := after (saveEditedMessage editedAt)
              (after (handleEditMessage (messageId drawn) text) A1) in
  exists sending editing own,
    sent sending (chat A) A1 /\
    sent editing A1 A2 /\
    last (messages A2) = Some own /\
    Message.id own = messageId drawn /\
    Message.text own = text /\
    Message.editedAt own = Some editedAt /\
    forall rooms rooms' received edited,
      relays idA sending rooms received ->
      relays idA editing rooms' edited ->
      let B2 := after (on edited now') (after (on received now) B) in
      exists msg,
        last (messages B2) = Some msg /\
        Message.id msg = wireMessageId drawn /\
        (messageId drawn = wireMessageId drawn ->
           Message.text msg = text /\ Message.editedAt msg = Some editedAt) /\
        (messageId drawn ≠ wireMessageId drawn ->
           Message.text msg = inputMessage A /\ Message.editedAt msg = None).
Proof.
  intros Hconversation Hsendable (Hjs & Hwf & Hbom) (Hjs' & Hwf' & Hbom') Hblank Htid A1 A2.
  destruct (handleSendMessage_sends A B idA idB room drawn Hconversation Hsendable)
    as (data & _ & Hlocal & Hsent & _ & _ & (Hid & _ & Hsender & _) & Hdecrypt & Hmedia).
  pose proof (handleSendMessage_conversation A B idA idB room drawn Hconversation Hsendable)
    as Hconversation1.
  fold A1 in Hlocal, Hsent, Hconversation1.
  set (A1' := after (handleEditMessage (messageId drawn) text) A1) in *.
  assert (conversation A1' B idA idB room) as Hconversation1' by exact Hconversation1.
  destruct (saveEditedMessage_sends A1' B idA idB room editedAt (messageId drawn)
              Hconversation1' eq_refl Htid Hblank) as (envelope & Hdec & Hsave).
  cbn [A1' after handleEditMessage setEditing modify snd editText] in Hdec.
  rewrite TextDecoder_TextEncoder_well_formed in Hdec by done.
  rewrite TextDecoder_TextEncoder_well_formed in Hdecrypt by done.
  exists (ClientEvent.send_message data),
    (ClientEvent.edit_message
       {| EditMessage.id := messageId drawn; EditMessage.roomId := room;
          EditMessage.encryptedMessage := envelope; EditMessage.editedAt := editedAt |}).
  assert (messages A2
          = (fun own => if String.eqb (Message.id own) (messageId drawn)
                        then Message.with_text text editedAt own else own)
              <$> messages A1) as Hedited.
  { subst A2. unfold after at 1. rewrite Hsave. done. }
  eexists. split; [exact Hsent|].
  split; [subst A2; unfold sent, after at 1; rewrite Hsave; done|].
  split.
  { rewrite Hedited, Hlocal, fmap_app. cbn [fmap list_fmap]. rewrite last_snoc.
    cbn [localMessage Message.id]. rewrite String.eqb_refl. reflexivity. }
  split; [done|]. split; [done|]. split; [done|].
  intros rooms rooms' received edited Hreceived Hedited' B2.
  apply relays_relayed in Hreceived. apply relays_relayed in Hedited'.
  subst received edited B2. cbn [relayed on].
  match goal with
  | |- context [handleReceiveMessage ?d] =>
      destruct (handleReceiveMessage_decrypts d B (inputMessage A)
                  (media_of <$> mediaFile A)) as (_ & Hmessages & _ & Htab)
  end.
  - cbn. by rewrite Hsender.
  - cbn. destruct (mediaFile A) as [file|].
    + destruct Hmedia as (encryptedData & -> & Hdec'). rewrite Hsender.
      exists (File.dataUrl file). split; [exact Hdec'|]. cbn.
      by rewrite bool_decide_eq_true_2.
    + by rewrite Hmedia.
  - unfold after at 1, handleMessageEdit, try_catch, mbind, eff_bind.
    rewrite encryptionService_decryptMessage.
    cbn [MessageEdit.encryptedMessage MessageEdit.sender EditMessage.encryptedMessage].
    rewrite Htab, Hdec. cbn [fst snd setMessages modify messages].
    rewrite Hmessages, fmap_app. cbn [fmap list_fmap]. rewrite last_snoc.
    cbn [Message.id MessageEdit.id EditMessage.id ReceiveMessage.id MessageEdit.editedAt
         EditMessage.editedAt].
    rewrite Hid. eexists. split; [reflexivity|].
    destruct (String.eqb (wireMessageId drawn) (messageId drawn)) eqn:Heq.
    + apply String.eqb_eq in Heq. cbn. split; [done|]. split; [done|].
      intros Hne. congruence.
    + apply String.eqb_neq in Heq. cbn. split; [done|]. split; [intros Hne; congruence|].
      done.
Qed.

Lemma sendMessage_unsent (c : Chat) roomId message recipientId media replyTo messageId
    timestamp :
  socket c = false \/ truthy_opt (userId c) = false
  \/ peerPublicKeys (instance (tab c)) !! recipientId = None ->
  sendMessage roomId message recipientId media replyTo messageId timestamp c = (Return (), c).
Proof.
  intros [Hsocket|[Huser|Hkey]].
  - unfold sendMessage, mbind, eff_bind, gets. rewrite Hsocket.
    by destruct (userId c).
  - unfold sendMessage, mbind, eff_bind, gets.
    destruct (userId c) as [u|]; [|done]. cbn in Huser. rewrite Huser.
    by rewrite andb_false_r.
  - by apply sendMessage_unknown_peer.
Qed.

(** A message that cannot leave is listed all the same.  When there is
    no socket, or no identity, or no key of the recipient, the text of
    the input line joins the list of the sender as a message sent and
    decrypted, the input line is cleared, and nothing is put on the
    socket. *)
Theorem unsent_message_is_listed (A : Composer) room drawn :
  mediaFile A = None ->
  trim_is_empty (inputMessage A) = false ->
  selectedRoom (chat A) = Some room -> truthy room = true ->
  truthy (recipientId (chat A)) = true ->
  socket (chat A) = false \/ truthy_opt (userId (chat A)) = false
  \/ peerPublicKeys (instance (tab (chat A))) !! recipientId (chat A) = None ->
  let A' := (handleSendMessage drawn A).2 in
  (handleSendMessage drawn A).1 = Return () /\
  messages (chat A')
  = messages (chat A)
    ++ [localMessage drawn (inputMessage A) (userId (chat A)) None (replyToMessageId A)] /\
  emitted (chat A') = emitted (chat A) /\
  inputMessage A' = [].
Proof.
  intros Hfile Htext Hroom Htroom Hrecipient Hunsent A'. subst A'.
  unfold handleSendMessage, mbind, eff_bind, gets.
  rewrite Hfile, Htext, Hroom, Hrecipient. cbn [truthy_opt]. rewrite Htroom.
  cbn [andb orb negb]. unfold component, zoom.
  cbn [setMessages modify fst snd chat set_chat].
  rewrite sendMessage_unsent by (cbn; exact Hunsent). cbn. done.
Qed.

End ConversationFacts.

(** ** The rooms of the relay *)

Section RoomFacts.
Import Wire SocketService.

Lemma members_join socket_id room rooms other :
  members (join socket_id room rooms) other
  = if decide (room = other) then {[socket_id]} ∪ members rooms other
    else members rooms other.
Proof.
  unfold join, members. case_decide as Heq.
  - subst other. by rewrite lookup_insert_eq.
  - by rewrite lookup_insert_ne.
Qed.

Lemma members_on socket_id event rooms room x :
  x ∈ members (on socket_id event rooms).1 room
  <-> x ∈ members rooms room \/ joins x room (socket_id, event).
Proof.
  unfold joins. cbn [fst snd].
  destruct event as [roomId userId|data|data|data|data|data|data|data]; cbn [on fst];
    try (split; [by left|]; intros [H|(_ & ? & ?)]; [done|discriminate]).
  rewrite members_join. case_decide as Heq.
  - subst roomId. rewrite elem_of_union, elem_of_singleton. split.
    + intros [->|H]; [right|by left]. split; [done|]. by exists userId.
    + intros [H|[-> _]]; [by right|by left].
  - split; [by left|]. intros [H|(_ & ? & [= ? _])]; [done|]. by destruct Heq.
Qed.

(** The members of a room are the sockets that were in it and the
    sockets that asked, themselves, to join it: no event of a client
    puts another socket in a room, and none takes a socket out. *)
Theorem rooms_grow_by_own_join (events : list (string * ClientEvent.t)) (rooms : Rooms)
    (room x : string) :
  x ∈ members (rooms_after events rooms) room
  <-> x ∈ members rooms room \/ Exists (joins x room) events.
Proof.
  revert rooms. induction events as [|[socket_id event] events IH]; intros rooms.
  - cbn. rewrite Exists_nil. tauto.
  - change (rooms_after ((socket_id, event) :: events) rooms)
      with (rooms_after events (on socket_id event rooms).1).
    rewrite IH, members_on, Exists_cons. tauto.
Qed.

End RoomFacts.

(** ** The wallet signature *)

Section WalletFacts.
Import Js WalletAuth.

Lemma startsWith_spec s searchString :
  startsWith s searchString = true <-> exists rest, s = searchString ++ rest.
Proof.
  revert s. induction searchString as [|x searchString IH]; intros s.
  - split; [by exists s|]. intros _. by destruct s.
  - destruct s as [|c s]; cbn.
    + split; [done|]. by intros [rest ?].
    + rewrite andb_true_iff, N.eqb_eq, IH. split.
      * intros [-> [rest ->]]. by exists rest.
      * intros [rest [= -> ->]]. split; [done|]. by exists rest.
Qed.

Lemma includes_spec s searchString :
  includes s searchString = true
  <-> exists before rest, s = before ++ searchString ++ rest.
Proof.
  induction s as [|c s IH].
  - cbn [includes]. rewrite orb_false_r, startsWith_spec. split.
    + intros [rest ->]. by exists [], rest.
    + intros (before & rest & H). symmetry in H.
      apply app_eq_nil in H as [-> H]. by exists rest.
  - cbn [includes]. rewrite orb_true_iff, startsWith_spec, IH. split.
    + intros [[rest ->]|(before & rest & ->)].
      * by exists [], rest.
      * by exists (c :: before), rest.
    + intros ([|c' before] & rest & H).
      * left. by exists rest.
      * right. injection H as -> ->. by exists before, rest.
Qed.

(** The check of a wallet signature looks at no byte of the signature
    and at no key: it accepts exactly when the signature is not empty
    and the wallet address occurs somewhere in the message. *)
Theorem verifyWalletSignature_accepts (walletAddress message signature : jsstring) :
  verifyWalletSignature walletAddress message signature = true
  <-> signature ≠ [] /\
      exists before rest, message = before ++ walletAddress ++ rest.
Proof.
  unfold verifyWalletSignature.
  rewrite andb_true_iff, includes_spec, Nat.ltb_lt.
  destruct signature; cbn; split; intros [H ?]; split; (done || lia).
Qed.

End WalletFacts.

(** ** The sanitizer *)

Section SanitizeFacts.
Import Js Sanitize.
Local Open Scope N_scope.

Lemma remove_matches_sublist match_at skip (s : jsstring) :
  remove_matches match_at skip s `sublist_of` s.
Proof.
  revert skip. induction s as [|c s IH]; intros skip; [done|].
  cbn [remove_matches]. destruct skip as [|skip].
  - destruct (match_at (c :: s)) as [[|skip]|].
    + by apply sublist_skip.
    + by apply sublist_cons.
    + by apply sublist_skip.
  - by apply sublist_cons.
Qed.

Lemma trimStart_suffix (s : jsstring) : exists before, s = before ++ trimStart s.
Proof.
  induction s as [|c s [before IH]]; [by exists []|].
  cbn [trimStart]. destruct (Chat.is_white_space c).
  - exists (c :: before). cbn. by rewrite <- IH.
  - by exists [].
Qed.

Lemma trimStart_head (s : jsstring) c :
  head (trimStart s) = Some c -> Chat.is_white_space c = false.
Proof.
  induction s as [|c' s IH]; [done|]. cbn [trimStart].
  destruct (Chat.is_white_space c') eqn:Hc'; [done|]. cbn. by intros [= <-].
Qed.

(** The string that [trim] leaves lies inside the string given. *)
Lemma trim_inside (s : jsstring) : exists before rest, s = before ++ trim s ++ rest.
Proof.
  unfold trim. destruct (trimStart_suffix s) as [before Hs].
  destruct (trimStart_suffix (reverse (trimStart s))) as [rest Hr].
  exists before, (reverse rest). rewrite Hs at 1. f_equal.
  rewrite <- reverse_app, <- Hr. by rewrite reverse_involutive.
Qed.

Lemma trim_ends (s : jsstring) c :
  head (trim s) = Some c \/ last (trim s) = Some c -> Chat.is_white_space c = false.
Proof.
  unfold trim. rewrite head_reverse, last_reverse. intros [Hlast|Hhead].
  - destruct (trimStart_suffix (reverse (trimStart s))) as [before Hr].
    apply last_Some in Hlast as [front Hfront].
    rewrite Hfront, app_assoc in Hr.
    assert (last (reverse (trimStart s)) = Some c) as Hc by (rewrite Hr; apply last_snoc).
    rewrite last_reverse in Hc. by apply trimStart_head in Hc.
  - by apply trimStart_head in Hhead.
Qed.

(** What [sanitizeInput] gives is the input with characters left out,
    none added and none moved; it holds neither [<] nor [>]; and it
    neither begins nor ends with white space. *)
Theorem sanitizeInput_removes (input : jsstring) :
  sanitizeInput input `sublist_of` input /\
  Forall (fun c => c ≠ 60 /\ c ≠ 62) (sanitizeInput input) /\
  (forall c, head (sanitizeInput input) = Some c \/ last (sanitizeInput input) = Some c ->
             Chat.is_white_space c = false).
Proof.
  unfold sanitizeInput. cbn zeta.
  set (filtered := filter (fun c => c ≠ 60 /\ c ≠ 62) input).
  set (removed := remove_matches match_event_handler 0
                    (remove_matches match_javascript 0 filtered)).
  assert (removed `sublist_of` filtered) as Hremoved.
  { subst removed. etrans; apply remove_matches_sublist. }
  assert (trim removed `sublist_of` removed) as Htrim.
  { destruct (trim_inside removed) as (before & rest & Heq). rewrite Heq at 2.
    by apply sublist_inserts_l, sublist_inserts_r. }
  split; [|split].
  - etrans; [exact Htrim|]. etrans; [exact Hremoved|]. apply sublist_filter.
  - apply Forall_forall. intros c Hc.
    apply (elem_of_sublist _ _ _ Hc) in Htrim.
    apply (elem_of_sublist _ _ _ Htrim) in Hremoved.
    subst filtered. by apply list_elem_of_filter in Hremoved as [? _].
  - apply trim_ends.
Qed.

End SanitizeFacts.

(** ** The key exchange reaches its end *)

Section KeyExchangeEndFacts.
Import Js Base64 Wire Crypto Encryption Chat Network.
Context {sc : SubtleCrypto} {laws : SubtleCryptoLaws sc}.

(** The delivery of a key: the client stores it and answers with its own. *)
Lemma deliver_key a b kpA kpB net now :
  connected a b kpA kpB net ->
  inflight net = [(b, keys_of a kpA)] ->
  let net' := deliver now net in
  connected a b kpA kpB net' /\
  inflight net' = [(a, keys_of b kpB)] /\
  holds_key net' b a kpA /\
  (forall kp, holds_key net a b kp -> holds_key net' a b kp).
Proof.
  intros (Hne & (ca & Hca & Hra) & (cb & Hcb & Hub & Htb & Hkb & Heb) & Hma & Hmb)
    Hin net'.
  set (tab' := set_peerPublicKey a (publicKey kpA) (tab cb)).
  assert (Chat.on (keys_of a kpA) now cb = emit (keys_for b kpB a) (set_tab tab' cb))
    as Hon by (by apply handleKeyExchange_replies).
  assert (net' =
    {| rooms := rooms net;
       clients := <[b := flushed (emit (keys_for b kpB a) (set_tab tab' cb)).2]> (clients net);
       inflight := [(a, keys_of b kpB)];
       received := received net ++ [(b, keys_for b kpB a)] |}) as ->.
  { subst net'. unfold deliver. rewrite Hin, Hcb. unfold after. rewrite Hon.
    cbn [emit modify snd emitted set_tab]. rewrite Heb. cbn [app serve foldl].
    unfold keys_for at 1.
    cbn [SocketService.on SendKeys.recipientId SendKeys.userId SendKeys.publicKey].
    rewrite to_emit_own_room by done. done. }
  cbn [inflight]. split; [|split; [done|split]].
  - split; [done|]. cbn [rooms clients]. split; [|split; [|done]].
    + exists ca. split; [|done]. by rewrite lookup_insert_ne.
    + eexists. split; [apply lookup_insert_eq|]. unfold ready. done.
  - eexists. cbn [clients]. split; [apply lookup_insert_eq|].
    cbn. apply lookup_insert_eq.
  - intros kp (c & Hc & Hkey). exists c. cbn [clients].
    split; [|done]. by rewrite lookup_insert_ne.
Qed.

(** The two clients hold each other's key, and a key is on its way. *)
Lemma run_keeps_keys a b kpA kpB net now n :
  connected a b kpA kpB net ->
  inflight net = [(b, keys_of a kpA)] ->
  holds_key net a b kpB -> holds_key net b a kpA ->
  holds_key (run n now net) a b kpB /\ holds_key (run n now net) b a kpA.
Proof.
  revert a b kpA kpB net now. induction n as [|n IH]; intros a b kpA kpB net now
    Hconnected Hin Hab Hba; [done|].
  cbn [run].
  destruct (deliver_key a b kpA kpB net now Hconnected Hin) as (Hc' & Hin' & Hba' & Hab').
  destruct (IH b a kpB kpA (deliver now net) (now + 1)%Z) as [H1 H2];
    [by apply connected_sym|done|done|by apply Hab'|]. done.
Qed.

(** After three deliveries the two clients hold each other's key, and
    keep it. *)
Lemma exchanged_after_three a b (ea eb : Entropy) net now n :
  connected a b (generateKey ea).1 (generateKey eb).1 net ->
  inflight net = [(a, ServerEvent.user_connected b)] ->
  exists ca cb,
    clients (run (3 + n) now net) !! a = Some ca /\
    clients (run (3 + n) now net) !! b = Some cb /\
    mutual_key_exchange (tab ca) (tab cb) a b.
Proof.
  intros Hconnected Hin.
  set (kpA := (generateKey ea).1) in *. set (kpB := (generateKey eb).1) in *.
  destruct (deliver_answer b a kpB kpA net now _ [] (connected_sym _ _ _ _ _ Hconnected) Hin)
    as (Hc1 & Hin1 & _); [by right|].
  apply connected_sym in Hc1. cbn [app] in Hin1.
  destruct (deliver_key a b kpA kpB _ (now + 1)%Z Hc1 Hin1) as (Hc2 & Hin2 & Hba2 & _).
  apply connected_sym in Hc2.
  destruct (deliver_key b a kpB kpA _ (now + 1 + 1)%Z Hc2 Hin2) as (Hc3 & Hin3 & Hab3 & Hba3).
  apply connected_sym in Hc3. specialize (Hba3 _ Hba2).
  destruct (run_keeps_keys a b kpA kpB _ (now + 1 + 1 + 1)%Z n Hc3 Hin3 Hab3 Hba3)
    as [(ca & Hca & Hab) (cb & Hcb & Hba)].
  change (run (3 + n) now net)
    with (run n (now + 1 + 1 + 1)%Z
            (deliver (now + 1 + 1)%Z (deliver (now + 1)%Z (deliver now net)))).
  exists ca, cb. split; [exact Hca|]. split; [exact Hcb|].
  exists ea, eb. fold kpA kpB.
  assert (connected a b kpA kpB
            (run n (now + 1 + 1 + 1)%Z
               (deliver (now + 1 + 1)%Z (deliver (now + 1)%Z (deliver now net)))))
    as (_ & (ca' & Hca' & _ & _ & Hka & _) & (cb' & Hcb' & _ & _ & Hkb & _) & _).
  { clear -Hc3 Hin3 laws. revert Hc3 Hin3.
    generalize (deliver (now + 1 + 1)%Z (deliver (now + 1)%Z (deliver now net))).
    generalize (now + 1 + 1 + 1)%Z. generalize a b kpA kpB.
    induction n as [|n IH]; intros x y kpx kpy t net' Hc Hi; [done|].
    cbn [run]. destruct (deliver_key x y kpx kpy net' t Hc Hi) as (Hc' & Hi' & _).
    apply connected_sym. apply (IH y x kpy kpx); [by apply connected_sym|done]. }
  rewrite Hca in Hca'. rewrite Hcb in Hcb'. injection Hca' as <-. injection Hcb' as <-.
  done.
Qed.

(** The exchange of keys reaches its end, although it never comes to
    rest.  Two connected clients, each with an identity and a generated
    key pair; one is told that the other connected.  From the third
    delivery on, the tabs of the two clients are in a mutual key
    exchange. *)
Theorem key_exchange_completes a b (ea eb : Entropy) net now n :
  connected a b (generateKey ea).1 (generateKey eb).1 net ->
  inflight net = [(a, ServerEvent.user_connected b)] ->
  exists ca cb,
    clients (run (3 + n) now net) !! a = Some ca /\
    clients (run (3 + n) now net) !! b = Some cb /\
    mutual_key_exchange (tab ca) (tab cb) a b.
Proof. apply exchanged_after_three. Qed.

End KeyExchangeEndFacts.

Section SessionFacts.
Import Js Base64 Wire Crypto Encryption Network.
Import Chat SocketProvider.
Context {sc : SubtleCrypto} {laws : SubtleCryptoLaws sc}.

(** What the listener of [connect] leaves: the identity of the socket
    and a generated key pair. *)
Lemma handleConnect_ready id (p : Provider) :
  truthy id = true -> initialised p ->
  let p' := (handleConnect id p).2 in
  ready id (generateKey (entropy (tab (SocketProvider.chat p)))).1 (SocketProvider.chat p') /\
  socket (SocketProvider.chat p') = true /\
  isConnected p' = true.
Proof.
  intros Hid (Hsocket & Hemitted). cbn zeta.
  unfold ready, handleConnect, setIsConnected, setUserId, component, encryptionService,
    generateKeyPair, subtle_generateKey, zoom, modify, mbind, eff_bind.
  cbn. destruct (generateKey _) as [kp e]. cbn. done.
Qed.

(** [joinRoom] of a connected provider puts one [join-room] event on the
    socket and keeps the room. *)
Lemma joinRoom_emits id room (p : Provider) :
  userId (SocketProvider.chat p) = Some id -> truthy id = true ->
  socket (SocketProvider.chat p) = true ->
  SocketProvider.joinRoom room p
  = (Return (),
     {| SocketProvider.chat :=
          (emit (ClientEvent.join_room room id) (SocketProvider.chat p)).2;
        isConnected := isConnected p;
        currentRoom := Some room |}).
Proof.
  intros Hu Ht Hs.
  unfold SocketProvider.joinRoom, gets, mbind, eff_bind. rewrite Hu, Hs, Ht. done.
Qed.

(** The rooms of two sockets that connected and joined one room. *)
Lemma members_after_joining a b room :
  a ≠ b -> room ≠ a -> room ≠ b ->
  let rooms := SocketService.connection b (SocketService.connection a ∅) in
  SocketService.members rooms room = ∅ /\
  SocketService.members (SocketService.join a room rooms) room = {[a]} /\
  let rooms' := SocketService.join b room (SocketService.join a room rooms) in
  SocketService.members rooms' a = {[a]} /\
  SocketService.members rooms' b = {[b]}.
Proof.
  intros Hab Hra Hrb rooms.
  assert (SocketService.members rooms room = ∅) as Hroom.
  { unfold SocketService.members, rooms, SocketService.connection, SocketService.join.
    by rewrite !lookup_insert_ne, lookup_empty by done. }
  split; [exact Hroom|]. split.
  - unfold SocketService.members at 1, SocketService.join.
    rewrite lookup_insert_eq, Hroom. cbn. apply union_empty_r_L.
  - cbn zeta. unfold SocketService.members, SocketService.join, rooms,
      SocketService.connection.
    split.
    + rewrite !lookup_insert_ne by done. unfold SocketService.join.
      rewrite lookup_insert_ne by done. rewrite lookup_insert_eq. cbn.
      unfold SocketService.members. rewrite lookup_empty. cbn. apply union_empty_r_L.
    + rewrite !lookup_insert_ne by done. unfold SocketService.join.
      rewrite lookup_insert_eq. cbn. unfold SocketService.members.
      rewrite lookup_insert_ne by done. rewrite lookup_empty. cbn. apply union_empty_r_L.
Qed.

(** From the page to the keys.  Two clients connect; one joins a room,
    then the other joins it.  The server tells the first that the second
    connected, and from the third delivery on the tabs of the two
    clients are in a mutual key exchange. *)
Theorem joining_exchanges_keys a b room (pa pb : Provider) now n :
  a ≠ b -> truthy a = true -> truthy b = true ->
  room ≠ a -> room ≠ b ->
  initialised pa -> initialised pb ->
  let net := session a b room pa pb in
  inflight net = [(a, ServerEvent.user_connected b)] /\
  exists ca cb,
    clients (run (3 + n) now net) !! a = Some ca /\
    clients (run (3 + n) now net) !! b = Some cb /\
    mutual_key_exchange (tab ca) (tab cb) a b.
Proof.
  intros Hab Hta Htb Hra Hrb Hpa Hpb net.
  destruct (handleConnect_ready a pa Hta Hpa) as ((Hua & _ & Hka & Hea) & Hsa & _).
  destruct (handleConnect_ready b pb Htb Hpb) as ((Hub & _ & Hkb & Heb) & Hsb & _).
  destruct (members_after_joining a b room Hab Hra Hrb) as (Hm0 & Hm1 & Hma & Hmb).
  set (ea := entropy (tab (SocketProvider.chat pa))) in *.
  set (eb := entropy (tab (SocketProvider.chat pb))) in *.
  assert (inflight net = [(a, ServerEvent.user_connected b)]
          /\ connected a b (generateKey ea).1 (generateKey eb).1 net) as [Hin Hconnected].
  { subst net. unfold session.
    rewrite (joinRoom_emits a room _ Hua Hta Hsa), (joinRoom_emits b room _ Hub Htb Hsb).
    cbn [snd SocketProvider.chat emit modify emitted]. rewrite Hea, Heb.
    cbn [app serve foldl SocketService.on].
    unfold SocketService.to_emit. rewrite Hm1.
    assert (({[a]} : gset string) ∖ {[a]} = ∅) as ->
      by (apply set_eq; intros x; rewrite elem_of_difference, elem_of_empty; tauto).
    rewrite elements_empty. cbn [fmap list_fmap app].
    set (rooms0 := SocketService.connection b (SocketService.connection a ∅)) in *.
    assert (SocketService.members
              (SocketService.join b room (SocketService.join a room rooms0)) room
            = {[b]} ∪ {[a]}) as ->.
    { unfold SocketService.members at 1, SocketService.join at 1.
      rewrite lookup_insert_eq. cbn. by rewrite Hm1. }
    assert ((({[b]} ∪ {[a]}) : gset string) ∖ {[b]} = {[a]}) as ->
      by (apply set_eq; intros x;
          rewrite elem_of_difference, elem_of_union, !elem_of_singleton;
          split; [tauto|intros ->; split; [by right|done]]).
    rewrite elements_singleton. cbn [fmap list_fmap app inflight].
    split; [done|].
    split; [done|]. cbn [rooms clients].
    split; [|split; [|done]].
    - eexists. split; [apply lookup_insert_eq|]. unfold ready. cbn. done.
    - eexists. split; [rewrite lookup_insert_ne by done; apply lookup_insert_eq|].
      unfold ready. cbn. done. }
  split; [exact Hin|].
  exact (exchanged_after_three a b ea eb net now n Hconnected Hin).
Qed.

End SessionFacts.


(* ===================================================================== *)
(** * Part IV. The scenario of Alice, Bob and Carol                        *)
(* ===================================================================== *)

Section ScenarioFacts.
Import Js Base64 Encoding Wire Crypto Encryption Chat Network Toy.

(** Alice and Bob of the scenario have exchanged their keys. *)
Lemma alice_bob_mutual_key_exchange : mutual_key_exchange alice bob "alice" "bob".
Proof.
  exists (entropy_from 3), (entropy_from 5). repeat split; vm_compute; reflexivity.
Qed.

(** Alice and Bob are connected, each alone in the room of its own socket
    id, and hold their key pairs. *)
Lemma alice_and_bob_connected :
  connected "alice" "bob" alice_keys bob_keys alice_and_bob.
Proof.
  split; [discriminate|].
  split; [exists alice_chat; repeat split; vm_compute; reflexivity|].
  split; [exists bob_chat; repeat split; vm_compute; reflexivity|].
  split; vm_compute; reflexivity.
Qed.

(** The text of an unpaired surrogate does not survive the round trip:
    Bob decrypts the envelope of Alice to U+FFFD. *)
Lemma lone_surrogate_not_recovered :
  mutual_key_exchange alice bob "alice" "bob" /\
  is_jsstring lone_surrogate /\
  exists envelope,
    (encryptMessage lone_surrogate "bob" alice).1 = Return envelope /\
    (decryptMessage envelope "alice" bob).1 = Return [replacement] /\
    [replacement] ≠ lone_surrogate.
Proof.
  split; [apply alice_bob_mutual_key_exchange|].
  split; [repeat constructor|].
  eexists. split; [vm_compute; reflexivity|].
  split; [vm_compute; reflexivity|discriminate].
Qed.

(** The round trip of [hello] from Alice to Bob. *)
Lemma decrypt_encrypt_hello :
  mutual_key_exchange alice bob "alice" "bob" /\
  is_jsstring hello /\ isWellFormed hello = true /\ head hello ≠ Some byte_order_mark /\
  exists envelope,
    encryptMessage hello "bob" alice = (Return envelope, drawn 12 alice) /\
    decryptMessage envelope "alice" bob = (Return hello, bob).
Proof.
  assert (is_jsstring hello) as Hjs by (repeat constructor).
  assert (isWellFormed hello = true) as Hwf by (vm_compute; reflexivity).
  assert (head hello ≠ Some byte_order_mark) as Hbom by (vm_compute; discriminate).
  split; [apply alice_bob_mutual_key_exchange|].
  split; [exact Hjs|]. split; [exact Hwf|]. split; [exact Hbom|].
  exact (decrypt_encrypt_well_formed (sc := toy) (laws := toy_laws) alice bob "alice" "bob" hello
           alice_bob_mutual_key_exchange Hjs Hwf Hbom).
Defined.

(** With a random generator that repeats itself, two successive calls of
    [encryptMessage] give the same envelope. *)
Lemma repeated_nonce_same_envelope :
  keyPair (instance alice_repeating) = Some alice_keys /\
  peerPublicKeys (instance alice_repeating) !! "bob" = Some (publicKey bob_keys) /\
  exists envelope,
    (encrypt_twice hello "bob" alice_repeating).1 = Return (envelope, envelope).
Proof.
  split; [vm_compute; reflexivity|]. split; [vm_compute; reflexivity|].
  eexists. vm_compute. reflexivity.
Qed.

(** The two envelopes of Alice for [hello]. *)
Lemma envelopes_of_alice :
  peerPublicKeys (instance alice) !! "bob" = Some (publicKey bob_keys) /\
  keyPair (instance alice) = Some alice_keys /\
  exists first second,
    encrypt_twice hello "bob" alice = (Return (first, second), drawn 12 (drawn 12 alice)) /\
    (first = second <-> entropy alice <$> seq 0 12 = entropy alice <$> seq 12 12).
Proof.
  assert (peerPublicKeys (instance alice) !! "bob" = Some (publicKey bob_keys)) as Hpub
    by (vm_compute; reflexivity).
  assert (keyPair (instance alice) = Some alice_keys) as Hkp by (vm_compute; reflexivity).
  split; [exact Hpub|]. split; [exact Hkp|].
  destruct (envelopes_differ_iff_nonces_differ (sc := toy) (laws := toy_laws)
              alice hello "bob" (publicKey bob_keys) alice_keys Hpub Hkp)
    as (first & second & Htwice & _ & _ & Hiff).
  exists first, second. split; [exact Htwice|exact Hiff].
Defined.


(** Before the key of Bob arrived, Alice can neither encrypt for him nor
    decrypt what he sent. *)
Lemma unknown_peer_error_bob :
  peerPublicKeys (instance alice_alone) !! "bob" = None /\
  (forall message,
     encryptMessage message "bob" alice_alone
     = (Throw (no_public_key "bob"), alice_alone)) /\
  (forall envelope,
     decryptMessage envelope "bob" alice_alone
     = (Throw (no_public_key "bob"), alice_alone)).
Proof.
  assert (peerPublicKeys (instance alice_alone) !! "bob" = None) as Hnone
    by (vm_compute; reflexivity).
  split; [exact Hnone|].
  destruct (unknown_peer_error (sc := toy) alice_alone "bob" Hnone) as (Henc & Hdec & _).
  split; [exact Henc|exact Hdec].
Defined.

(** The tab without a key pair fails with a [TypeError]. *)
Lemma null_key_pair_keyless :
  peerPublicKeys (instance keyless) !! "bob" = Some (publicKey bob_keys) /\
  keyPair (instance keyless) = None /\
  encryptMessage hello "bob" keyless = (Throw TypeError, keyless) /\
  decryptMessage hello "bob" keyless = (Throw TypeError, keyless).
Proof.
  assert (peerPublicKeys (instance keyless) !! "bob" = Some (publicKey bob_keys)) as Hpub
    by (vm_compute; reflexivity).
  split; [exact Hpub|]. split; [reflexivity|].
  destruct (null_key_pair (sc := toy) keyless "bob" (publicKey bob_keys) Hpub) as (Hnull & _ & _).
  exact (Hnull eq_refl hello hello).
Defined.

(** The reaction that Bob gave arrives once more and changes nothing;
    Alice removes a reaction that she never gave, and nothing changes. *)
Lemma reaction_toggle_from_bob :
  messages alice_chat !! 0%nat = Some from_bob /\
  (exists msg',
     messages (handleMessageReaction
                 {| MessageReaction.messageId := "m1"; MessageReaction.userId := "bob";
                    MessageReaction.emoji := "+1"; MessageReaction.remove := None |}
                 alice_chat).2 !! 0%nat = Some msg' /\
     reactions_of msg' = reactions_of from_bob) /\
  (handleReaction "m1" "+1" (Some true) alice_chat).1 = Return () /\
  (exists msg',
     messages (handleReaction "m1" "+1" (Some true) alice_chat).2 !! 0%nat = Some msg' /\
     reactions_of msg' = reactions_of from_bob).
Proof.
  split; [reflexivity|].
  destruct (reaction_toggle (sc := toy) alice_chat 0 from_bob eq_refl) as (Hrelay & Hlocal).
  destruct (Hrelay {| MessageReaction.messageId := "m1"; MessageReaction.userId := "bob";
                      MessageReaction.emoji := "+1"; MessageReaction.remove := None |}
              eq_refl) as (_ & msg1 & Hmsg1 & Hadd & _).
  destruct (Hlocal "+1" (Some true) "alice" "lobby" eq_refl eq_refl eq_refl eq_refl)
    as (Hret & msg2 & Hmsg2 & _ & Hremove & _).
  split; [|split; [exact Hret|]].
  - exists msg1. split; [exact Hmsg1|].
    apply Hadd; [reflexivity|]. vm_compute. left.
  - exists msg2. split; [exact Hmsg2|].
    apply Hremove; [reflexivity|]. vm_compute. intros H.
    apply list_elem_of_singleton in H. discriminate H.
Defined.

(** Bob types once at 5000; Alice sees it at 7000 and no longer at 9000. *)
Lemma bob_typing_expires :
  (4500 < 5000)%Z /\
  bob_typing ∈ bob_types_once 5000 /\
  accepted bob_typing alice_chat /\
  is_typing "bob" (at_time bob_types_once 4500 alice_chat 7000) /\
  ~ is_typing "bob" (at_time bob_types_once 4500 alice_chat 9000).
Proof.
  assert (4500 < 5000)%Z as Hm by lia.
  assert (bob_typing ∈ bob_types_once 5000) as Hin by (vm_compute; left).
  assert (accepted bob_typing alice_chat) as Hacc by (split; [discriminate|reflexivity]).
  split; [exact Hm|]. split; [exact Hin|]. split; [exact Hacc|].
  apply (typing_signal_expires (sc := toy) bob_types_once 4500 alice_chat bob_typing 5000
           Hm Hin Hacc).
  intros t d Ht Hd. unfold bob_types_once in Hd.
  destruct (Z.eqb_spec t 5000) as [->|_]; [lia|]. by apply elem_of_nil in Hd.
Defined.

(** Alice deletes the message of Bob. *)
Lemma alice_deletes_message_of_bob :
  userId alice_chat = Some "alice" /\
  messages alice_chat !! 0%nat = Some from_bob /\
  Message.sender from_bob = "bob" /\
  exists msg',
    messages (after (handleDeleteMessage "m1") alice_chat) !! 0%nat = Some msg' /\
    Message.isDeleted msg' = Some true /\
    Message.sender msg' = "bob".
Proof.
  split; [reflexivity|]. split; [reflexivity|]. split; [reflexivity|].
  exact (handleDeleteMessage_any_sender (sc := toy) alice_chat 0 from_bob eq_refl).
Defined.

(** After Bob joined, the keys of Alice and Bob keep going back and
    forth: at the fifth delivery Alice has sent her key three times. *)
Lemma key_exchange_alice_bob :
  connected "alice" "bob" alice_keys bob_keys alice_and_bob /\
  inflight alice_and_bob = [("alice", ServerEvent.user_connected "bob")] /\
  inflight (run 5 0 alice_and_bob) = [("bob", keys_of "alice" alice_keys)] /\
  keys_sent "alice" "bob" (run 5 0 alice_and_bob) = 3%nat.
Proof.
  split; [apply alice_and_bob_connected|]. split; [reflexivity|].
  destruct (key_exchange_never_settles (sc := toy) (laws := toy_laws)
              "alice" "bob" alice_keys bob_keys alice_and_bob 0 2
              alice_and_bob_connected eq_refl) as (_ & Hin & Hsent).
  split; [exact Hin|exact Hsent].
Defined.

(** Carol's deletion of the message of Bob, relayed by the server, is
    applied in the list of Alice. *)
Lemma carol_deletes_message_of_bob :
  messages alice_chat !! 0%nat = Some from_bob /\
  exists msg',
    messages (after (on (ServerEvent.message_delete
                           {| MessageDelete.id := "m1"; MessageDelete.sender := "carol" |}) 0)
                alice_chat) !! 0%nat = Some msg' /\
    Message.isDeleted msg' = Some true /\
    Message.sender msg' = "bob".
Proof.
  split; [reflexivity|].
  destruct (relayed_edit_delete_unchecked (sc := toy) alice_chat 0 from_bob eq_refl)
    as (Hdelete & _).
  exact (Hdelete {| MessageDelete.id := "m1"; MessageDelete.sender := "carol" |} eq_refl).
Defined.

(** Two fresh tabs that run the handshake end in a mutual key exchange. *)
Lemma handshake_alice_bob :
  exists A1 B1 kA kB A2 B2,
    generateKeyPair {| instance := new; entropy := entropy_from 3 |} = (Return (), A1) /\
    generateKeyPair {| instance := new; entropy := entropy_from 5 |} = (Return (), B1) /\
    getPublicKeyAsString A1 = (Return kA, A1) /\
    getPublicKeyAsString B1 = (Return kB, B1) /\
    addPeerPublicKey "bob" kB A1 = (Return (), A2) /\
    addPeerPublicKey "alice" kA B1 = (Return (), B2) /\
    mutual_key_exchange A2 B2 "alice" "bob".
Proof.
  exact (handshake_mutual_key_exchange (sc := toy) (laws := toy_laws)
           {| instance := new; entropy := entropy_from 3 |}
           {| instance := new; entropy := entropy_from 5 |} "alice" "bob").
Defined.

(** The list of Alice has no reaction twice, before and after the
    reaction of Bob arrives once more. *)
Lemma reactions_unique_alice_chat :
  reactions_unique alice_chat /\
  reactions_unique
    (after (on (ServerEvent.message_reaction
                  {| MessageReaction.messageId := "m1"; MessageReaction.userId := "bob";
                     MessageReaction.emoji := "+1"; MessageReaction.remove := None |}) 0)
       alice_chat).
Proof.
  assert (reactions_unique alice_chat) as Hunique.
  { apply Forall_singleton. apply NoDup_singleton. }
  split; [exact Hunique|].
  exact (reactions_unique_on (sc := toy) _ 0 alice_chat Hunique).
Defined.

(** What Bob reads when Alice sends the text of an unpaired surrogate. *)
Lemma decrypt_encrypt_lone_surrogate :
  mutual_key_exchange alice bob "alice" "bob" /\
  is_jsstring lone_surrogate /\
  exists envelope,
    encryptMessage lone_surrogate "bob" alice = (Return envelope, drawn 12 alice) /\
    decryptMessage envelope "alice" bob
    = (Return (strip_bom (to_scalar_values lone_surrogate) ≫= code_units), bob).
Proof.
  assert (is_jsstring lone_surrogate) as Hjs by (repeat constructor).
  split; [apply alice_bob_mutual_key_exchange|]. split; [exact Hjs|].
  exact (decrypt_encrypt (sc := toy) (laws := toy_laws) alice bob "alice" "bob" lone_surrogate
           alice_bob_mutual_key_exchange Hjs).
Defined.

End ScenarioFacts.

(** ** The scenario, continued *)

Section ScenarioMoreFacts.
Import Js Base64 Encoding Wire Crypto Encryption MediaEncryption Chat Composer Network Toy.

(** Alice, with Bob as her recipient, is in a conversation. *)
Lemma alice_bob_conversation (B : Chat) :
  tab B = bob -> conversation alice_chat B "alice" "bob" "lobby".
Proof.
  intros HB. split; [rewrite HB; apply alice_bob_mutual_key_exchange|].
  repeat split; reflexivity.
Qed.

Lemma hello_plain_text : plain_text hello.
Proof.
  split; [repeat constructor|]. split; [vm_compute; reflexivity|].
  vm_compute. discriminate.
Qed.

(** With a limit of two requests in a second, the office gets two of
    its three requests through. *)
Lemma office_quota :
  (0 <= 1000)%Z /\ (0 <= 0)%Z /\ safe (0 + 1000) /\ safe 2 /\
  Forall (fun arrival : RateLimit.NextRequest * Z => (0 <= arrival.2 <= 0 + 1000)%Z)
    later_requests /\
  Z.of_nat (granted "203.0.113.7" ((from_office, 0%Z) :: later_requests)
              (RateLimit.serve 1000 2 ((from_office, 0%Z) :: later_requests) ∅).1)
  = 2%Z.
Proof.
  assert (0 <= 1000)%Z as Hw by lia.
  assert (0 <= 0)%Z as Ht0 by lia.
  assert (safe (0 + 1000)) as Hsum by (unfold safe; lia).
  assert (safe 2) as Hmax by (unfold safe; lia).
  assert (Forall (fun arrival : RateLimit.NextRequest * Z => (0 <= arrival.2 <= 0 + 1000)%Z)
            later_requests) as Hrest by (repeat constructor; cbn; lia).
  split; [exact Hw|]. split; [exact Ht0|]. split; [exact Hsum|]. split; [exact Hmax|].
  split; [exact Hrest|].
  destruct (fixed_window_quota 1000 2 from_office 0 later_requests ∅ Hw Ht0 Hsum Hmax)
    as [Hgranted _];
    [intros entry Hentry; by rewrite lookup_empty in Hentry|exact Hrest|].
  exact Hgranted.
Defined.

(** A third request of the address, let through with a limit of three
    in a window of 100 ms. *)
Lemma api_quota :
  chronological (api_requests ++ [(api_request, 10%Z)]) /\
  last (ApiUtils.serve (Some 3%Z) (Some 100%Z) (api_requests ++ [(api_request, 10%Z)]) ∅).1
  = Some true /\
  (Z.of_nat (length (filter (fun t => (10 - 100 < t)%Z)
                       (granted_times "203.0.113.7" (api_requests ++ [(api_request, 10%Z)])
                          (ApiUtils.serve (Some 3%Z) (Some 100%Z)
                             (api_requests ++ [(api_request, 10%Z)]) ∅).1)))
   <= 3)%Z.
Proof.
  assert (chronological (api_requests ++ [(api_request, 10%Z)])) as Hsorted.
  { cbn. repeat split; repeat constructor; cbn; lia. }
  assert (last (ApiUtils.serve (Some 3%Z) (Some 100%Z)
                  (api_requests ++ [(api_request, 10%Z)]) ∅).1 = Some true) as Hlast
    by (vm_compute; reflexivity).
  split; [exact Hsorted|]. split; [exact Hlast|].
  exact (sliding_window_quota (Some 3%Z) (Some 100%Z) api_requests api_request 10
           Hsorted Hlast).
Defined.

(** The picture, encrypted for Bob, decrypts under any id of three
    characters: here under the id of Eve. *)
Lemma picture_round_trip :
  Forall octet picture /\
  exists encryptedMedia,
    encryptMedia picture "bob" = Return encryptedMedia /\
    decryptMedia encryptedMedia "eve" = Return picture.
Proof.
  assert (Forall octet picture) as Hoctets by apply js_octets.
  split; [exact Hoctets|].
  destruct (decryptMedia_encryptMedia picture "bob" Hoctets)
    as (encryptedMedia & Henc & _ & Hdec).
  exists encryptedMedia. split; [exact Henc|]. by apply Hdec.
Defined.

(** Alice stores the key of Bob. *)
Lemma alice_stores_key_of_bob :
  exists t',
    addPeerPublicKey "bob" (key_string bob_keys) alice_alone = (Return (), t') /\
    peerPublicKeys (instance t') !! "bob" = Some (publicKey bob_keys) /\
    keyPair (instance t') = keyPair (instance alice_alone).
Proof.
  destruct (addPeerPublicKey_stores (sc := toy) (laws := toy_laws) alice_alone "bob" bob_keys)
    as [(t' & Hadd & Hbob & _ & Hpair & _) _].
  exists t'. split; [exact Hadd|]. split; [exact Hbob|exact Hpair].
Defined.


(** The typing state of Alice stays in order when Bob types. *)
Lemma typing_state_of_alice :
  typing_state_ok alice_chat /\
  typing_state_ok (after (on (ServerEvent.user_typing bob_typing) 5000) alice_chat).
Proof.
  assert (typing_state_ok alice_chat) as Hok.
  { split; [constructor|]. intros user _ Hin. by apply elem_of_nil in Hin. }
  split; [exact Hok|].
  exact (proj1 (typing_state_ok_kept (sc := toy) (ServerEvent.user_typing bob_typing)
                  5000 alice_chat Hok)).
Defined.

(** Bob has a socket, an identity and a room. *)
Lemma bob_attending : attending bob_chat "bob" "lobby".
Proof. repeat split; reflexivity. Qed.


(** Alice deletes her [hello]; the copy of Bob stays. *)
Lemma hello_deleted_by_alice_only :
  conversation (chat alice_composer) bob_chat "alice" "bob" "lobby" /\
  sendable alice_composer "alice" "bob" /\
  plain_text (inputMessage alice_composer) /\
  exists sending deleting,
    forall rooms rooms' received deleted,
      relays "alice" sending rooms received ->
      relays "alice" deleting rooms' deleted ->
      exists msg,
        last (messages (after (on deleted 1) (after (on received 0) bob_chat))) = Some msg /\
        Message.id msg = "msg_1700000000001_p0q8z7b" /\
        Message.isDeleted msg ≠ Some true.
Proof.
  assert (conversation (chat alice_composer) bob_chat "alice" "bob" "lobby") as Hconversation
    by (by apply alice_bob_conversation).
  assert (sendable alice_composer "alice" "bob") as Hsendable by reflexivity.
  assert (plain_text (inputMessage alice_composer)) as Hplain by apply hello_plain_text.
  split; [exact Hconversation|]. split; [exact Hsendable|]. split; [exact Hplain|].
  destruct (own_copy_under_another_id (sc := toy) (laws := toy_laws) alice_composer bob_chat
              "alice" "bob" "lobby" drawn_once 0 1 Hconversation Hsendable Hplain)
    as (sending & deleting & own & _ & _ & _ & _ & _ & Hrecipient).
  exists sending, deleting. intros rooms rooms' received deleted Hreceived Hdeleted.
  destruct (Hrecipient rooms rooms' received deleted Hreceived Hdeleted)
    as (msg & Hlast & Hid & Hiff).
  exists msg. split; [exact Hlast|]. split; [exact Hid|].
  intros Hyes. apply Hiff in Hyes. discriminate Hyes.
Defined.

Lemma hello_again_plain_text : plain_text hello_again.
Proof.
  split; [repeat constructor|]. split; [vm_compute; reflexivity|].
  vm_compute. discriminate.
Qed.

(** Alice edits her [hello]; the copy of Bob keeps the text [hello]. *)
Lemma hello_edited_by_alice_only :
  conversation (chat alice_composer) bob_chat "alice" "bob" "lobby" /\
  sendable alice_composer "alice" "bob" /\
  plain_text (inputMessage alice_composer) /\
  plain_text hello_again /\ trim_is_empty hello_again = false /\
  truthy (messageId drawn_once) = true /\
  exists sending editing,
    forall rooms rooms' received edited,
      relays "alice" sending rooms received ->
      relays "alice" editing rooms' edited ->
      exists msg,
        last (messages (after (on edited 1) (after (on received 0) bob_chat))) = Some msg /\
        Message.id msg = "msg_1700000000001_p0q8z7b" /\
        Message.text msg = hello /\
        Message.editedAt msg = None.
Proof.
  assert (conversation (chat alice_composer) bob_chat "alice" "bob" "lobby") as Hconversation
    by (by apply alice_bob_conversation).
  assert (sendable alice_composer "alice" "bob") as Hsendable by reflexivity.
  assert (plain_text (inputMessage alice_composer)) as Hplain by apply hello_plain_text.
  split; [exact Hconversation|]. split; [exact Hsendable|]. split; [exact Hplain|].
  split; [exact hello_again_plain_text|]. split; [reflexivity|]. split; [reflexivity|].
  destruct (own_edit_under_another_id (sc := toy) (laws := toy_laws) alice_composer bob_chat
              "alice" "bob" "lobby" drawn_once hello_again "2024-01-01T00:00:03.000Z" 0 1
              Hconversation Hsendable Hplain hello_again_plain_text eq_refl eq_refl)
    as (sending & editing & own & _ & _ & _ & _ & _ & _ & Hrecipient).
  exists sending, editing. intros rooms rooms' received edited Hreceived Hedited.
  destruct (Hrecipient rooms rooms' received edited Hreceived Hedited)
    as (msg & Hlast & Hid & _ & Hother).
  destruct Hother as [Htext Hedit]; [discriminate|].
  exists msg. split; [exact Hlast|]. split; [exact Hid|]. split; [exact Htext|exact Hedit].
Defined.

(** Without the key of Bob, the [hello] of Alice is listed and not sent. *)
Lemma hello_listed_not_sent :
  peerPublicKeys (instance (tab (chat alice_without_key))) !! "bob" = None /\
  messages (chat (handleSendMessage drawn_once alice_without_key).2)
  = [localMessage drawn_once hello (Some "alice") None None] /\
  emitted (chat (handleSendMessage drawn_once alice_without_key).2) = [].
Proof.
  assert (peerPublicKeys (instance (tab (chat alice_without_key))) !! "bob" = None) as Hkey
    by (vm_compute; reflexivity).
  split; [exact Hkey|].
  destruct (unsent_message_is_listed (sc := toy) alice_without_key "lobby" drawn_once
              eq_refl eq_refl eq_refl eq_refl eq_refl (or_intror (or_intror Hkey)))
    as (_ & Hmessages & Hemitted & _).
  split; [exact Hmessages|exact Hemitted].
Defined.

(** Alice and Bob hold each other's key after three deliveries. *)
Lemma alice_and_bob_exchanged :
  connected "alice" "bob" alice_keys bob_keys alice_and_bob /\
  exists ca cb,
    clients (run 3 0 alice_and_bob) !! "alice" = Some ca /\
    clients (run 3 0 alice_and_bob) !! "bob" = Some cb /\
    mutual_key_exchange (tab ca) (tab cb) "alice" "bob".
Proof.
  split; [apply alice_and_bob_connected|].
  exact (key_exchange_completes (sc := toy) (laws := toy_laws) "alice" "bob"
           (entropy_from 3) (entropy_from 5) alice_and_bob 0 0
           alice_and_bob_connected eq_refl).
Defined.

(** Alice and Bob load the page, connect, and join the lobby, Alice
    first: three deliveries later they hold each other's key. *)
Lemma alice_and_bob_join_lobby :
  initialised (loaded 3) /\ initialised (loaded 5) /\
  inflight (session "alice" "bob" "lobby" (loaded 3) (loaded 5))
  = [("alice", ServerEvent.user_connected "bob")] /\
  exists ca cb,
    clients (run 3 0 (session "alice" "bob" "lobby" (loaded 3) (loaded 5))) !! "alice"
    = Some ca /\
    clients (run 3 0 (session "alice" "bob" "lobby" (loaded 3) (loaded 5))) !! "bob"
    = Some cb /\
    mutual_key_exchange (tab ca) (tab cb) "alice" "bob".
Proof.
  assert (initialised (sc := toy) (loaded 3)) as Halice by (split; reflexivity).
  assert (initialised (sc := toy) (loaded 5)) as Hbob by (split; reflexivity).
  split; [exact Halice|]. split; [exact Hbob|].
  apply (joining_exchanges_keys (sc := toy) (laws := toy_laws)
           "alice" "bob" "lobby" (loaded 3) (loaded 5) 0 0);
    [discriminate|reflexivity|reflexivity|discriminate|discriminate|exact Halice|exact Hbob].
Defined.

(** Bob lists the [hello] of Alice as decrypted and answers with a read
    receipt; he lists an envelope that he cannot decrypt as the
    placeholder, and answers nothing. *)
Lemma bob_lists_hello :
  decrypts hello_received bob_chat /\ ~ decrypts noise_received bob_chat /\
  (exists msg,
     messages (after (handleReceiveMessage hello_received) bob_chat) = [msg] /\
     Message.isDecrypted msg = true /\
     Message.text msg = hello /\
     emitted (after (handleReceiveMessage hello_received) bob_chat)
     = [ClientEvent.message_read
          {| Read.messageId := "msg_1700000000001_p0q8z7b"; Read.userId := "bob";
             Read.roomId := "lobby" |}]) /\
  messages (after (handleReceiveMessage noise_received) bob_chat)
  = [undecryptable noise_received] /\
  emitted (after (handleReceiveMessage noise_received) bob_chat) = [].
Proof.
  assert (decrypts (sc := toy) hello_received bob_chat) as Hyes
    by (split; [exists hello; vm_compute; reflexivity|exact I]).
  assert (~ decrypts (sc := toy) noise_received bob_chat) as Hno
    by (intros [[text Htext] _]; vm_compute in Htext; discriminate Htext).
  split; [exact Hyes|]. split; [exact Hno|].
  destruct (handleReceiveMessage_appends (sc := toy) hello_received bob_chat)
    as (_ & msg & Hmessages & _ & _ & _ & Hiff & Hdecrypted & _).
  destruct (handleReceiveMessage_appends (sc := toy) noise_received bob_chat)
    as (_ & msg' & Hmessages' & _ & _ & _ & _ & _ & Hfailed).
  destruct (Hdecrypted Hyes) as (Htext & _ & _ & _ & Hreceipt).
  destruct (Hfailed Hno) as [-> Hemitted].
  split; [|split; [exact Hmessages'|exact Hemitted]].
  exists msg. split; [exact Hmessages|]. split; [by apply Hiff|].
  split; [|exact (Hreceipt "bob" "lobby" bob_attending)].
  match type of Htext with
  | ?outcome = _ => assert (outcome = Return hello) as Hhello by (vm_compute; reflexivity)
  end.
  rewrite Hhello in Htext. by injection Htext as <-.
Defined.


End ScenarioMoreFacts.
